(** * Ticket lifecycle and persistence engine (s.js): a shallow embedding

    The development follows the source file [s.js]:
    - [JSDate]: the part of the host language's [Date] object the store
      relies on ([Date.prototype.toJSON] when a record is written and
      [new Date(string)] when it is read back);
    - [SaveQueue]: [saveActiveTickets] / [processNextSave] on the
      single-threaded run loop;
    - [Tickets]: registry, authorization, quota and the lifecycle
      handlers behind the interaction router, one handler run at a time
      (a creation can also be cut at its wait for the new channel);
    - [Display]: [sanitizeChannelName], the channel name of a new
      ticket, and [formatDateUTC];
    - [CircularQueue]: the class of that name at the end of the file;
    - [Example], [Scenario]: a small guild for the concrete runs.
    [InsertionSort] and [BinarySearch] follow the two Java files next
    to it. Definitions come first; the statements about them follow. *)

From Stdlib Require Import ZArith Lia List Ascii String Bool DecimalString.
From stdpp Require Import base option list strings gmap fin_maps.
From stdpp Require sorting.

Local Open Scope Z_scope.

#[global] Set Warnings "-register-all".

(* ===================================================================== *)
(** * The host [Date] object                                              *)
(* ===================================================================== *)

Module JSDate.

(** Time values are milliseconds since the epoch; [None] in an
    [option Z] is the time value NaN of an invalid date. *)

Definition msPerSecond : Z := 1000.
Definition msPerMinute : Z := 60000.
Definition msPerHour : Z := 3600000.
Definition msPerDay : Z := 86400000.
Definition maxTime : Z := 8640000000000000.

Definition TimeClip (t : Z) : option Z :=
  if (Z.abs t <=? maxTime) then Some t else None.

Definition Day (t : Z) : Z := t / msPerDay.
Definition TimeWithinDay (t : Z) : Z := t mod msPerDay.

Definition isLeap (y : Z) : bool :=
  if negb (y mod 4 =? 0) then false
  else if negb (y mod 100 =? 0) then true
  else if negb (y mod 400 =? 0) then false
  else true.

Definition DaysInYear (y : Z) : Z := if isLeap y then 366 else 365.

Definition DayFromYear (y : Z) : Z :=
  365 * (y - 1970) + (y - 1969) / 4 - (y - 1901) / 100 + (y - 1601) / 400.

(** [YearFromDay d] is the year whose first day is the latest one not
    after day [d]: a first guess from the mean year length, moved by
    one year when it misses. *)
Definition YearFromDay (d : Z) : Z :=
  let y0 := 1970 + (d * 400) / 146097 in
  if (d <? DayFromYear y0) then y0 - 1
  else if (DayFromYear (y0 + 1) <=? d) then y0 + 1
  else y0.

Definition YearFromTime (t : Z) : Z := YearFromDay (Day t).

Definition DayWithinYear (t : Z) : Z := Day t - DayFromYear (YearFromTime t).

Definition InLeapYear (t : Z) : Z := if isLeap (YearFromTime t) then 1 else 0.

(** Number of days of the year before month [m] (0 = January). *)
Definition monthStart (leap : Z) (m : Z) : Z :=
  match m with
  | 0 => 0
  | 1 => 31
  | 2 => 59 + leap
  | 3 => 90 + leap
  | 4 => 120 + leap
  | 5 => 151 + leap
  | 6 => 181 + leap
  | 7 => 212 + leap
  | 8 => 243 + leap
  | 9 => 273 + leap
  | 10 => 304 + leap
  | 11 => 334 + leap
  | _ => 365 + leap
  end.

Definition monthOfDay (leap : Z) (d : Z) : Z :=
  if d <? 31 then 0
  else if d <? 59 + leap then 1
  else if d <? 90 + leap then 2
  else if d <? 120 + leap then 3
  else if d <? 151 + leap then 4
  else if d <? 181 + leap then 5
  else if d <? 212 + leap then 6
  else if d <? 243 + leap then 7
  else if d <? 273 + leap then 8
  else if d <? 304 + leap then 9
  else if d <? 334 + leap then 10
  else 11.

Definition MonthFromTime (t : Z) : Z :=
  monthOfDay (InLeapYear t) (DayWithinYear t).

Definition DateFromTime (t : Z) : Z :=
  DayWithinYear t - monthStart (InLeapYear t) (MonthFromTime t) + 1.

Definition HourFromTime (t : Z) : Z := (t / msPerHour) mod 24.
Definition MinFromTime (t : Z) : Z := (t / msPerMinute) mod 60.
Definition SecFromTime (t : Z) : Z := (t / msPerSecond) mod 60.
Definition msFromTime (t : Z) : Z := t mod msPerSecond.

Definition MakeTime (h m s ms : Z) : Z :=
  h * msPerHour + m * msPerMinute + s * msPerSecond + ms.

Definition MakeDay (year month date : Z) : Z :=
  let ym := year + month / 12 in
  let mn := month mod 12 in
  DayFromYear ym + monthStart (if isLeap ym then 1 else 0) mn + date - 1.

Definition MakeDate (day time : Z) : Z := day * msPerDay + time.

Definition DaysInMonth (year month : Z) : Z :=
  let leap := if isLeap year then 1 else 0 in
  monthStart leap (month + 1) - monthStart leap month.

(** ** Decimal fields *)

Definition digit_char (d : Z) : ascii := ascii_of_nat (48 + Z.to_nat d).

Definition digit_val (c : ascii) : option Z :=
  let n := Z.of_nat (nat_of_ascii c) in
  if (48 <=? n) && (n <=? 57) then Some (n - 48) else None.

(** [pad_digits k n]: the last [k] decimal digits of [n], most
    significant first ([String(n).padStart(k, '0')] for [n < 10^k]). *)
Fixpoint pad_digits (k : nat) (n : Z) : string :=
  match k with
  | O => EmptyString
  | S k' => pad_digits k' (n / 10) +:+ String (digit_char (n mod 10)) EmptyString
  end.

(** Reads exactly [k] digits; [acc] is the value read so far. *)
Fixpoint read_digits (k : nat) (acc : Z) (s : string) : option (Z * string) :=
  match k with
  | O => Some (acc, s)
  | S k' =>
      match s with
      | String c rest =>
          match digit_val c with
          | Some d => read_digits k' (10 * acc + d) rest
          | None => None
          end
      | EmptyString => None
      end
  end.

Definition expect (c : ascii) (s : string) : option string :=
  match s with
  | String c' rest => if Ascii.eqb c c' then Some rest else None
  | EmptyString => None
  end.

(** ** [Date.prototype.toISOString] *)

Definition year_string (y : Z) : string :=
  if (0 <=? y) && (y <=? 9999) then pad_digits 4 y
  else if y <? 0 then String "-"%char (pad_digits 6 (- y))
  else String "+"%char (pad_digits 6 y).

Definition toISOString (t : Z) : string :=
  year_string (YearFromTime t) +:+ "-" +:+
  pad_digits 2 (MonthFromTime t + 1) +:+ "-" +:+
  pad_digits 2 (DateFromTime t) +:+ "T" +:+
  pad_digits 2 (HourFromTime t) +:+ ":" +:+
  pad_digits 2 (MinFromTime t) +:+ ":" +:+
  pad_digits 2 (SecFromTime t) +:+ "." +:+
  pad_digits 3 (msFromTime t) +:+ "Z".

(** [Date.prototype.toJSON]: the ISO string, or [null] for an invalid
    date. *)
Definition toJSON (t : option Z) : option string := toISOString <$> t.

(** ** [Date.parse] on the complete date-time format *)

Definition read_year (s : string) : option (Z * string) :=
  match s with
  | String c rest =>
      if Ascii.eqb c "+" then read_digits 6 0 rest
      else if Ascii.eqb c "-" then
        '(y, rest') ← read_digits 6 0 rest;
        if y =? 0 then None else Some (- y, rest')
      else read_digits 4 0 s
  | EmptyString => None
  end.

Record fields := {
  f_year : Z; f_month : Z; f_day : Z;
  f_hour : Z; f_min : Z; f_sec : Z; f_ms : Z
}.

Definition read_fields (s : string) : option fields :=
  '(y, s) ← read_year s;
  s ← expect "-" s;
  '(mo, s) ← read_digits 2 0 s;
  s ← expect "-" s;
  '(d, s) ← read_digits 2 0 s;
  s ← expect "T" s;
  '(h, s) ← read_digits 2 0 s;
  s ← expect ":" s;
  '(mi, s) ← read_digits 2 0 s;
  s ← expect ":" s;
  '(se, s) ← read_digits 2 0 s;
  s ← expect "." s;
  '(ms, s) ← read_digits 3 0 s;
  s ← expect "Z" s;
  match s with
  | EmptyString =>
      Some {| f_year := y; f_month := mo; f_day := d;
              f_hour := h; f_min := mi; f_sec := se; f_ms := ms |}
  | _ => None
  end.

Definition fields_in_range (f : fields) : bool :=
  (1 <=? f_month f) && (f_month f <=? 12) &&
  (1 <=? f_day f) && (f_day f <=? DaysInMonth (f_year f) (f_month f - 1)) &&
  (f_hour f <=? 23) && (f_min f <=? 59) && (f_sec f <=? 59).

Definition time_of_fields (f : fields) : option Z :=
  TimeClip (MakeDate (MakeDay (f_year f) (f_month f - 1) (f_day f))
                     (MakeTime (f_hour f) (f_min f) (f_sec f) (f_ms f))).

Section Parse.
(** What the engine makes of a string that is not a complete,
    in-range UTC date-time of the format above is left to the host. *)
Variable other_formats : string → option Z.

Definition parse (s : string) : option Z :=
  match read_fields s with
  | Some f => if fields_in_range f then time_of_fields f else other_formats s
  | None => other_formats s
  end.
End Parse.

End JSDate.


(* ===================================================================== *)
(** * Registry, store, authorization, quota and lifecycle                 *)
(* ===================================================================== *)

Module Tickets.

(** ** Values held in ticket records

    A record is a plain object: a finite map from field names to values.
    Numbers are restricted to integers; [VData] is a structured payload
    (the [formData] of a record), kept as the document it serializes to. *)

Inductive prim :=
| PUndef
| PNull
| PBool (b : bool)
| PNum (n : Z)
| PStr (s : string).

#[global] Instance prim_eq_dec : EqDecision prim.
Proof. solve_decision. Defined.

Inductive json :=
| JNull
| JBool (b : bool)
| JNum (n : Z)
| JStr (s : string)
| JArr (items : list json)
| JObj (members : list (string * json)).

Inductive jsval :=
| VPrim (p : prim)
| VDate (t : option Z)
| VData (j : json).

Abbreviation VUndef := (VPrim PUndef).
Abbreviation VNull := (VPrim PNull).
Abbreviation VBool b := (VPrim (PBool b)).
Abbreviation VNum n := (VPrim (PNum n)).
Abbreviation VStr s := (VPrim (PStr s)).

Abbreviation record := (gmap string jsval).
Abbreviation registry := (gmap string (gmap string jsval)).

(** [!p] is [negb (truthy_prim p)]. *)
Definition truthy_prim (p : prim) : bool :=
  match p with
  | PUndef | PNull => false
  | PBool b => b
  | PNum n => negb (n =? 0)
  | PStr s => negb (String.eqb s "")
  end.

Definition truthy (v : jsval) : bool :=
  match v with
  | VPrim p => truthy_prim p
  | VDate _ | VData _ => true
  end.

(** Property read [value.f]: a missing property reads as [undefined]. *)
Definition field (value : record) (f : string) : jsval :=
  default VUndef (value !! f).

(** [v === s] for a string [s]. *)
Definition is_str (v : jsval) (s : string) : bool :=
  match v with
  | VStr s' => String.eqb s' s
  | _ => false
  end.

(** ** The persisted document: [JSON.stringify] and [JSON.parse]

    [to_json] is what [JSON.stringify] makes of a property value
    ([None]: the property is left out); [of_json] is the value
    [JSON.parse] builds. *)

Definition to_json (v : jsval) : option json :=
  match v with
  | VPrim PUndef => None
  | VPrim PNull => Some JNull
  | VPrim (PBool b) => Some (JBool b)
  | VPrim (PNum n) => Some (JNum n)
  | VPrim (PStr s) => Some (JStr s)
  | VDate t =>
      Some (match JSDate.toJSON t with Some s => JStr s | None => JNull end)
  | VData j => Some j
  end.

Definition of_json (j : json) : jsval :=
  match j with
  | JNull => VNull
  | JBool b => VBool b
  | JNum n => VNum n
  | JStr s => VStr s
  | JArr _ | JObj _ => VData j
  end.

(** [a < b] on two values, as the comparison of two dates (false when
    either is not a valid date). *)
Definition date_lt (a b : jsval) : bool :=
  match a, b with
  | VDate (Some x), VDate (Some y) => x <? y
  | _, _ => false
  end.

(** The file [active_tickets.json]: absent, not parsable, or a keyed
    document channel handle -> record (persisted state layout). *)
Inductive disk :=
| NoFile
| Unparsable
| Doc (d : gmap string (gmap string json)).

(** The persisted entry of a channel, if any. *)
Definition persisted (f : disk) (channel : string) : option (gmap string json) :=
  match f with
  | Doc d => d !! channel
  | NoFile | Unparsable => None
  end.

(** The document written by [processNextSave] for a snapshot: every
    entry of the map is assigned to a plain object, [ticketsObj[key] =
    value], which is then given to [JSON.stringify]. Assigning under
    the key [__proto__] sets the prototype of [ticketsObj] and adds no
    property of its own, so that entry is not written. *)
Definition stringify (value : record) : gmap string json := omap to_json value.

Definition serialize (tickets : registry) : gmap string (gmap string json) :=
  stringify <$> delete "__proto__" tickets.

Section Host.

(** What the host makes of a date string outside the complete UTC
    date-time format, and of a structured value passed to [new Date]. *)
Variable other_formats : string → option Z.
Variable date_of_data : json → option Z.

(** [new Date(v)] *)
Definition new_Date (v : jsval) : jsval :=
  VDate match v with
        | VPrim (PStr s) => JSDate.parse other_formats s
        | VPrim (PNum n) => JSDate.TimeClip n
        | VPrim (PBool b) => Some (if b then 1 else 0)
        | VPrim PNull => Some 0
        | VPrim PUndef => None
        | VDate t => t
        | VData j => date_of_data j
        end.

(** [if (value.f) value.f = new Date(value.f);] *)
Definition revive_date (f : string) (value : record) : record :=
  if truthy (field value f) then <[f := new_Date (field value f)]> value
  else value.

(** The body of the [forEach] of [loadActiveTickets] for one entry. *)
Definition revive (key : string) (value : record) : record :=
  let value :=
    if negb (truthy (field value "channelId"))
    then <["channelId" := VStr key]> value else value in
  let value := revive_date "createdAt" value in
  let value := revive_date "closedAt" value in
  revive_date "reopenedAt" value.

Definition loadActiveTickets (f : disk) : registry :=
  match f with
  | NoFile => ∅
  | Unparsable => ∅
  | Doc d => map_imap (λ key value, Some (revive key (of_json <$> value))) d
  end.

End Host.

(** ** Configuration *)

(** A [config.staffRoles] entry: an array of identifiers or a single
    value (possibly [undefined]). *)
Inductive roles_cfg :=
| RoleList (l : list prim)
| RoleOne (p : prim).

(** What the router uses of a panel module. *)
Record Panel := {
  buttonId : string;
  modalId : string;
  ticketType : string
}.

Record Config := {
  staffRoles_hr : roles_cfg;
  staffRoles_bookings : roles_cfg;
  staffRoles_support : roles_cfg;
  staffRoles_partnership : roles_cfg;
  staffRoles_founders : roles_cfg;
  maxTicketsPerUser : option Z;
  maxTicketsPerUserPerType : option Z;
  logChannel : option string;
  panelModules : list Panel
}.

(** ** Authorization *)

(** [/^\d+$/.test(s)] *)
Definition all_digits (s : string) : bool :=
  match s with
  | EmptyString => false
  | _ => forallb (λ c, match JSDate.digit_val c with Some _ => true | None => false end)
                 (list_ascii_of_string s)
  end.

Definition isValidSnowflake (id : prim) : bool :=
  if negb (truthy_prim id) then false
  else match id with
       | PStr s =>
           if negb (all_digits s) then false
           else (17 <=? String.length s)%nat && (String.length s <=? 19)%nat
       | _ => false
       end.

(** [if (Array.isArray(c)) roles.push(...c); else if (c) roles.push(c);] *)
Definition push_roles (c : roles_cfg) : list prim :=
  match c with
  | RoleList l => l
  | RoleOne p => if truthy_prim p then [p] else []
  end.

(** [[...new Set(l)]]: first occurrences, in order. *)
Fixpoint set_of (seen : list prim) (l : list prim) : list prim :=
  match l with
  | [] => []
  | x :: l' =>
      if bool_decide (x ∈ seen) then set_of seen l'
      else x :: set_of (x :: seen) l'
  end.

(** The [switch] of [getTicketRoles]: the configured entry pushed for
    the ticket type. *)
Definition pushed_roles (cfg : Config) (ticketType : jsval) : list prim :=
  match ticketType with
  | VStr t =>
      if String.eqb t "joinTeam" then push_roles (staffRoles_hr cfg)
      else if String.eqb t "bookUs" then push_roles (staffRoles_bookings cfg)
      else if String.eqb t "support" then push_roles (staffRoles_support cfg)
      else if String.eqb t "partnership" then push_roles (staffRoles_partnership cfg)
      else if String.eqb t "founders" then push_roles (staffRoles_founders cfg)
      else if String.eqb t "hr" then push_roles (staffRoles_hr cfg)
      else []
  | _ => []
  end.

(** [return [...new Set(roles.filter(Boolean))];] *)
Definition getTicketRoles (cfg : Config) (ticketType : jsval) : list prim :=
  set_of [] (List.filter truthy_prim (pushed_roles cfg ticketType)).

(** The acting guild member. *)
Record Member := {
  userId : string;
  isAdministrator : bool;
  memberRoles : list string
}.

(** [member.roles.cache.has(roleId)] *)
Definition has_role (m : Member) (roleId : prim) : bool :=
  match roleId with
  | PStr s => bool_decide (s ∈ memberRoles m)
  | _ => false
  end.

(** The staff check of the router for a ticket of type [ticketType]. *)
Definition isStaff (cfg : Config) (m : Member) (ticketType : jsval) : bool :=
  isAdministrator m || existsb (has_role m) (getTicketRoles cfg ticketType).

(** ** Quota *)

Definition string_of_Z (n : Z) : string :=
  DecimalString.NilZero.string_of_int (Z.to_int n).

Definition upper (c : ascii) : ascii :=
  let n := nat_of_ascii c in
  if (97 <=? n)%nat && (n <=? 122)%nat then ascii_of_nat (n - 32) else c.

Definition formatTicketType (ticketType : string) : string :=
  if String.eqb ticketType "joinTeam" then "Join the Team"
  else if String.eqb ticketType "bookUs" then "Book Us"
  else if String.eqb ticketType "support" then "Support"
  else if String.eqb ticketType "partnership" then "Partnership"
  else if String.eqb ticketType "founders" then "Founders Manager"
  else if String.eqb ticketType "hr" then "HR Department"
  else match ticketType with
       | String c rest => String (upper c) rest
       | EmptyString => EmptyString
       end.

Definition values (tickets : registry) : list record :=
  (map_to_list tickets).*2.

(** The user's open tickets, and those of one type. *)
Definition userTickets (tickets : registry) (user : string) : list record :=
  List.filter (λ ticket, is_str (field ticket "userId") user
                         && negb (truthy (field ticket "closed")))
              (values tickets).

Definition userTicketsOfType
    (tickets : registry) (user : string) (ticketType : string) : list record :=
  List.filter (λ ticket, is_str (field ticket "type") ticketType)
              (userTickets tickets user).

Definition maxTotal (cfg : Config) : Z := default 10 (maxTicketsPerUser cfg).
Definition maxPerType (cfg : Config) : Z := default 3 (maxTicketsPerUserPerType cfg).

Definition msg_total_limit (cfg : Config) : string :=
  "You have reached the maximum limit of " +:+ string_of_Z (maxTotal cfg) +:+
  " open tickets. Please close some of your existing tickets before creating more.".

Definition msg_type_limit (cfg : Config) (ticketType : string) : string :=
  "You can only have " +:+ string_of_Z (maxPerType cfg) +:+ " open " +:+
  formatTicketType ticketType +:+
  " tickets at once. Please close some of your existing " +:+
  formatTicketType ticketType +:+ " tickets before creating more.".

Inductive quota :=
| Allow
| Deny (message : string).

(** The two limit checks at the head of [createTicket] and of
    [createTicketWithFormData] (the same statements in both). *)
Definition checkQuota
    (cfg : Config) (tickets : registry) (user ticketType : string) : quota :=
  if Z.of_nat (length (userTickets tickets user)) >=? maxTotal cfg
  then Deny (msg_total_limit cfg)
  else if Z.of_nat (length (userTicketsOfType tickets user ticketType))
          >=? maxPerType cfg
  then Deny (msg_type_limit cfg ticketType)
  else Allow.

(** ** The process, the guild and the environment of one handler run *)

(** Outcome of the [fs.promises.writeFile] behind an awaited save. *)
Inductive write_result :=
| WriteOk
| WriteFailedUntouched
| WriteFailedTorn.

(** What the platform and the clock answer while one handler runs. *)
Record Env := {
  now : Z;
  deferReply_ok : bool;
  permissionEdit_ok : bool;
  channelSend_ok : bool;
  transcript_ok : bool;
  channelDelete_ok : bool;
  writeFile : write_result;
  created_channel : option string;
  guildId : string;
  guildRoles : list string
}.

Record State := {
  activeTickets : registry;
  ticketsLoaded : bool;
  file : disk;
  channels : gset string;
  permissionOverwrites : gmap (string * string) (gmap string bool);
  pendingDelete : list string
}.

Inductive Output :=
| Reply (content : string)
| ClosePrompt
| ShowModal (panel : Panel)
| Post (channel : string) (what : string)
| LogAction (action : string) (ticketId : string)
| ConsoleError (what : string).

(** Handler bodies: state, output and exceptions ([None] is a throw;
    the effects made before it stay). *)
Definition M (A : Type) : Type :=
  State → list Output → option A * State * list Output.

#[global] Instance M_ret : MRet M := λ A a s o, (Some a, s, o).

#[global] Instance M_bind : MBind M := λ A B f m s o,
  match m s o with
  | (Some a, s', o') => f a s' o'
  | (None, s', o') => (None, s', o')
  end.

Definition throw {A} : M A := λ s o, (None, s, o).

(** [try { body } catch (error) { handler }] *)
Definition try_catch {A} (body handler : M A) : M A := λ s o,
  match body s o with
  | (Some a, s', o') => (Some a, s', o')
  | (None, s', o') => handler s' o'
  end.

Definition get_state : M State := λ s o, (Some s, s, o).
Definition put_state (s : State) : M unit := λ _ o, (Some (), s, o).
Definition emit (x : Output) : M unit := λ s o, (Some (), s, o ++ [x]).

Definition run (m : M unit) (s : State) : State * list Output :=
  let '(_, s', o) := m s [] in (s', o).

Definition msg_not_a_ticket : string :=
  "This channel is not set up as a ticket. If this is an error, please contact an administrator.".
Definition msg_staff_only : string :=
  "Only staff members can close, delete, or reopen tickets.".
Definition msg_generic_error : string :=
  "An error occurred while processing your request.".

Definition set_tickets (s : State) (t : registry) : State :=
  {| activeTickets := t; ticketsLoaded := ticketsLoaded s; file := file s;
     channels := channels s; permissionOverwrites := permissionOverwrites s;
     pendingDelete := pendingDelete s |}.

Definition set_file (s : State) (f : disk) : State :=
  {| activeTickets := activeTickets s; ticketsLoaded := ticketsLoaded s;
     file := f; channels := channels s;
     permissionOverwrites := permissionOverwrites s;
     pendingDelete := pendingDelete s |}.

Section Handlers.

Variable other_formats : string → option Z.
Variable date_of_data : json → option Z.
Variable cfg : Config.
Variable env : Env.

Definition ensureTicketsLoaded : M unit :=
  s ← get_state;
  if ticketsLoaded s then mret ()
  else
    put_state
      {| activeTickets := loadActiveTickets other_formats date_of_data (file s);
         ticketsLoaded := true; file := file s; channels := channels s;
         permissionOverwrites := permissionOverwrites s;
         pendingDelete := pendingDelete s |}.

(** The state once the lazy load has happened. *)
Definition loaded (s : State) : State := (run ensureTicketsLoaded s).1.

(** [await saveActiveTickets(activeTickets)]: the snapshot is written in
    full; a failed write rejects, which throws at the [await]. *)
Definition saveActiveTickets : M unit :=
  s ← get_state;
  match writeFile env with
  | WriteOk => put_state (set_file s (Doc (serialize (activeTickets s))))
  | WriteFailedUntouched => throw
  | WriteFailedTorn => put_state (set_file s Unparsable);; throw
  end.

(** [activeTickets.get(id)] followed by a property read: a [TypeError]
    when there is no record. *)
Definition get_ticket (id : string) : M record :=
  s ← get_state;
  match activeTickets s !! id with
  | Some ticket => mret ticket
  | None => throw
  end.

Definition has_ticket (s : State) (id : string) : bool :=
  bool_decide (is_Some (activeTickets s !! id)).

Definition tickets_set (id : string) (value : record) : M unit :=
  s ← get_state; put_state (set_tickets s (<[id := value]> (activeTickets s))).

Definition tickets_delete (id : string) : M unit :=
  s ← get_state; put_state (set_tickets s (delete id (activeTickets s))).

(** [channel.permissionOverwrites.edit(id, { SendMessages: allow })] *)
Definition permissionOverwrites_edit
    (channel : string) (id : jsval) (allow : bool) : M unit :=
  match id with
  | VStr u =>
      if permissionEdit_ok env then
        s ← get_state;
        let old := default ∅ (permissionOverwrites s !! (channel, u)) in
        put_state
          {| activeTickets := activeTickets s; ticketsLoaded := ticketsLoaded s;
             file := file s; channels := channels s;
             permissionOverwrites :=
               <[(channel, u) := <["SendMessages" := allow]> old]>
                 (permissionOverwrites s);
             pendingDelete := pendingDelete s |}
      else throw
  | _ => throw
  end.

Definition channel_send (channel what : string) : M unit :=
  if channelSend_ok env then emit (Post channel what) else throw.

(** [logTicketAction]: nothing without a live log channel; formatting
    the type fails on anything but a string. *)
Definition logTicketAction
    (ticketType : jsval) (action ticketId : string) : M unit :=
  s ← get_state;
  match logChannel cfg with
  | Some lc =>
      if bool_decide (lc ∈ channels s) then
        match ticketType with
        | VStr _ => emit (LogAction action ticketId)
        | _ => throw
        end
      else mret ()
  | None => mret ()
  end.

Definition new_Date_now : jsval := VDate (Some (now env)).

Definition closeTicket (channel : string) (member : Member) : M unit :=
  ensureTicketsLoaded;;
  try_catch
    (s ← get_state;
     if negb (has_ticket s channel) then emit (Reply msg_not_a_ticket)
     else emit ClosePrompt)
    (emit (ConsoleError "Error initiating ticket closure");;
     emit (Reply msg_generic_error)).

Definition closeTicketConfirmed (channel : string) (member : Member) : M unit :=
  ensureTicketsLoaded;;
  try_catch
    (ticket ← get_ticket channel;
     permissionOverwrites_edit channel (field ticket "userId") false;;
     channel_send channel "Ticket Closed";;
     ticketData ← get_ticket channel;
     logTicketAction (field ticketData "type") "closed" channel;;
     let updatedTicketData :=
       <["closedBy" := VStr (userId member)]>
         (<["closedAt" := new_Date_now]>
            (<["closed" := VBool true]> ticketData)) in
     tickets_set channel updatedTicketData;;
     saveActiveTickets;;
     emit (Reply "Ticket has been closed."))
    (emit (ConsoleError "Error closing ticket");;
     emit (ConsoleError "Failed to send error message to channel")).

Definition closeTicketCancelled (channel : string) (member : Member) : M unit :=
  emit (Reply "Ticket closure cancelled.").

Definition reopenTicket (channel : string) (member : Member) : M unit :=
  ensureTicketsLoaded;;
  try_catch
    (s ← get_state;
     if negb (has_ticket s channel) then emit (Reply msg_not_a_ticket)
     else
       ticket ← get_ticket channel;
       permissionOverwrites_edit channel (field ticket "userId") true;;
       channel_send channel "Ticket Reopened";;
       ticketData ← get_ticket channel;
       logTicketAction (field ticketData "type") "reopened" channel;;
       let updatedTicketData :=
         <["reopenedBy" := VStr (userId member)]>
           (<["reopenedAt" := new_Date_now]>
              (<["closed" := VBool false]> ticketData)) in
       tickets_set channel updatedTicketData;;
       saveActiveTickets;;
       emit (Reply "Ticket has been reopened."))
    (emit (ConsoleError "Error reopening ticket");;
     emit (ConsoleError "Failed to send error message to channel")).

(** [createTranscriptForDeletion] inside its own [try]: the header is
    formatted from the type before the generator is called. *)
Definition transcript_for_deletion (ticketData : record) : M unit :=
  match field ticketData "type" with
  | VStr _ =>
      if transcript_ok env
      then emit (Reply "Transcript saved. Ticket will be deleted in 5 seconds...")
      else emit (Reply "Failed to save transcript. Ticket will be deleted in 5 seconds...")
  | _ => emit (Reply "Failed to save transcript. Ticket will be deleted in 5 seconds...")
  end.

Definition schedule_delete (channel : string) : M unit :=
  s ← get_state;
  put_state
    {| activeTickets := activeTickets s; ticketsLoaded := ticketsLoaded s;
       file := file s; channels := channels s;
       permissionOverwrites := permissionOverwrites s;
       pendingDelete := pendingDelete s ++ [channel] |}.

Definition deleteTicket (channel : string) (member : Member) : M unit :=
  ensureTicketsLoaded;;
  try_catch
    (s ← get_state;
     if negb (has_ticket s channel) then emit (Reply msg_not_a_ticket)
     else
       ticketData ← get_ticket channel;
       transcript_for_deletion ticketData;;
       logTicketAction (field ticketData "type") "deleted" channel;;
       tickets_delete channel;;
       saveActiveTickets;;
       schedule_delete channel)
    (emit (ConsoleError "Error deleting ticket");;
     emit (ConsoleError "Failed to send error message to channel")).

Definition createTranscript (channel : string) (member : Member) : M unit :=
  ensureTicketsLoaded;;
  try_catch
    (s ← get_state;
     if negb (has_ticket s channel) then emit (Reply msg_not_a_ticket)
     else
       ticketData ← get_ticket channel;
       match field ticketData "type" with
       | VStr _ =>
           (if transcript_ok env then mret () else throw);;
           channel_send channel "Transcript saved";;
           logTicketAction (field ticketData "type") "transcript" channel;;
           emit (Reply "Transcript has been created and saved!")
       | _ => throw
       end)
    (emit (ConsoleError "Error creating transcript");;
     emit (ConsoleError "Failed to send error message to channel")).

(** [guild.channels.create]: the new channel with its overwrite list
    (everyone is denied the view, the requester and the staff roles
    known to the guild are let in). *)
Definition requester_allow (embedLinks : bool) : gmap string bool :=
  let base : gmap string bool :=
    <["AddReactions" := true]>
      (<["AttachFiles" := true]>
         (<["ReadMessageHistory" := true]>
            (<["SendMessages" := true]> {["ViewChannel" := true]}))) in
  if embedLinks then <["EmbedLinks" := true]> base else base.

Definition staff_allow : gmap string bool :=
  <["ReadMessageHistory" := true]>
    (<["SendMessages" := true]> {["ViewChannel" := true]}).

Definition add_role_overwrite
    (id : string) (ow : gmap (string * string) (gmap string bool)) (roleId : prim)
    : gmap (string * string) (gmap string bool) :=
  match roleId with
  | PStr r =>
      if bool_decide (r ∈ guildRoles env) then <[(id, r) := staff_allow]> ow
      else ow
  | _ => ow
  end.

Definition channels_create
    (user : string) (embedLinks : bool) (visibleRoles : list prim) : M string :=
  match created_channel env with
  | None => throw
  | Some id =>
      s ← get_state;
      let ow :=
        foldl (add_role_overwrite id)
          (<[(id, user) := requester_allow embedLinks]>
             (<[(id, guildId env) := {["ViewChannel" := false]}]>
                (permissionOverwrites s)))
          visibleRoles in
      put_state
        {| activeTickets := activeTickets s; ticketsLoaded := ticketsLoaded s;
           file := file s; channels := {[id]} ∪ channels s;
           permissionOverwrites := ow; pendingDelete := pendingDelete s |};;
      mret id
  end.

Definition msg_create_error : string :=
  "An error occurred while creating your ticket. Please contact an administrator.".

Definition createTicketWithFormData
    (member : Member) (ticketType : string) (formData : jsval) : M unit :=
  ensureTicketsLoaded;;
  s ← get_state;
  match checkQuota cfg (activeTickets s) (userId member) ticketType with
  | Deny message => emit (Reply message)
  | Allow =>
      try_catch
        (let visibleRoles :=
           List.filter isValidSnowflake (getTicketRoles cfg (VStr ticketType)) in
         id ← channels_create (userId member) true visibleRoles;
         tickets_set id
           (<["formData" := formData]>
              (<["createdAt" := new_Date_now]>
                 (<["type" := VStr ticketType]>
                    (<["userId" := VStr (userId member)]>
                       {["channelId" := VStr id]}))));;
         saveActiveTickets;;
         channel_send id "welcome";;
         channel_send id "controls";;
         logTicketAction (VStr ticketType) "created" id;;
         emit (Reply ("Your " +:+ formatTicketType ticketType +:+
                      " ticket has been created: <#" +:+ id +:+ ">")))
        (emit (ConsoleError "Error creating ticket");;
         emit (Reply msg_create_error))
  end.

Definition createTicket (member : Member) (ticketType : string) : M unit :=
  if negb (deferReply_ok env)
  then emit (ConsoleError "Error deferring reply for createTicket")
  else
    ensureTicketsLoaded;;
    s ← get_state;
    match checkQuota cfg (activeTickets s) (userId member) ticketType with
    | Deny message => emit (Reply message)
    | Allow =>
        try_catch
          (let visibleRoles :=
             List.filter isValidSnowflake (getTicketRoles cfg (VStr ticketType)) in
           id ← channels_create (userId member) false visibleRoles;
           tickets_set id
             (<["createdAt" := new_Date_now]>
                (<["type" := VStr ticketType]>
                   (<["userId" := VStr (userId member)]>
                      {["channelId" := VStr id]})));;
           saveActiveTickets;;
           channel_send id "welcome";;
           logTicketAction (VStr ticketType) "created" id;;
           emit (Reply ("Your ticket has been created: <#" +:+ id +:+ ">")))
          (emit (ConsoleError "Error creating ticket");;
           emit (Reply msg_create_error))
    end.

(** ** A creation cut at its wait for the channel

    Between the limit checks and [activeTickets.set] both creation
    paths wait for [guild.channels.create], and other interactions are
    handled during the wait. [..._asks] is the handler up to the wait
    ([true]: the limits let the request through and the channel has
    been asked for); [..._goes_on] is the handler from the answer on.
    One run after the other is the handler itself. *)
Definition createTicket_asks (member : Member) (ticketType : string) : M bool :=
  if negb (deferReply_ok env)
  then emit (ConsoleError "Error deferring reply for createTicket");;
       mret false
  else
    ensureTicketsLoaded;;
    s ← get_state;
    match checkQuota cfg (activeTickets s) (userId member) ticketType with
    | Deny message => emit (Reply message);; mret false
    | Allow => mret true
    end.

Definition createTicket_goes_on
    (member : Member) (ticketType : string) : M unit :=
  try_catch
    (let visibleRoles :=
       List.filter isValidSnowflake (getTicketRoles cfg (VStr ticketType)) in
     id ← channels_create (userId member) false visibleRoles;
     tickets_set id
       (<["createdAt" := new_Date_now]>
          (<["type" := VStr ticketType]>
             (<["userId" := VStr (userId member)]>
                {["channelId" := VStr id]})));;
     saveActiveTickets;;
     channel_send id "welcome";;
     logTicketAction (VStr ticketType) "created" id;;
     emit (Reply ("Your ticket has been created: <#" +:+ id +:+ ">")))
    (emit (ConsoleError "Error creating ticket");;
     emit (Reply msg_create_error)).

Definition createTicketWithFormData_asks
    (member : Member) (ticketType : string) : M bool :=
  ensureTicketsLoaded;;
  s ← get_state;
  match checkQuota cfg (activeTickets s) (userId member) ticketType with
  | Deny message => emit (Reply message);; mret false
  | Allow => mret true
  end.

Definition createTicketWithFormData_goes_on
    (member : Member) (ticketType : string) (formData : jsval) : M unit :=
  try_catch
    (let visibleRoles :=
       List.filter isValidSnowflake (getTicketRoles cfg (VStr ticketType)) in
     id ← channels_create (userId member) true visibleRoles;
     tickets_set id
       (<["formData" := formData]>
          (<["createdAt" := new_Date_now]>
             (<["type" := VStr ticketType]>
                (<["userId" := VStr (userId member)]>
                   {["channelId" := VStr id]}))));;
     saveActiveTickets;;
     channel_send id "welcome";;
     channel_send id "controls";;
     logTicketAction (VStr ticketType) "created" id;;
     emit (Reply ("Your " +:+ formatTicketType ticketType +:+
                  " ticket has been created: <#" +:+ id +:+ ">")))
    (emit (ConsoleError "Error creating ticket");;
     emit (Reply msg_create_error)).

Definition valid_ticket_type (t : string) : bool :=
  existsb (String.eqb t)
    ["support"; "joinTeam"; "bookUs"; "partnership"; "founders"; "hr"].

Definition msg_invalid_type : string :=
  "Invalid ticket type. Valid types: support, joinTeam, bookUs, partnership, founders, hr".

(** [/register-ticket]: [option_channel], [targetUser] and [ticketType]
    are the command options (absent ones read as [null]). *)
Definition registerExistingTicket
    (member : Member) (channel : string) (option_channel : option string)
    (targetUser : option string) (ticketType : option string) : M unit :=
  if negb (isAdministrator member)
  then emit (Reply "You need administrator permissions to register tickets.")
  else if negb (deferReply_ok env)
  then emit (ConsoleError "Error deferring reply for register-ticket")
  else
    try_catch
      (ensureTicketsLoaded;;
       let channel := default channel option_channel in
       match ticketType with
       | Some t =>
           if negb (valid_ticket_type t) then emit (Reply msg_invalid_type)
           else
             s ← get_state;
             if has_ticket s channel then
               ticket ← get_ticket channel;
               match field ticket "type" with
               | VStr t' =>
                   emit (Reply ("This channel is already registered as a " +:+
                                formatTicketType t' +:+ " ticket."))
               | _ => throw
               end
             else
               user ← match targetUser with
                      | Some u => mret u
                      | None => throw
                      end;
               tickets_set channel
                 (<["manuallyRegistered" := VBool true]>
                    (<["createdAt" := new_Date_now]>
                       (<["type" := VStr t]>
                          (<["userId" := VStr user]>
                             {["channelId" := VStr channel]}))));;
               saveActiveTickets;;
               channel_send channel "registered";;
               logTicketAction (VStr t) "manually-registered" channel;;
               emit (Reply "Successfully registered")
       | None => emit (Reply msg_invalid_type)
       end)
      (emit (ConsoleError "Error registering ticket");;
       emit (Reply "An error occurred while registering the ticket")).

Definition debugTickets (member : Member) (channel : string) : M unit :=
  if negb (isAdministrator member)
  then emit (Reply "You need administrator permissions to debug tickets.")
  else if negb (deferReply_ok env)
  then emit (ConsoleError "Error deferring reply for debug-tickets")
  else ensureTicketsLoaded;; emit (Reply "debug information").

(** The [ready] handler: records whose channel is gone are dropped and
    the pruned map is saved (the save is not awaited). *)
Definition ready : M unit :=
  s ← get_state;
  put_state
    (set_tickets s
       (filter (λ kv : string * record, kv.1 ∈ channels s) (activeTickets s)));;
  try_catch saveActiveTickets (mret ()).

(** ** The interaction router *)

(** [buttonToPanel[customId]], as far as the properties set by
    [setupTicketSystem] go: later modules overwrite earlier ones. *)
Definition buttonToPanel (customId : string) : option Panel :=
  List.find (λ p, String.eqb (buttonId p) customId) (rev (panelModules cfg)).

(** [buttonToPanel] is a plain object, so a lookup also finds what
    every object inherits; none of that has a [createModal]. (The
    button identifier of a panel is taken not to be [__proto__].) *)
Definition inherited (customId : string) : bool :=
  existsb (String.eqb customId)
    ["constructor"; "hasOwnProperty"; "isPrototypeOf";
     "propertyIsEnumerable"; "toLocaleString"; "toString"; "valueOf";
     "__defineGetter__"; "__defineSetter__"; "__lookupGetter__";
     "__lookupSetter__"; "__proto__"].

Fixpoint split_on (sep : ascii) (cur : string) (s : string) : list string :=
  match s with
  | EmptyString => [cur]
  | String c rest =>
      if Ascii.eqb c sep then cur :: split_on sep EmptyString rest
      else split_on sep (cur +:+ String c EmptyString) rest
  end.

(** [customId.split('_')[2]] *)
Definition third_segment (customId : string) : string :=
  nth 2 (split_on "_" EmptyString customId) EmptyString.

Definition when (b : bool) (m : M unit) : M unit := if b then m else mret ().

Definition on_button (customId channel : string) (member : Member) : M unit :=
  match buttonToPanel customId with
  | Some panel => emit (ShowModal panel)
  | None =>
      if inherited customId then throw
      else
      if String.eqb customId "ticket_close" || String.eqb customId "ticket_delete"
         || String.eqb customId "ticket_reopen"
         || String.eqb customId "ticket_transcript"
      then
        ensureTicketsLoaded;;
        s ← get_state;
        if negb (has_ticket s channel) then emit (Reply msg_not_a_ticket)
        else
          staff ←
            (if String.eqb customId "ticket_close"
                || String.eqb customId "ticket_delete"
                || String.eqb customId "ticket_reopen"
             then
               ticketData ← get_ticket channel;
               mret (isStaff cfg member (field ticketData "type"))
             else mret true);
          if negb staff then emit (Reply msg_staff_only)
          else
            when (String.eqb customId "ticket_close") (closeTicket channel member);;
            when (String.eqb customId "ticket_delete") (deleteTicket channel member);;
            when (String.eqb customId "ticket_reopen") (reopenTicket channel member);;
            when (String.eqb customId "ticket_transcript")
                 (createTranscript channel member)
      else if String.eqb customId "ticket_close_confirm"
      then closeTicketConfirmed channel member
      else if String.eqb customId "ticket_close_cancel"
      then closeTicketCancelled channel member
      else if String.prefix "ticket_create_" customId
      then createTicket member (third_segment customId)
      else if String.eqb customId "event_accept"
      then ensureTicketsLoaded;; emit (Post channel "Real Ops Request Accepted")
      else if String.eqb customId "event_decline"
      then ensureTicketsLoaded;;
           emit (Reply "Please select the reason for declining this event booking:")
      else mret ()
  end.

Definition on_select (customId channel : string) (member : Member) : M unit :=
  if String.eqb customId "decline_reason_select"
  then ensureTicketsLoaded;; emit (Post channel "Real Ops Request Declined")
  else mret ().

Definition on_modal
    (customId : string) (member : Member) (formData : jsval) : M unit :=
  match List.find (λ p, String.eqb (modalId p) customId) (panelModules cfg) with
  | Some panelModule =>
      try_catch
        ((if deferReply_ok env then mret () else throw);;
         createTicketWithFormData member (ticketType panelModule) formData)
        (emit (ConsoleError "Error handling modal submission");;
         emit (Reply "An error occurred while processing your submission. Please try again later."))
  | None => mret ()
  end.

Definition safeInteractionHandler (handler : M unit) : M unit :=
  try_catch handler
    (emit (ConsoleError "Error handling interaction");;
     emit (Reply msg_generic_error)).

(** ** Events of the run loop

    The slash commands handled here are [/register-ticket],
    [/debug-tickets] and a command name that is not registered
    ([UnknownCommand]: the router answers that it was not found). The
    [setup-...] commands and the registered commands run code of other
    modules ([sendPanel], [command.execute]), which is given the
    interaction and can reach the exported map; they are not events
    of this development.

    [Button] and [ModalSubmit] are handler runs during which no other
    event is handled. A creation during whose wait for the channel
    other events are handled is two events: [CreateSuspended] (the
    press of a [ticket_create_] button, or with [form] the submission
    of a panel's form, up to the wait) and [CreateResumed] (the same
    handler from the answer on; with a form, its data). The
    environment of a [CreateResumed] holds the guild roles as the
    handler read them before the wait. *)

Inductive Event :=
| Ready
| Button (customId channel : string) (member : Member)
| SelectMenu (customId channel : string) (member : Member)
| ModalSubmit (customId : string) (member : Member) (formData : jsval)
| RegisterTicket (member : Member) (channel : string)
    (option_channel targetUser ticketType : option string)
| DebugTickets (member : Member) (channel : string)
| UnknownCommand
| DeleteTimer (channel : string)
| ChannelRemoved (channel : string)
| Restart
| CreateSuspended (member : Member) (ticketType : string) (form : bool)
| CreateResumed (member : Member) (ticketType : string)
    (formData : option jsval).

Definition remove_channel (channel : string) : M unit :=
  s ← get_state;
  put_state
    {| activeTickets := activeTickets s; ticketsLoaded := ticketsLoaded s;
       file := file s; channels := channels s ∖ {[channel]};
       permissionOverwrites := permissionOverwrites s;
       pendingDelete :=
         List.filter (λ c, negb (String.eqb c channel)) (pendingDelete s) |}.

(** The timer is spent and the channel stays. *)
Definition spend_timer (channel : string) : M unit :=
  s ← get_state;
  put_state
    {| activeTickets := activeTickets s; ticketsLoaded := ticketsLoaded s;
       file := file s; channels := channels s;
       permissionOverwrites := permissionOverwrites s;
       pendingDelete :=
         List.filter (λ c, negb (String.eqb c channel)) (pendingDelete s) |}.

(** The callback of the timer set by [deleteTicket]:
    [channel.delete().catch(err => console.error(...))]. *)
Definition delete_channel (channel : string) : M unit :=
  if channelDelete_ok env then remove_channel channel
  else spend_timer channel;; emit (ConsoleError "Error deleting channel").

(** The [catch] of the form submission in the router. *)
Definition modal_failed : M unit :=
  emit (ConsoleError "Error handling modal submission");;
  emit (Reply "An error occurred while processing your submission. Please try again later.").

(** The process starts: the module is evaluated again. *)
Definition boot (s : State) : State :=
  {| activeTickets := loadActiveTickets other_formats date_of_data (file s);
     ticketsLoaded := false; file := file s; channels := channels s;
     permissionOverwrites := permissionOverwrites s; pendingDelete := [] |}.

Definition handle (ev : Event) : M unit :=
  match ev with
  | Ready => ready
  | Button customId channel member =>
      safeInteractionHandler (on_button customId channel member)
  | SelectMenu customId channel member =>
      safeInteractionHandler (on_select customId channel member)
  | ModalSubmit customId member formData =>
      safeInteractionHandler (on_modal customId member formData)
  | RegisterTicket member channel oc u t =>
      safeInteractionHandler (registerExistingTicket member channel oc u t)
  | DebugTickets member channel =>
      safeInteractionHandler (debugTickets member channel)
  | UnknownCommand =>
      safeInteractionHandler (emit (Reply "Command not found!"))
  | DeleteTimer channel =>
      s ← get_state;
      when (bool_decide (channel ∈ pendingDelete s)) (delete_channel channel)
  | ChannelRemoved channel => remove_channel channel
  | Restart => s ← get_state; put_state (boot s)
  | CreateSuspended member ticketType false =>
      safeInteractionHandler (createTicket_asks member ticketType;; mret ())
  | CreateSuspended member ticketType true =>
      safeInteractionHandler
        (try_catch
           ((if deferReply_ok env then mret () else throw);;
            createTicketWithFormData_asks member ticketType;; mret ())
           modal_failed)
  | CreateResumed member ticketType None =>
      safeInteractionHandler (createTicket_goes_on member ticketType)
  | CreateResumed member ticketType (Some formData) =>
      safeInteractionHandler
        (try_catch
           (createTicketWithFormData_goes_on member ticketType formData)
           modal_failed)
  end.

Definition step (ev : Event) (s : State) : State * list Output :=
  run (handle ev) s.

End Handlers.

(** A run: each event comes with what the environment answers during
    its handler. *)
Definition exec
    (other_formats : string → option Z) (date_of_data : json → option Z)
    (cfg : Config) (trace : list (Env * Event)) (s : State) : State :=
  foldl (λ s '(env, ev), (step other_formats date_of_data cfg env ev s).1) s trace.

(** The state right after the module is first evaluated on file [f]. *)
Definition start
    (other_formats : string → option Z) (date_of_data : json → option Z)
    (f : disk) (chans : gset string)
    (ow : gmap (string * string) (gmap string bool)) : State :=
  {| activeTickets := loadActiveTickets other_formats date_of_data f;
     ticketsLoaded := false; file := f; channels := chans;
     permissionOverwrites := ow; pendingDelete := [] |}.

(** ** Properties kept by the handlers

    [J] relates registry and file; [holds J s] says so of a state;
    [keeps J m]: whatever [m] does, returning or throwing, [holds J]
    stays. *)
Definition holds (J : registry → disk → Prop) (s : State) : Prop :=
  J (activeTickets s) (file s).

Definition keeps (J : registry → disk → Prop) {A} (m : M A) : Prop :=
  ∀ s o, holds J s → holds J (m s o).1.2.

(** Events that may store a new record do so under an allowed key. *)
Definition event_ok (may_insert : string → Prop) (env : Env) (ev : Event)
    : Prop :=
  match ev with
  | Button _ _ _ | ModalSubmit _ _ _ | CreateResumed _ _ _ =>
      ∀ id, created_channel env = Some id → may_insert id
  | RegisterTicket _ c oc _ _ => may_insert (default c oc)
  | _ => True
  end.

(** The four ticket-management buttons and the three that need staff. *)
Definition management (customId : string) : Prop :=
  customId = "ticket_close" ∨ customId = "ticket_delete"
  ∨ customId = "ticket_reopen" ∨ customId = "ticket_transcript".

Definition sensitive (customId : string) : Prop :=
  customId = "ticket_close" ∨ customId = "ticket_delete"
  ∨ customId = "ticket_reopen".

(** The record written by a confirmed close and by a reopen. *)
Definition closed_by (r : record) (user : string) (t : Z) : record :=
  <["closedBy" := VStr user]>
    (<["closedAt" := VDate (Some t)]> (<["closed" := VBool true]> r)).

Definition reopened_by (r : record) (user : string) (t : Z) : record :=
  <["reopenedBy" := VStr user]>
    (<["reopenedAt" := VDate (Some t)]> (<["closed" := VBool false]> r)).

(** Neither the registry nor the file has an entry for [c]. *)
Definition absent (c : string) (tickets : registry) (f : disk) : Prop :=
  tickets !! c = None ∧ persisted f c = None.

(** No event of the trace stores a new record under [c]: no channel is
    created with that handle, and [/register-ticket] is not run on it. *)
Definition not_attached (c : string) (trace : list (Env * Event)) : Prop :=
  Forall (λ '(env, ev),
            match ev with
            | Button _ _ _ | ModalSubmit _ _ _ | CreateResumed _ _ _ =>
                created_channel env ≠ Some c
            | RegisterTicket _ c' oc _ _ => default c' oc ≠ c
            | _ => True
            end) trace.

(** ** Timestamps *)

(** The instant a timestamp field denotes, if any. *)
Definition instant (v : jsval) : option Z :=
  match v with
  | VDate t => t
  | _ => None
  end.

(** What a timestamp field of a record holds: nothing (a missing or
    falsy value), or a date whose time value, when valid, is within
    the range of the host. *)
Definition timestamp (v : jsval) : Prop :=
  match v with
  | VPrim p => truthy_prim p = false
  | VDate None => True
  | VDate (Some t) => Z.abs t <= JSDate.maxTime
  | VData _ => False
  end.

Definition timestamp_field (f : string) : Prop :=
  f = "createdAt" ∨ f = "closedAt" ∨ f = "reopenedAt".

(** ** Keyed by channel *)

(** Every record of the registry carries the key it is stored under. *)
Definition channel_keyed (tickets : registry) : Prop :=
  ∀ key value, tickets !! key = Some value →
               value !! "channelId" = Some (VStr key).

(** An entry of the file carries its key, or no usable [channelId]. *)
Definition file_keyed (f : disk) : Prop :=
  ∀ key value, persisted f key = Some value →
               value !! "channelId" = Some (JStr key)
               ∨ truthy (field (of_json <$> value) "channelId") = false.

Definition keyed (tickets : registry) (f : disk) : Prop :=
  channel_keyed tickets ∧ file_keyed f.

Definition carries_key (c : string) (r : record) : Prop :=
  r !! "channelId" = Some (VStr c).

End Tickets.

(* ===================================================================== *)
(** * The save queue on the run loop                                      *)
(* ===================================================================== *)

(** [saveActiveTickets] and [processNextSave] run on one cooperative
    thread. A run is a sequence of events: a caller invokes
    [saveActiveTickets]; a [writeFile] started earlier finishes; a
    [setTimeout(processNextSave, 10)] armed earlier fires. Between two
    events the synchronous part of the code runs to its next suspension
    point. *)

Module SaveQueue.

Section Queue.

Context {Snapshot Content : Type}.

(** [JSON.stringify] of the object built from the snapshot; [None] when
    it throws. *)
Variable stringify : Snapshot → option Content.

(** A queued entry [{ tickets, resolve, reject }]; [promise] names the
    promise that [resolve] and [reject] settle. *)
Record Request := {
  promise : nat;
  tickets : Snapshot
}.

(** What has happened so far, oldest first. *)
Inductive Action :=
| Enqueued (r : Request)
| Dequeued (p : nat)
| WriteStarted (p : nat) (data : Content)
| WriteFinished (p : nat) (ok : bool)
| Resolved (p : nat)
| Rejected (p : nat).

Record State := {
  saveQueue : list Request;
  isSaving : bool;
  (** [writeFile] calls that have started and not yet finished *)
  writing : list (nat * Content);
  (** armed [setTimeout(processNextSave, 10)] callbacks *)
  timers : nat;
  (** content of the file, [None] when absent or unusable *)
  file : option Content;
  nextPromise : nat;
  history : list Action
}.

Definition init (f : option Content) : State :=
  {| saveQueue := []; isSaving := false; writing := []; timers := 0;
     file := f; nextPromise := 0; history := [] |}.

(** [processNextSave] up to its [await] (or to its end when the queue is
    empty or serialization throws). *)
Definition processNextSave (s : State) : State :=
  match saveQueue s with
  | [] =>
      {| saveQueue := []; isSaving := false; writing := writing s;
         timers := timers s; file := file s; nextPromise := nextPromise s;
         history := history s |}
  | r :: rest =>
      match stringify (tickets r) with
      | Some data =>
          {| saveQueue := rest; isSaving := true;
             writing := writing s ++ [(promise r, data)];
             timers := timers s; file := file s;
             nextPromise := nextPromise s;
             history := history s ++ [Dequeued (promise r);
                                      WriteStarted (promise r) data] |}
      | None =>
          {| saveQueue := rest; isSaving := true; writing := writing s;
             timers := S (timers s); file := file s;
             nextPromise := nextPromise s;
             history := history s ++ [Dequeued (promise r);
                                      Rejected (promise r)] |}
      end
  end.

(** [saveActiveTickets(tickets)]: the promise executor runs at once. *)
Definition saveActiveTickets (snapshot : Snapshot) (s : State) : State :=
  let r := {| promise := nextPromise s; tickets := snapshot |} in
  let s' :=
    {| saveQueue := saveQueue s ++ [r]; isSaving := isSaving s;
       writing := writing s; timers := timers s; file := file s;
       nextPromise := S (nextPromise s);
       history := history s ++ [Enqueued r] |} in
  if isSaving s' then s' else processNextSave s'.

Fixpoint remove_write (p : nat) (w : list (nat * Content))
    : option (Content * list (nat * Content)) :=
  match w with
  | [] => None
  | (q, data) :: w' =>
      if Nat.eqb p q then Some (data, w')
      else '(d, rest) ← remove_write p w'; Some (d, (q, data) :: rest)
  end.

(** The continuation of [processNextSave] after its [await]: [resolve]
    on success, [reject] in the [catch], the timer in the [finally]. A
    failed write leaves the file as it was ([torn = false]) or unusable. *)
Definition writeDone (p : nat) (ok torn : bool) (s : State) : option State :=
  '(data, rest) ← remove_write p (writing s);
  Some (if ok then
          {| saveQueue := saveQueue s; isSaving := isSaving s;
             writing := rest; timers := S (timers s);
             file := Some data; nextPromise := nextPromise s;
             history := history s ++ [WriteFinished p true; Resolved p] |}
        else
          {| saveQueue := saveQueue s; isSaving := isSaving s;
             writing := rest; timers := S (timers s);
             file := if torn then None else file s;
             nextPromise := nextPromise s;
             history := history s ++ [WriteFinished p false; Rejected p] |}).

Definition timerFired (s : State) : option State :=
  match timers s with
  | O => None
  | S n =>
      Some (processNextSave
              {| saveQueue := saveQueue s; isSaving := isSaving s;
                 writing := writing s; timers := n; file := file s;
                 nextPromise := nextPromise s; history := history s |})
  end.

Inductive Event :=
| Save (snapshot : Snapshot)
| WriteDone (p : nat) (ok torn : bool)
| Timer.

(** [None]: the event cannot happen in this state. *)
Definition step (e : Event) (s : State) : option State :=
  match e with
  | Save snapshot => Some (saveActiveTickets snapshot s)
  | WriteDone p ok torn => writeDone p ok torn s
  | Timer => timerFired s
  end.

Fixpoint exec (trace : list Event) (s : State) : option State :=
  match trace with
  | [] => Some s
  | e :: trace' => s' ← step e s; exec trace' s'
  end.

Definition reachable (f : option Content) (s : State) : Prop :=
  ∃ trace, exec trace (init f) = Some s.

(** ** Reading the history *)

Definition enqueued (h : list Action) : list Request :=
  flat_map (λ a, match a with Enqueued r => [r] | _ => [] end) h.

Definition dequeued (h : list Action) : list nat :=
  flat_map (λ a, match a with Dequeued p => [p] | _ => [] end) h.

Definition settled (h : list Action) : list nat :=
  flat_map (λ a, match a with Resolved p | Rejected p => [p] | _ => [] end) h.

Definition resolved (h : list Action) : list nat :=
  flat_map (λ a, match a with Resolved p => [p] | _ => [] end) h.

(** Scans the writes of a history: [open] is the write in progress.
    [false] as soon as a write starts while another is in progress, or
    one finishes that is not the one in progress. *)
Fixpoint serial_from (open : option nat) (h : list Action) : bool :=
  match h with
  | [] => true
  | WriteStarted p _ :: h' =>
      match open with
      | None => serial_from (Some p) h'
      | Some _ => false
      end
  | WriteFinished p _ :: h' =>
      match open with
      | Some q => Nat.eqb p q && serial_from None h'
      | None => false
      end
  | _ :: h' => serial_from open h'
  end.

Definition serial (h : list Action) : bool := serial_from None h.

(** The write in progress at the end of a history. *)
Fixpoint open_after (open : option nat) (h : list Action) : option nat :=
  match h with
  | [] => open
  | WriteStarted p _ :: h' => open_after (Some p) h'
  | WriteFinished _ _ :: h' => open_after None h'
  | _ :: h' => open_after open h'
  end.

(** [Resolved p] comes only after [WriteFinished p true]. *)
Fixpoint resolved_after_write (seen : list nat) (h : list Action) : bool :=
  match h with
  | [] => true
  | WriteFinished p true :: h' => resolved_after_write (p :: seen) h'
  | Resolved p :: h' =>
      bool_decide (p ∈ seen) && resolved_after_write seen h'
  | _ :: h' => resolved_after_write seen h'
  end.

(** The events of [n] saves issued back to back, each write then
    succeeding and each timer firing. *)
Definition drain_events (first n : nat) : list Event :=
  flat_map (λ p, [WriteDone p true false; Timer]) (seq first n).

(** The writes that have finished well in a history. *)
Definition written (h : list Action) : list nat :=
  flat_map (λ a, match a with WriteFinished p true => [p] | _ => [] end) h.

(** The requests of snapshots [l] enqueued in a row from promise [p]. *)
Fixpoint requests (p : nat) (l : list Snapshot) : list Request :=
  match l with
  | [] => []
  | x :: l' => {| promise := p; tickets := x |} :: requests (S p) l'
  end.

(** ** The invariant of the run loop

    [core] relates the queue, the write in progress and the file to the
    history; [inv] adds how [isSaving] follows the write and the timer. *)
Record core (s : State) : Prop := {
  core_fifo : ∃ D, enqueued (history s) = D ++ saveQueue s
                   ∧ map promise D = dequeued (history s);
  core_ids : map promise (enqueued (history s)) = seq 0 (nextPromise s);
  core_deq : dequeued (history s)
             = settled (history s) ++ map fst (writing s);
  core_serial : serial (history s) = true;
  core_open : open_after None (history s) = head (map fst (writing s));
  core_raw : resolved_after_write [] (history s) = true;
  core_writing : ∀ p d, (p, d) ∈ writing s →
      ∃ r, r ∈ enqueued (history s) ∧ promise r = p
           ∧ stringify (tickets r) = Some d;
  core_file : ∀ ps p, settled (history s) = ps ++ [p] →
      p ∈ resolved (history s) →
      ∃ r, r ∈ enqueued (history s) ∧ promise r = p
           ∧ is_Some (file s) ∧ file s = stringify (tickets r)
}.

Record inv (s : State) : Prop := {
  inv_core : core s;
  inv_flag : (length (writing s) + timers s)%nat
             = if isSaving s then 1%nat else 0%nat;
  inv_idle : isSaving s = false → saveQueue s = []
}.

End Queue.

End SaveQueue.

(* ===================================================================== *)
(** * Channel names and printed dates                                     *)
(* ===================================================================== *)

Module Display.

(** ** [sanitizeChannelName]

    Names are taken in the ASCII range (the ticket types, the counter
    and the user names the platform hands out today); a character is
    its code. *)

Definition lower (c : ascii) : ascii :=
  let n := nat_of_ascii c in
  if (65 <=? n)%nat && (n <=? 90)%nat then ascii_of_nat (n + 32) else c.

(** [name.toLowerCase()] *)
Fixpoint toLowerCase (s : string) : string :=
  match s with
  | EmptyString => EmptyString
  | String c rest => String (lower c) (toLowerCase rest)
  end.

(** The classes [\w], [\s] and the dash of the three patterns. *)
Definition is_word (c : ascii) : bool :=
  let n := nat_of_ascii c in
  ((48 <=? n) && (n <=? 57) || (65 <=? n) && (n <=? 90)
   || (97 <=? n) && (n <=? 122) || (n =? 95))%nat.

Definition is_space (c : ascii) : bool :=
  let n := nat_of_ascii c in
  ((9 <=? n) && (n <=? 13) || (n =? 32))%nat.

Definition is_dash (c : ascii) : bool := Ascii.eqb c "-".

(** [s.replace(/[^...]/g, '')] for a class given by [keep]. *)
Fixpoint remove_others (keep : ascii → bool) (s : string) : string :=
  match s with
  | EmptyString => EmptyString
  | String c rest =>
      if keep c then String c (remove_others keep rest)
      else remove_others keep rest
  end.

(** [s.replace(/x+/g, '-')] for a class [x]: every maximal run becomes
    one dash; [in_run] says the character before was of the class. *)
Fixpoint replace_runs (x : ascii → bool) (in_run : bool) (s : string) : string :=
  match s with
  | EmptyString => EmptyString
  | String c rest =>
      if x c then
        if in_run then replace_runs x true rest
        else String "-" (replace_runs x true rest)
      else String c (replace_runs x false rest)
  end.

Definition sanitizeChannelName (name : string) : string :=
  String.substring 0 90
    (replace_runs is_dash false
       (replace_runs is_space false
          (remove_others (λ c, is_word c || is_space c || is_dash c)
             (toLowerCase name)))).

(** The channel name both creation paths ask for; [openOfType] is
    [userTicketsOfType.length]. *)
Definition ticketName (ticketType username : string) (openOfType : nat) : string :=
  if (0 <? openOfType)%nat
  then sanitizeChannelName
         (ticketType +:+ "-" +:+ username +:+ "-" +:+
          Tickets.string_of_Z (Z.of_nat openOfType + 1))
  else sanitizeChannelName (ticketType +:+ "-" +:+ username).

(** ** [formatDateUTC] *)

(** [String(n)] for what a [getUTC...] call returns: an integer, or
    [NaN] on an invalid date. *)
Definition String_of (n : option Z) : string :=
  match n with
  | Some n => Tickets.string_of_Z n
  | None => "NaN"
  end.

(** [s.padStart(k, c)] for a one-character [c]. *)
Definition padStart (k : nat) (c : ascii) (s : string) : string :=
  string_of_list_ascii (repeat c (k - String.length s)) +:+ s.

(** [date] is the time value of the [Date] ([None]: invalid). *)
Definition formatDateUTC (date : option Z) : string :=
  let year := String_of (JSDate.YearFromTime <$> date) in
  let month := padStart 2 "0" (String_of ((λ t, JSDate.MonthFromTime t + 1) <$> date)) in
  let day := padStart 2 "0" (String_of (JSDate.DateFromTime <$> date)) in
  let hours := padStart 2 "0" (String_of (JSDate.HourFromTime <$> date)) in
  let minutes := padStart 2 "0" (String_of (JSDate.MinFromTime <$> date)) in
  let seconds := padStart 2 "0" (String_of (JSDate.SecFromTime <$> date)) in
  year +:+ "-" +:+ month +:+ "-" +:+ day +:+ " " +:+
  hours +:+ ":" +:+ minutes +:+ ":" +:+ seconds.

(** The date and the time of day as [toISOString] prints them, and
    the start of the second an instant lies in. *)
Definition iso_date (t : Z) : string :=
  JSDate.pad_digits 4 (JSDate.YearFromTime t) +:+ "-" +:+
  JSDate.pad_digits 2 (JSDate.MonthFromTime t + 1) +:+ "-" +:+
  JSDate.pad_digits 2 (JSDate.DateFromTime t).

Definition iso_time (t : Z) : string :=
  JSDate.pad_digits 2 (JSDate.HourFromTime t) +:+ ":" +:+
  JSDate.pad_digits 2 (JSDate.MinFromTime t) +:+ ":" +:+
  JSDate.pad_digits 2 (JSDate.SecFromTime t).

Definition second_start (t : Z) : Z := 1000 * (t / 1000).

(** ** Shape of a channel name *)

Fixpoint all_chars (p : ascii → bool) (s : string) : bool :=
  match s with
  | EmptyString => true
  | String c rest => p c && all_chars p rest
  end.

Fixpoint has_char (p : ascii → bool) (s : string) : bool :=
  match s with
  | EmptyString => false
  | String c rest => p c || has_char p rest
  end.

(** A lower-case letter, a digit, an underscore or a dash. *)
Definition name_char (c : ascii) : bool :=
  let n := nat_of_ascii c in
  ((48 <=? n) && (n <=? 57) || (97 <=? n) && (n <=? 122)
   || (n =? 95) || (n =? 45))%nat.

(** No dash is followed by a dash. *)
Fixpoint single_dashes (s : string) : bool :=
  match s with
  | EmptyString => true
  | String c rest =>
      negb (is_dash c && match rest with
                         | String c' _ => is_dash c'
                         | EmptyString => false
                         end)
      && single_dashes rest
  end.

End Display.

(* ===================================================================== *)
(** * The class [CircularQueue]                                           *)
(* ===================================================================== *)

Module CircularQueue.

(** An [int] is its value in [Z]; [int n] is [n] wrapped to 32 bits,
    and [%] is the remainder of the truncated division. *)
Definition int (n : Z) : Z := (n + 2147483648) mod 4294967296 - 2147483648.

Definition max : Z := 5.

(** The fields of an object of the class. *)
Record Queue := {
  arr : list Z;
  F : Z;
  R : Z
}.

(** [new CircularQueue()] *)
Definition new : Queue := {| arr := replicate 5 0; F := -1; R := -1 |}.

(** A call returns with the object as it left it and the lines it has
    printed, or is ended by an [ArrayIndexOutOfBoundsException]. *)
Inductive outcome :=
| Returned (q : Queue) (printed : list string)
| OutOfBounds (q : Queue).

(** [(i + 1) % max] *)
Definition succ_index (i : Z) : Z := Z.rem (int (i + 1)) max.

(** [a[i]] and [a[i] = x] *)
Definition load (a : list Z) (i : Z) : option Z :=
  if i <? 0 then None else a !! Z.to_nat i.

Definition store (a : list Z) (i : Z) (x : Z) : option (list Z) :=
  if (0 <=? i) && (i <? Z.of_nat (length a))
  then Some (<[Z.to_nat i := x]> a) else None.

Definition enqueue (data : Z) (q : Queue) : outcome :=
  if succ_index (R q) =? F q then Returned q ["Queue Overflow!"]
  else
    let q1 :=
      if F q =? -1 then {| arr := arr q; F := 0; R := 0 |}
      else {| arr := arr q; F := F q; R := succ_index (R q) |} in
    match store (arr q1) (R q1) data with
    | Some a =>
        Returned {| arr := a; F := F q1; R := R q1 |}
                 ["Inserted: " +:+ Tickets.string_of_Z data]
    | None => OutOfBounds q1
    end.

Definition dequeue (q : Queue) : outcome :=
  if F q =? -1 then Returned q ["Queue Underflow!"]
  else
    match load (arr q) (F q) with
    | Some deleted =>
        let q1 :=
          if F q =? R q then {| arr := arr q; F := -1; R := -1 |}
          else {| arr := arr q; F := succ_index (F q); R := R q |} in
        Returned q1 ["Deleted: " +:+ Tickets.string_of_Z deleted]
    | None => OutOfBounds q
    end.

(** The loop of [display] from index [i], [line] being what has been
    printed on the current line; [None]: more than [fuel] rounds. *)
Fixpoint display_loop (fuel : nat) (q : Queue) (i : Z) (line : string)
    : option outcome :=
  match fuel with
  | O => None
  | S fuel' =>
      match load (arr q) i with
      | Some x =>
          let line := line +:+ Tickets.string_of_Z x +:+ " " in
          if i =? R q then Some (Returned q [line])
          else display_loop fuel' q (succ_index i) line
      | None => Some (OutOfBounds q)
      end
  end.

Definition display (fuel : nat) (q : Queue) : option outcome :=
  if F q =? -1 then Some (Returned q ["Queue is Empty!"])
  else display_loop fuel q (F q) "Queue Elements: ".

(** ** Calls in a row *)

Inductive Call :=
| Enqueue (data : Z)
| Dequeue
| Display.

Definition call (fuel : nat) (c : Call) (q : Queue) : option outcome :=
  match c with
  | Enqueue data => Some (enqueue data q)
  | Dequeue => Some (dequeue q)
  | Display => display fuel q
  end.

(** The calls of [calls] one after the other; the lines printed are
    gathered. *)
Fixpoint calls_from (fuel : nat) (calls : list Call) (q : Queue)
    : option outcome :=
  match calls with
  | [] => Some (Returned q [])
  | c :: rest =>
      match call fuel c q with
      | Some (Returned q1 printed) =>
          match calls_from fuel rest q1 with
          | Some (Returned q2 printed') => Some (Returned q2 (printed ++ printed'))
          | other => other
          end
      | other => other
      end
  end.

(** ** A queue as the list of its elements, oldest first *)

(** What [display] walks over. *)
Definition contents (q : Queue) : list Z :=
  if F q =? -1 then []
  else map (λ k, default 0 (arr q !! Z.to_nat ((F q + Z.of_nat k) mod max)))
           (seq 0 (Z.to_nat ((R q - F q) mod max + 1))).

(** The same calls on a list that holds at most five elements. *)
Definition on_list (c : Call) (l : list Z) : list Z * list string :=
  match c with
  | Enqueue data =>
      if (length l <? 5)%nat
      then (l ++ [data], ["Inserted: " +:+ Tickets.string_of_Z data])
      else (l, ["Queue Overflow!"])
  | Dequeue =>
      match l with
      | [] => (l, ["Queue Underflow!"])
      | x :: rest => (rest, ["Deleted: " +:+ Tickets.string_of_Z x])
      end
  | Display =>
      match l with
      | [] => (l, ["Queue is Empty!"])
      | _ => (l, [foldl (λ line x, line +:+ Tickets.string_of_Z x +:+ " ")
                        "Queue Elements: " l])
      end
  end.

Fixpoint all_on_list (calls : list Call) (l : list Z) : list Z * list string :=
  match calls with
  | [] => (l, [])
  | c :: rest =>
      let '(l1, printed) := on_list c l in
      let '(l2, printed') := all_on_list rest l1 in
      (l2, printed ++ printed')
  end.

(** The fields are as the methods leave them. *)
Definition well_formed (q : Queue) : Prop :=
  length (arr q) = 5%nat
  ∧ (F q = -1 ∧ R q = -1 ∨ 0 <= F q < 5 ∧ 0 <= R q < 5).

(** The calls of [main]. *)
Definition main : list Call :=
  [Enqueue 10; Enqueue 20; Enqueue 30; Enqueue 40; Enqueue 50; Display;
   Dequeue; Dequeue; Display; Enqueue 60; Enqueue 70; Display].

End CircularQueue.

(* ===================================================================== *)
(** * The classes [InsertionSort] and [BinarySearch]                      *)
(* ===================================================================== *)

(** An [int[]] is the list of its elements; an [int] is its value in
    [Z], and [int n] is [n] wrapped to 32 bits. A loop is run for at
    most [fuel] rounds. *)
Module Java.

Definition int (n : Z) : Z := (n + 2147483648) mod 4294967296 - 2147483648.

Inductive outcome (A : Type) :=
| Returned (a : A)
| ArrayIndexOutOfBounds
| OutOfFuel.

Arguments Returned {A} a.
Arguments ArrayIndexOutOfBounds {A}.
Arguments OutOfFuel {A}.

(** [a[i]] and [a[i] = x] *)
Definition load (a : list Z) (i : Z) : option Z :=
  if i <? 0 then None else a !! Z.to_nat i.

Definition store (a : list Z) (i : Z) (x : Z) : option (list Z) :=
  if (0 <=? i) && (i <? Z.of_nat (length a))
  then Some (<[Z.to_nat i := x]> a) else None.

End Java.

Module InsertionSort.
Import Java.

(** [while (j >= 0 && arr[j] > key) { arr[j + 1] = arr[j]; j--; }]:
    the array and [j] when the loop is left. *)
Fixpoint shift (fuel : nat) (arr : list Z) (j key : Z) : outcome (list Z * Z) :=
  match fuel with
  | O => OutOfFuel
  | S fuel' =>
      if 0 <=? j then
        match load arr j with
        | Some x =>
            if x >? key then
              match store arr (int (j + 1)) x with
              | Some arr' => shift fuel' arr' (int (j - 1)) key
              | None => ArrayIndexOutOfBounds
              end
            else Returned (arr, j)
        | None => ArrayIndexOutOfBounds
        end
      else Returned (arr, j)
  end.

(** The [for] loop from index [i] on. *)
Fixpoint sort_from (fuel : nat) (arr : list Z) (i : Z) : outcome (list Z) :=
  match fuel with
  | O => OutOfFuel
  | S fuel' =>
      if i <? Z.of_nat (length arr) then
        match load arr i with
        | Some key =>
            match shift (S (length arr)) arr (int (i - 1)) key with
            | Returned (arr1, j) =>
                match store arr1 (int (j + 1)) key with
                | Some arr2 => sort_from fuel' arr2 (int (i + 1))
                | None => ArrayIndexOutOfBounds
                end
            | ArrayIndexOutOfBounds => ArrayIndexOutOfBounds
            | OutOfFuel => OutOfFuel
            end
        | None => ArrayIndexOutOfBounds
        end
      else Returned arr
  end.

(** The array as [insertionSort(arr)] leaves it. *)
Definition insertionSort (arr : list Z) : outcome (list Z) :=
  sort_from (S (length arr)) arr 1.

End InsertionSort.

Module BinarySearch.
Import Java.

(** The [while] loop; [/] on [int] truncates. *)
Fixpoint search (fuel : nat) (arr : list Z) (key low high : Z) : outcome Z :=
  match fuel with
  | O => OutOfFuel
  | S fuel' =>
      if low <=? high then
        let mid := Z.quot (int (low + high)) 2 in
        match load arr mid with
        | Some x =>
            if x =? key then Returned mid
            else if x <? key then search fuel' arr key (int (mid + 1)) high
            else search fuel' arr key low (int (mid - 1))
        | None => ArrayIndexOutOfBounds
        end
      else Returned (-1)
  end.

Definition binarySearch (arr : list Z) (key : Z) : outcome Z :=
  search (S (length arr)) arr key 0 (int (Z.of_nat (length arr) - 1)).

End BinarySearch.

(* ===================================================================== *)
(** * Words for what runs do and do not do                                *)
(* ===================================================================== *)

Module SaveRuns.

Section Completions.
Context {Snapshot : Type}.

(** Only completions: writes finishing, each with the outcome
    [outcome] gives it (success, or failure with the file broken or
    not), and timers firing. *)
Definition completions
    (outcome : nat → bool * bool) (trace : list (@SaveQueue.Event Snapshot))
    : Prop :=
  Forall (λ e, match e with
               | SaveQueue.Save _ => False
               | SaveQueue.WriteDone p ok torn => outcome p = (ok, torn)
               | SaveQueue.Timer => True
               end) trace.

End Completions.

End SaveRuns.

Module Conduct.
Import Tickets.

(** ** Reading only *)

(** Whatever [m] does, returning or throwing, the state it leaves is
    the one it found, up to the load on first use. *)
Definition quiet
    (other_formats : string → option Z) (date_of_data : json → option Z)
    {A} (m : M A) : Prop :=
  ∀ s o, (m s o).1.2 = s ∨ (m s o).1.2 = loaded other_formats date_of_data s.

(** The buttons that may change the state. *)
Definition changes (customId : string) : Prop :=
  customId = "ticket_delete" ∨ customId = "ticket_reopen"
  ∨ customId = "ticket_close_confirm"
  ∨ String.prefix "ticket_create_" customId = true.

(** The events that only read. *)
Definition reads_only (ev : Event) : Prop :=
  match ev with
  | Button customId _ _ => ¬ changes customId
  | SelectMenu _ _ _ | DebugTickets _ _ | UnknownCommand => True
  | _ => False
  end.

(** ** A property of every record *)

Definition every (good : record → Prop) (tickets : registry) : Prop :=
  ∀ key value, tickets !! key = Some value → good value.

(** [m] keeps every record of the registry good. *)
Definition stays (good : record → Prop) {A} (m : M A) : Prop :=
  ∀ s o, every good (activeTickets s) →
         every good (activeTickets (m s o).1.2).

(** The three timestamps of a record are dates, or missing. *)
Definition stamped (value : record) : Prop :=
  ∀ f, timestamp_field f → timestamp (field value f).

(** The clock reads, and the host's date conversions give, time
    values within the range of [Date] only. *)
Definition clock_in_range (env : Env) : Prop :=
  Z.abs (now env) <= JSDate.maxTime.

Definition clipped {A} (f : A → option Z) : Prop :=
  ∀ x t, f x = Some t → Z.abs t <= JSDate.maxTime.

(** ** Access to a new channel *)

(** A staff role that is let into a new channel of type [ty]: it is
    configured for the type, a well-formed identifier, and a role of
    the guild. *)
Definition let_in (cfg : Config) (env : Env) (ty role : string) : Prop :=
  PStr role ∈ getTicketRoles cfg (VStr ty)
  ∧ isValidSnowflake (PStr role) = true
  ∧ role ∈ guildRoles env.

(** The overwrites [guild.channels.create] is called with, on top of
    those that exist. *)
Definition new_overwrites
    (cfg : Config) (env : Env) (id user : string) (embedLinks : bool)
    (ty : string) (ow : gmap (string * string) (gmap string bool))
    : gmap (string * string) (gmap string bool) :=
  foldl (add_role_overwrite env id)
    (<[(id, user) := requester_allow embedLinks]>
       (<[(id, guildId env) := {["ViewChannel" := false]}]> ow))
    (List.filter isValidSnowflake (getTicketRoles cfg (VStr ty))).

(** ** The record of a new ticket *)

(** What a creation stores under the handle [id] of its channel; the
    form path adds the data of the form. *)
Definition new_record
    (env : Env) (id user ty : string) (formData : option jsval) : record :=
  let plain : record :=
    <["createdAt" := VDate (Some (now env))]>
      (<["type" := VStr ty]>
         (<["userId" := VStr user]> {["channelId" := VStr id]})) in
  match formData with
  | Some fd => <["formData" := fd]> plain
  | None => plain
  end.

(** The part of [t] before its first underscore. *)
Fixpoint before_underscore (t : string) : string :=
  match t with
  | EmptyString => EmptyString
  | String c rest =>
      if Ascii.eqb c "_" then EmptyString else String c (before_underscore rest)
  end.

End Conduct.

(* ===================================================================== *)
(** * A small guild used in the examples                                  *)
(* ===================================================================== *)

Module Example.
Import Tickets.

(** One support role; the host parses no date format but the complete
    one. *)
Definition support_role : string := "111111111111111111".

Definition cfg : Config :=
  {| staffRoles_hr := RoleOne PUndef;
     staffRoles_bookings := RoleOne PUndef;
     staffRoles_support := RoleList [PStr support_role];
     staffRoles_partnership := RoleOne PUndef;
     staffRoles_founders := RoleOne PUndef;
     maxTicketsPerUser := None;
     maxTicketsPerUserPerType := None;
     logChannel := None;
     panelModules := [] |}.

Definition no_format : string → option Z := λ _, None.
Definition no_data : json → option Z := λ _, None.

(** Everything succeeds; the clock reads [t]; a created channel gets
    the handle [c]. *)
Definition env (t : Z) (c : option string) : Env :=
  {| now := t; deferReply_ok := true; permissionEdit_ok := true;
     channelSend_ok := true; transcript_ok := true;
     channelDelete_ok := true; writeFile := WriteOk;
     created_channel := c; guildId := "guild"; guildRoles := [support_role] |}.

Definition requester : Member :=
  {| userId := "alice"; isAdministrator := false; memberRoles := [] |}.

Definition staff : Member :=
  {| userId := "bob"; isAdministrator := false;
     memberRoles := [support_role] |}.

Definition step (e : Env) (ev : Event) (s : State) : State * list Output :=
  Tickets.step no_format no_data cfg e ev s.

Definition exec (trace : list (Env * Event)) (s : State) : State :=
  Tickets.exec no_format no_data cfg trace s.

(** A fresh process with no file and no channel. *)
Definition fresh : State := start no_format no_data NoFile ∅ ∅.

(** The requester has opened a support ticket; its channel is [c1]. *)
Definition opened : State :=
  exec [(env 1000 (Some "c1"),
         Button "ticket_create_support" "lobby" requester)] fresh.

(** A configuration whose support entry holds an identifier that is
    not a snowflake, twice, and an empty one. *)
Definition misconfigured : Config :=
  {| staffRoles_hr := RoleOne PUndef; staffRoles_bookings := RoleOne PUndef;
     staffRoles_support := RoleList [PStr "abc"; PStr ""; PStr "abc"];
     staffRoles_partnership := RoleOne PUndef;
     staffRoles_founders := RoleOne PUndef;
     maxTicketsPerUser := None; maxTicketsPerUserPerType := None;
     logChannel := None; panelModules := [] |}.

Definition close_c1 (t : Z) (m : Member) : Env * Event :=
  (env t None, Button "ticket_close" "c1" m).
Definition confirm_c1 (t : Z) (m : Member) : Env * Event :=
  (env t None, Button "ticket_close_confirm" "c1" m).
Definition cancel_c1 (t : Z) (m : Member) : Env * Event :=
  (env t None, Button "ticket_close_cancel" "c1" m).
Definition reopen_c1 (t : Z) (m : Member) : Env * Event :=
  (env t None, Button "ticket_reopen" "c1" m).
Definition delete_c1 (t : Z) (m : Member) : Env * Event :=
  (env t None, Button "ticket_delete" "c1" m).

(** The record of [c1] in [opened]. *)
Definition opened_record : record :=
  <["createdAt" := VDate (Some 1000)]>
    (<["type" := VStr "support"]>
       (<["userId" := VStr "alice"]> {["channelId" := VStr "c1"]})).


Definition three_open : State :=
  exec [(env 1000 (Some "c1"), Button "ticket_create_support" "lobby" requester);
        (env 1001 (Some "c2"), Button "ticket_create_support" "lobby" requester);
        (env 1002 (Some "c3"), Button "ticket_create_support" "lobby" requester)]
       fresh.


Definition a_summer_evening : Z := 1751825369123.

Definition dated_record : record :=
  <["createdAt" := VDate (Some a_summer_evening)]>
    {["channelId" := VStr "c1"]}.

Definition dated : registry := {["c1" := dated_record]}.


(** A file from before records carried [channelId]. *)
Definition legacy_file : disk :=
  Doc {["c9" := {["userId" := JStr "carol"]}]}.


(** Two saves issued back to back on an idle store; a snapshot is
    named by a string and serializes to itself. *)
Definition two_saves : list (@SaveQueue.Event string) :=
  [SaveQueue.Save "first"; SaveQueue.Save "second";
   SaveQueue.WriteDone 0 true false; SaveQueue.Timer;
   SaveQueue.WriteDone 1 true false; SaveQueue.Timer].

Definition after_two_saves : @SaveQueue.State string string :=
  default (SaveQueue.init None)
    (SaveQueue.exec Some two_saves (SaveQueue.init None)).


(** The same two saves when the second write fails and leaves the file
    as the first write left it. *)
Definition second_write_fails : list (@SaveQueue.Event string) :=
  [SaveQueue.Save "first"; SaveQueue.Save "second";
   SaveQueue.WriteDone 0 true false; SaveQueue.Timer;
   SaveQueue.WriteDone 1 false false; SaveQueue.Timer].

Definition after_failed_save : @SaveQueue.State string string :=
  default (SaveQueue.init None)
    (SaveQueue.exec Some second_write_fails (SaveQueue.init None)).

(** A map with a record under the key [__proto__], as it is read from
    a file that has such an entry. *)
Definition proto_record : record :=
  <["createdAt" := VDate (Some a_summer_evening)]>
    {["channelId" := VStr "__proto__"]}.

Definition proto_keyed : registry := {["__proto__" := proto_record]}.

End Example.
(* ===================================================================== *)
(** * Further situations used in the examples                             *)
(* ===================================================================== *)

Module Scenario.
Import Tickets Example.

(** A host that also reads a bare year, as in [new Date("1970")], and
    an array of one string as that string, as in
    [new Date(["1970"])]. *)
Definition year_only : string → option Z :=
  λ s, if String.eqb s "1970" then Some 0 else None.

Definition one_item : json → option Z :=
  λ j, match j with
       | JArr [JStr s] => year_only s
       | _ => None
       end.

(** A file edited by hand: one date is a bare year, another is no
    date. *)
Definition hand_written : disk :=
  Doc {["c1" := <["closedAt" := JStr "soon"]>
                  (<["createdAt" := JStr "1970"]>
                     {["channelId" := JStr "c1"]})]}.

(** On top of that file, a ticket is opened and closed. *)
Definition open_and_close : list (Env * Event) :=
  [(env 1000 (Some "c2"), Button "ticket_create_support" "lobby" requester);
   (env 3000 None, Button "ticket_close_confirm" "c2" requester)].

Definition closed_record : record :=
  closed_by
    (<["createdAt" := VDate (Some 1000)]>
       (<["type" := VStr "support"]>
          (<["userId" := VStr "alice"]> {["channelId" := VStr "c2"]})))
    "alice" 3000.

Definition admin : Member :=
  {| userId := "root"; isAdministrator := true; memberRoles := [] |}.

(** The post in the channel fails; everything else succeeds. *)
Definition env_no_post (t : Z) : Env :=
  {| now := t; deferReply_ok := true; permissionEdit_ok := true;
     channelSend_ok := false; transcript_ok := true;
     channelDelete_ok := true; writeFile := WriteOk;
     created_channel := None; guildId := "guild";
     guildRoles := [support_role] |}.

(** The write fails and leaves the file as it was. *)
Definition env_no_write (t : Z) : Env :=
  {| now := t; deferReply_ok := true; permissionEdit_ok := true;
     channelSend_ok := true; transcript_ok := true; channelDelete_ok := true;
     writeFile := WriteFailedUntouched;
     created_channel := None; guildId := "guild";
     guildRoles := [support_role] |}.

(** The platform refuses to delete a channel. *)
Definition env_no_delete (t : Z) : Env :=
  {| now := t; deferReply_ok := true; permissionEdit_ok := true;
     channelSend_ok := true; transcript_ok := true;
     channelDelete_ok := false; writeFile := WriteOk;
     created_channel := None; guildId := "guild";
     guildRoles := [support_role] |}.

(** The channel of the ticket has been removed by hand while the
    process was down. *)
Definition orphaned : State :=
  start no_format no_data
    (Doc (serialize {["c1" := opened_record]})) ∅ ∅.

(** The requester has two open support tickets. *)
Definition two_open : State :=
  exec [(env 1000 (Some "c1"), Button "ticket_create_support" "lobby" requester);
        (env 1001 (Some "c2"), Button "ticket_create_support" "lobby" requester)]
       fresh.

(** Two saves are waiting: the first is being written, the second is
    in the queue. *)
Definition two_pending : @SaveQueue.State string string :=
  default (SaveQueue.init None)
    (SaveQueue.exec Some [SaveQueue.Save "first"; SaveQueue.Save "second"]
       (SaveQueue.init None)).

(** Every write succeeds. *)
Definition all_fine : nat → bool * bool := λ _, (true, false).

End Scenario.
(* ===================================================================== *)
(** * Facts about the host [Date] object                                  *)
(* ===================================================================== *)

Section JSDateFacts.
Import JSDate.

Lemma DayFromYear_succ (y : Z) :
  DayFromYear (y + 1) = DayFromYear y + DaysInYear y.
Proof.
  unfold DayFromYear, DaysInYear, isLeap.
  repeat match goal with
         | |- context [?a =? ?b] => destruct (Z.eqb_spec a b); simpl
         end; Z.div_mod_to_equations; lia.
Qed.


Lemma YearFromDay_spec (d : Z) :
DayFromYear (YearFromDay d) <= d < DayFromYear (YearFromDay d + 1).
Proof.
unfold YearFromDay.
set (y0 := 1970 + d * 400 / 146097).
assert (H0 : DayFromYear (y0 - 1) <= d < DayFromYear (y0 + 2)).
{ unfold DayFromYear, y0. Z.div_mod_to_equations. lia. }
destruct (Z.ltb_spec d (DayFromYear y0)).
- replace (y0 - 1 + 1) with y0 by lia. lia.
- destruct (Z.leb_spec (DayFromYear (y0 + 1)) d).
  + replace (y0 + 1 + 1) with (y0 + 2) by lia. lia.
  + lia.
Qed.

Lemma DayWithinYear_range (t : Z) :
0 <= DayWithinYear t < 365 + InLeapYear t.
Proof.
unfold DayWithinYear, InLeapYear, YearFromTime.
pose proof (YearFromDay_spec (Day t)) as H.
rewrite DayFromYear_succ in H. unfold DaysInYear in H.
destruct (isLeap (YearFromDay (Day t))); lia.
Qed.

Lemma monthOfDay_range (leap d : Z) :
0 <= leap <= 1 -> 0 <= d < 365 + leap ->
0 <= monthOfDay leap d <= 11 /\
monthStart leap (monthOfDay leap d) <= d
  < monthStart leap (monthOfDay leap d + 1).
Proof.
intros Hl Hd. unfold monthOfDay.
repeat match goal with
       | |- context [?a <? ?b] => destruct (Z.ltb_spec a b)
       end; simpl; lia.
Qed.

Lemma InLeapYear_range (t : Z) : 0 <= InLeapYear t <= 1.
Proof. unfold InLeapYear. destruct (isLeap _); lia. Qed.

Lemma MonthFromTime_range (t : Z) : 0 <= MonthFromTime t <= 11.
Proof.
apply monthOfDay_range;
  [apply InLeapYear_range | apply DayWithinYear_range].
Qed.

Lemma DateFromTime_range (t : Z) :
1 <= DateFromTime t <= DaysInMonth (YearFromTime t) (MonthFromTime t).
Proof.
unfold DateFromTime, DaysInMonth, MonthFromTime.
pose proof (monthOfDay_range (InLeapYear t) (DayWithinYear t)
              (InLeapYear_range t) (DayWithinYear_range t)) as [_ H].
unfold InLeapYear in *. lia.
Qed.

Lemma MakeDay_from_time (t : Z) :
MakeDay (YearFromTime t) (MonthFromTime t) (DateFromTime t) = Day t.
Proof.
pose proof (MonthFromTime_range t) as Hm.
unfold MakeDay.
rewrite (Z.div_small (MonthFromTime t) 12) by lia.
rewrite (Z.mod_small (MonthFromTime t) 12) by lia.
rewrite Z.add_0_r.
unfold DateFromTime, DayWithinYear. fold (InLeapYear t). lia.
Qed.

Lemma MakeTime_from_time (t : Z) :
MakeTime (HourFromTime t) (MinFromTime t) (SecFromTime t) (msFromTime t)
= TimeWithinDay t.
Proof.
unfold MakeTime, HourFromTime, MinFromTime, SecFromTime, msFromTime,
  TimeWithinDay, msPerHour, msPerMinute, msPerSecond, msPerDay.
Z.div_mod_to_equations. lia.
Qed.

Lemma MakeDate_from_time (t : Z) : MakeDate (Day t) (TimeWithinDay t) = t.
Proof.
unfold MakeDate, Day, TimeWithinDay, msPerDay.
Z.div_mod_to_equations. lia.
Qed.

Lemma YearFromTime_bounds (t : Z) :
Z.abs t <= maxTime -> -271821 <= YearFromTime t <= 275760.
Proof.
intros Ht. unfold YearFromTime.
pose proof (YearFromDay_spec (Day t)) as H.
assert (Hd : -100000000 <= Day t <= 100000000).
{ unfold Day, msPerDay, maxTime in *. Z.div_mod_to_equations. lia. }
revert H. generalize (YearFromDay (Day t)). intros y.
unfold DayFromYear. Z.div_mod_to_equations. lia.
Qed.
Lemma str_app_cons (c : ascii) (s r : string) :
String c s +:+ r = String c (s +:+ r).
Proof. reflexivity. Qed.

Lemma str_app_nil_l (r : string) : "" +:+ r = r.
Proof. reflexivity. Qed.

Lemma str_app_assoc (a b c : string) : (a +:+ b) +:+ c = a +:+ (b +:+ c).
Proof.
induction a as [|x a IH]; [reflexivity|].
rewrite !str_app_cons. by rewrite IH.
Qed.

Lemma digit_val_char (d : Z) : 0 <= d <= 9 -> digit_val (digit_char d) = Some d.
Proof.
intros H.
assert (Hd : d = 0 \/ d = 1 \/ d = 2 \/ d = 3 \/ d = 4 \/ d = 5 \/ d = 6
             \/ d = 7 \/ d = 8 \/ d = 9) by lia.
repeat destruct Hd as [-> | Hd]; try subst d; reflexivity.
Qed.
Lemma read_digits_snoc (k : nat) (acc : Z) (s : string) :
read_digits (S k) acc s =
'(a, s') ← read_digits k acc s;
match s' with
| String c r => d ← digit_val c; Some (10 * a + d, r)
| EmptyString => None
end.
Proof.
revert acc s. induction k as [|k IH]; intros acc s.
- simpl. destruct s as [|c r]; [done|]. by destruct (digit_val c).
- change (read_digits (S (S k)) acc s) with
    (match s with
     | String c rest =>
         match digit_val c with
         | Some d => read_digits (S k) (10 * acc + d) rest
         | None => None
         end
     | EmptyString => None
     end).
  destruct s as [|c rest]; [done|].
  destruct (digit_val c) as [d|] eqn:Hc; simpl; rewrite Hc; [|done].
  apply IH.
Qed.

Lemma read_pad_digits (k : nat) (n acc : Z) (rest : string) :
0 <= n < 10 ^ Z.of_nat k ->
read_digits k acc (pad_digits k n +:+ rest)
= Some (acc * 10 ^ Z.of_nat k + n, rest).
Proof.
revert n acc rest. induction k as [|k IH]; intros n acc rest Hn.
- change (10 ^ Z.of_nat 0) with 1 in *.
  change (pad_digits 0 n) with EmptyString. rewrite str_app_nil_l.
  unfold read_digits. do 2 f_equal. lia.
- rewrite read_digits_snoc.
  change (pad_digits (S k) n) with
    (pad_digits k (n / 10) +:+ String (digit_char (n mod 10)) EmptyString).
  rewrite str_app_assoc, str_app_cons, str_app_nil_l.
  assert (Hp : 10 ^ Z.of_nat (S k) = 10 * 10 ^ Z.of_nat k).
  { rewrite Nat2Z.inj_succ, Z.pow_succ_r by lia. done. }
  rewrite Hp in *.
  assert (Hpos : 0 < 10 ^ Z.of_nat k) by (apply Z.pow_pos_nonneg; lia).
  revert Hn Hpos IH. generalize (10 ^ Z.of_nat k). intros P Hn Hpos IH.
  rewrite IH by (Z.div_mod_to_equations; lia).
  unfold mbind, option_bind.
  rewrite digit_val_char by (Z.div_mod_to_equations; lia).
  do 2 f_equal. Z.div_mod_to_equations. lia.
Qed.

Lemma read_year_digits (s : string) (r : Z * string) :
read_digits 4 0 s = Some r -> read_year s = Some r.
Proof.
intros H. destruct s as [|c s]; [discriminate|].
unfold read_year.
change (read_digits 4 0 (String c s)) with
  (match digit_val c with
   | Some d => read_digits 3 (10 * 0 + d) s
   | None => None
   end) in H.
assert (Hd : is_Some (digit_val c)) by (destruct (digit_val c); done).
destruct (Ascii.eqb_spec c "+") as [->|_]; [by destruct Hd|].
destruct (Ascii.eqb_spec c "-") as [->|_]; [by destruct Hd|].
exact H.
Qed.

Lemma read_year_string (y : Z) (rest : string) :
-999999 <= y <= 999999 ->
read_year (year_string y +:+ rest) = Some (y, rest).
Proof.
intros Hy. unfold year_string.
destruct (Z.leb_spec 0 y); destruct (Z.leb_spec y 9999);
  destruct (Z.ltb_spec y 0); cbv [andb]; try lia.
- apply read_year_digits.
  rewrite read_pad_digits by (change (10 ^ Z.of_nat 4) with 10000; lia).
  do 2 f_equal.
- rewrite str_app_cons. unfold read_year.
  change (Ascii.eqb "+" "+") with true. cbv iota.
  rewrite read_pad_digits by (change (10 ^ Z.of_nat 6) with 1000000; lia).
  do 2 f_equal.
- rewrite str_app_cons. unfold read_year.
  change (Ascii.eqb "-" "+") with false.
  change (Ascii.eqb "-" "-") with true. cbv iota.
  rewrite read_pad_digits by (change (10 ^ Z.of_nat 6) with 1000000; lia).
  unfold mbind, option_bind. cbv beta iota.
  destruct (Z.eqb_spec (0 * 10 ^ Z.of_nat 6 + - y) 0); [lia|].
  do 2 f_equal. lia.
Qed.

Lemma time_fields_range (t : Z) :
0 <= HourFromTime t <= 23 /\ 0 <= MinFromTime t <= 59 /\
0 <= SecFromTime t <= 59 /\ 0 <= msFromTime t <= 999.
Proof.
unfold HourFromTime, MinFromTime, SecFromTime, msFromTime, msPerSecond.
repeat split; Z.div_mod_to_equations; lia.
Qed.

Lemma DaysInMonth_le (y m : Z) : 0 <= m <= 11 -> DaysInMonth y m <= 31.
Proof.
intros Hm. unfold DaysInMonth.
assert (Hc : m = 0 \/ m = 1 \/ m = 2 \/ m = 3 \/ m = 4 \/ m = 5 \/ m = 6
             \/ m = 7 \/ m = 8 \/ m = 9 \/ m = 10 \/ m = 11) by lia.
repeat destruct Hc as [-> | Hc]; try subst m;
  destruct (isLeap y); simpl; lia.
Qed.

Lemma read_fields_toISOString (t : Z) :
Z.abs t <= maxTime ->
read_fields (toISOString t)
= Some {| f_year := YearFromTime t; f_month := MonthFromTime t + 1;
          f_day := DateFromTime t; f_hour := HourFromTime t;
          f_min := MinFromTime t; f_sec := SecFromTime t;
          f_ms := msFromTime t |}.
Proof.
intros Ht.
pose proof (YearFromTime_bounds t Ht) as Hy.
pose proof (MonthFromTime_range t) as Hm.
pose proof (DateFromTime_range t) as Hd.
pose proof (DaysInMonth_le (YearFromTime t) _ Hm) as Hd'.
pose proof (time_fields_range t) as (Hh & Hmi & Hs & Hms).
unfold read_fields, toISOString.
rewrite read_year_string by lia.
unfold mbind, option_bind. cbv beta iota.
repeat first
  [ rewrite read_pad_digits
      by (first [change (10 ^ Z.of_nat 2) with 100
                | change (10 ^ Z.of_nat 3) with 1000]; lia)
  | rewrite str_app_cons, str_app_nil_l; unfold expect;
    rewrite Ascii.eqb_refl
  | progress cbv beta iota ].
reflexivity.
Qed.

Theorem parse_toISOString (other : string -> option Z) (t : Z) :
Z.abs t <= maxTime -> parse other (toISOString t) = Some t.
Proof.
intros Ht. unfold parse. rewrite read_fields_toISOString by done.
pose proof (MonthFromTime_range t) as Hm.
pose proof (DateFromTime_range t) as Hd.
pose proof (time_fields_range t) as (Hh & Hmi & Hs & Hms).
unfold fields_in_range, time_of_fields.
cbv [f_year f_month f_day f_hour f_min f_sec f_ms].
replace (MonthFromTime t + 1 - 1) with (MonthFromTime t) by lia.
repeat match goal with
       | |- context [?a <=? ?b] =>
           destruct (Z.leb_spec a b); [|lia]
       end.
cbv [andb].
rewrite MakeDay_from_time, MakeTime_from_time, MakeDate_from_time.
unfold TimeClip. destruct (Z.leb_spec (Z.abs t) maxTime); [done | lia].
Qed.

End JSDateFacts.

(* ===================================================================== *)
(** * Facts about the save queue                                          *)
(* ===================================================================== *)

Section SaveQueueFacts.
Import SaveQueue.
Local Open Scope nat_scope.

Context {Snapshot Content : Type}.
Variable stringify : Snapshot → option Content.

Abbreviation QState := (@State Snapshot Content).
Abbreviation QAction := (@Action Snapshot Content).

Lemma enqueued_app (h h' : list QAction) :
  enqueued (h ++ h') = enqueued h ++ enqueued h'.
Proof. apply flat_map_app. Qed.

Lemma dequeued_app (h h' : list QAction) :
  dequeued (h ++ h') = dequeued h ++ dequeued h'.
Proof. apply flat_map_app. Qed.

Lemma settled_app (h h' : list QAction) :
  settled (h ++ h') = settled h ++ settled h'.
Proof. apply flat_map_app. Qed.

Lemma resolved_app (h h' : list QAction) :
  resolved (h ++ h') = resolved h ++ resolved h'.
Proof. apply flat_map_app. Qed.

Lemma resolved_settled (h : list QAction) (p : nat) :
  p ∈ resolved h → p ∈ settled h.
Proof.
  induction h as [|a h IH]; [done|].
  change (a :: h) with ([a] ++ h). rewrite resolved_app, settled_app.
  rewrite !elem_of_app. intros [Ha | Hh]; [left | right; auto].
  destruct a; simpl in *; set_solver.
Qed.

Lemma serial_from_app (o : option nat) (h h' : list QAction) :
  serial_from o (h ++ h')
  = serial_from o h && serial_from (open_after o h) h'.
Proof.
  revert o. induction h as [|a h IH]; intros o; [done|].
  destruct a; simpl; try apply IH.
  - destruct o; [done | apply IH].
  - destruct o as [q|]; [|done]. rewrite IH. by rewrite andb_assoc.
Qed.

Lemma open_after_app (o : option nat) (h h' : list QAction) :
  open_after o (h ++ h') = open_after (open_after o h) h'.
Proof.
  revert o. induction h as [|a h IH]; intros o; [done|].
  destruct a; simpl; apply IH.
Qed.

Lemma resolved_after_write_app (seen : list nat) (h h' : list QAction) :
  resolved_after_write seen (h ++ h')
  = resolved_after_write seen h
    && resolved_after_write (rev (written h) ++ seen) h'.
Proof.
  revert seen. induction h as [|a h IH]; intros seen; [done|].
  destruct a as [| | |p [|]|p|]; simpl; try apply IH.
  - rewrite IH. by rewrite <- app_assoc.
  - rewrite IH. by rewrite andb_assoc.
Qed.

(** ** The invariant of the run loop *)

Local Abbreviation core := (SaveQueue.core stringify).
Local Abbreviation inv := (SaveQueue.inv stringify).

Lemma inv_init (f : option Content) : inv (init f).
Proof.
  split; [split|..]; simpl; try done.
  - by exists [].
  - intros p d H. by apply elem_of_nil in H.
  - intros ps p H. by destruct ps.
Qed.

Lemma dequeued_NoDup (s : QState) : core s → NoDup (dequeued (history s)).
Proof.
  intros [[D [HD HP]] Hids _ _ _ _ _ _].
  rewrite <- HP.
  assert (Hn : NoDup (map promise (D ++ saveQueue s))).
  { rewrite <- HD, Hids. apply NoDup_ListNoDup, List.seq_NoDup. }
  rewrite map_app in Hn. by apply NoDup_app in Hn as [? _].
Qed.

Lemma head_not_dequeued (s : QState) (r : Request) (rest : list Request) :
  core s → saveQueue s = r :: rest → promise r ∉ dequeued (history s).
Proof.
  intros [[D [HD HP]] Hids _ _ _ _ _ _] Hq.
  rewrite <- HP.
  assert (Hn : NoDup (map promise (D ++ saveQueue s))).
  { rewrite <- HD, Hids. apply NoDup_ListNoDup, List.seq_NoDup. }
  rewrite map_app, Hq in Hn. apply NoDup_app in Hn as (_ & Hn & _).
  intros Hin. apply (Hn _ Hin). simpl. left.
Qed.

Lemma processNextSave_inv (s : QState) :
  core s → writing s = [] → timers s = 0 →
  inv (processNextSave stringify s).
Proof.
  intros Hc Hw Ht. unfold processNextSave.
  destruct (saveQueue s) as [|r rest] eqn:Hq.
  - destruct Hc. split; [split|..]; simpl; try done.
    + by rewrite Hq in core_fifo0.
    + by rewrite Hw, Ht.
  - pose proof (head_not_dequeued s r rest Hc Hq) as Hfresh.
    pose proof Hc as [[D [HD HP]] Hids Hdeq Hser Hop Hraw Hwr Hfile].
    rewrite Hw in *. simpl in Hdeq, Hop. rewrite app_nil_r in Hdeq.
    rewrite Hq in HD.
    destruct (stringify (tickets r)) as [data|] eqn:Hs.
    + split; [split|..]; simpl.
      * exists (D ++ [r]). rewrite enqueued_app, dequeued_app. simpl.
        rewrite !app_nil_r, HD, map_app, HP.
        split; [by rewrite <- app_assoc | done].
      * rewrite enqueued_app. simpl. by rewrite app_nil_r.
      * rewrite dequeued_app, settled_app. simpl.
        by rewrite app_nil_r, Hdeq.
      * unfold serial in *. rewrite serial_from_app, Hser, Hop. done.
      * rewrite open_after_app, Hop. done.
      * rewrite resolved_after_write_app, Hraw. done.
      * intros p d Hin. apply list_elem_of_singleton in Hin.
        injection Hin as -> ->. exists r. rewrite enqueued_app. simpl.
        rewrite app_nil_r, HD. split; [|done]. set_solver.
      * intros ps p. rewrite settled_app, resolved_app, enqueued_app. simpl.
        rewrite !app_nil_r. apply Hfile.
      * by rewrite Ht.
      * done.
    + split; [split|..]; simpl.
      * exists (D ++ [r]). rewrite enqueued_app, dequeued_app. simpl.
        rewrite !app_nil_r, HD, map_app, HP.
        split; [by rewrite <- app_assoc | done].
      * rewrite enqueued_app. simpl. by rewrite app_nil_r.
      * rewrite dequeued_app, settled_app. simpl.
        by rewrite app_nil_r, Hdeq.
      * unfold serial in *. rewrite serial_from_app, Hser. done.
      * rewrite open_after_app, Hop. done.
      * rewrite resolved_after_write_app, Hraw. done.
      * intros p d Hin. by apply elem_of_nil in Hin.
      * intros ps p. rewrite settled_app, resolved_app, enqueued_app. simpl.
        rewrite !app_nil_r. intros Heq Hin.
        apply app_inj_tail in Heq as [_ <-].
        apply resolved_settled in Hin. rewrite <- Hdeq in Hin. done.
      * by rewrite Ht.
      * done.
Qed.

Lemma enqueue_core (snapshot : Snapshot) (s : QState) :
  core s →
  core {| saveQueue :=
            saveQueue s ++ [{| promise := nextPromise s; tickets := snapshot |}];
          isSaving := isSaving s; writing := writing s; timers := timers s;
          file := file s; nextPromise := S (nextPromise s);
          history :=
            history s
            ++ [Enqueued {| promise := nextPromise s; tickets := snapshot |}] |}.
Proof.
  intros [[D [HD HP]] Hids Hdeq Hser Hop Hraw Hwr Hfile].
  split; simpl.
  - exists D. rewrite enqueued_app, dequeued_app. simpl.
    rewrite app_nil_r, HD, app_assoc. done.
  - pose proof (seq_S (nextPromise s) 0) as Hseq. simpl in Hseq.
    rewrite enqueued_app, map_app, Hids, Hseq. done.
  - rewrite dequeued_app, settled_app. simpl. by rewrite !app_nil_r.
  - unfold serial in *. by rewrite serial_from_app, Hser.
  - by rewrite open_after_app, Hop.
  - by rewrite resolved_after_write_app, Hraw.
  - intros p d Hin. destruct (Hwr p d Hin) as (r & Hr & Hp & Hsd).
    exists r. rewrite enqueued_app, elem_of_app. by split; [left|].
  - intros ps p. rewrite settled_app, resolved_app, enqueued_app. simpl.
    rewrite !app_nil_r. intros Heq Hin.
    destruct (Hfile ps p Heq Hin) as (r & Hr & Hp & Hsome & Hf).
    exists r. rewrite elem_of_app. by split; [left|].
Qed.

Lemma saveActiveTickets_inv (snapshot : Snapshot) (s : QState) :
  inv s → inv (saveActiveTickets stringify snapshot s).
Proof.
  intros [Hc Hflag Hidle]. unfold saveActiveTickets. simpl.
  pose proof (enqueue_core snapshot s Hc) as Hc'.
  destruct (isSaving s) eqn:Hs.
  - by split.
  - apply processNextSave_inv; simpl; [done | |].
    + destruct (writing s); [done | simpl in Hflag; lia].
    + lia.
Qed.

Lemma remove_write_single (p : nat) (w : list (nat * Content))
    (data : Content) (rest : list (nat * Content)) :
  length w ≤ 1 → remove_write p w = Some (data, rest) →
  w = [(p, data)] ∧ rest = [].
Proof.
  destruct w as [|[q d] [|x w]]; simpl; intros Hl H; try done; [|lia].
  destruct (Nat.eqb_spec p q) as [->|]; simplify_eq/=; done.
Qed.

Lemma writeDone_inv (p : nat) (ok torn : bool) (s s' : QState) :
  inv s → writeDone p ok torn s = Some s' → inv s'.
Proof.
  intros [Hc Hflag Hidle] Hstep. unfold writeDone in Hstep.
  destruct (remove_write p (writing s)) as [[data rest]|] eqn:Hrm;
    simplify_eq/=.
  assert (Hlen : length (writing s) ≤ 1) by (destruct (isSaving s); lia).
  destruct (remove_write_single _ _ _ _ Hlen Hrm) as [Hw ->].
  pose proof (dequeued_NoDup s Hc) as Hnd.
  destruct Hc as [[D [HD HP]] Hids Hdeq Hser Hop Hraw Hwr Hfile].
  rewrite Hw in *. simpl in *.
  assert (Hsav : isSaving s = true ∧ timers s = 0).
  { destruct (isSaving s); [split; [done | lia] | lia]. }
  destruct Hsav as [Hsav Htim]. rewrite Hsav, Htim in *.
  assert (Hp : p ∉ settled (history s)).
  { rewrite Hdeq in Hnd. apply NoDup_app in Hnd as (_ & Hnd & _).
    intros Hin. apply (Hnd _ Hin). left. }
  destruct ok; (split; [split|..]); simpl; try done.
  - exists D. by rewrite enqueued_app, dequeued_app; simpl; rewrite !app_nil_r.
  - by rewrite enqueued_app; simpl; rewrite app_nil_r.
  - rewrite dequeued_app, settled_app. simpl. by rewrite !app_nil_r.
  - unfold serial in *. rewrite serial_from_app, Hser, Hop. simpl.
    by rewrite Nat.eqb_refl.
  - by rewrite open_after_app, Hop.
  - rewrite resolved_after_write_app, Hraw. simpl.
    rewrite bool_decide_eq_true_2; [done | left].
  - intros q d Hin. by apply elem_of_nil in Hin.
  - intros ps q. rewrite settled_app, resolved_app, enqueued_app. simpl.
    rewrite !app_nil_r. intros Heq _.
    apply app_inj_tail in Heq as [_ <-].
    destruct (Hwr p data) as (r & Hr & Hpr & Hsd); [left|].
    exists r. by rewrite Hsd.
  - exists D. by rewrite enqueued_app, dequeued_app; simpl; rewrite !app_nil_r.
  - by rewrite enqueued_app; simpl; rewrite app_nil_r.
  - rewrite dequeued_app, settled_app. simpl. by rewrite !app_nil_r.
  - unfold serial in *. rewrite serial_from_app, Hser, Hop. simpl.
    by rewrite Nat.eqb_refl.
  - by rewrite open_after_app, Hop.
  - by rewrite resolved_after_write_app, Hraw.
  - intros q d Hin. by apply elem_of_nil in Hin.
  - intros ps q. rewrite settled_app, resolved_app, enqueued_app. simpl.
    rewrite !app_nil_r. intros Heq Hin.
    apply app_inj_tail in Heq as [_ <-].
    by apply resolved_settled in Hin.
Qed.

Lemma timerFired_inv (s s' : QState) :
  inv s → timerFired stringify s = Some s' → inv s'.
Proof.
  intros [Hc Hflag Hidle] Hstep. unfold timerFired in Hstep.
  destruct (timers s) as [|n] eqn:Ht; simplify_eq/=.
  assert (Hw : writing s = [] ∧ n = 0).
  { destruct (isSaving s), (writing s); simpl in *; split; (done || lia). }
  destruct Hw as [Hw ->].
  apply processNextSave_inv; simpl; [|done..].
  destruct Hc. by split.
Qed.

Lemma step_inv (e : Event) (s s' : QState) :
  inv s → step stringify e s = Some s' → inv s'.
Proof.
  intros Hi Hstep. destruct e as [snapshot|p ok torn|]; simpl in Hstep.
  - simplify_eq. by apply saveActiveTickets_inv.
  - by eapply writeDone_inv.
  - by eapply timerFired_inv.
Qed.

Lemma exec_inv (trace : list Event) (s s' : QState) :
  inv s → exec stringify trace s = Some s' → inv s'.
Proof.
  revert s. induction trace as [|e trace IH]; intros s Hi Hex; simpl in Hex.
  - by simplify_eq.
  - destruct (step stringify e s) as [s1|] eqn:Hs; simplify_eq/=.
    eapply IH; [|done]. by eapply step_inv.
Qed.

Lemma reachable_inv (f : option Content) (s : QState) :
  reachable stringify f s → inv s.
Proof. intros [trace Hex]. eapply exec_inv; [apply inv_init | done]. Qed.

Lemma NoDup_fmap_eq {A B} (f : A → B) (l : list A) (x y : A) :
  NoDup (map f l) → x ∈ l → y ∈ l → f x = f y → x = y.
Proof.
  induction l as [|a l IH]; intros Hnd Hx Hy Hf; [by apply elem_of_nil in Hx|].
  simpl in Hnd. apply NoDup_cons in Hnd as [Ha Hnd].
  apply elem_of_cons in Hx as [->|Hx]; apply elem_of_cons in Hy as [->|Hy];
    try done.
  - exfalso. apply Ha. rewrite Hf. by apply (list_elem_of_fmap_2 f).
  - exfalso. apply Ha. rewrite <- Hf. by apply (list_elem_of_fmap_2 f).
  - by apply IH.
Qed.

(** In enqueue order: first the settled requests, then the one being
    written (if any), then those still queued. *)
Lemma reachable_order (f : option Content) (s : QState) :
  reachable stringify f s →
  map promise (enqueued (history s))
  = settled (history s) ++ map fst (writing s) ++ map promise (saveQueue s).
Proof.
  intros Hr. apply reachable_inv in Hr as [[[D [HD HP]] _ Hdeq _ _ _ _ _] _ _].
  rewrite HD, map_app, HP, Hdeq. by rewrite <- app_assoc.
Qed.

Lemma reachable_one_write (f : option Content) (s : QState) :
  reachable stringify f s → length (writing s) ≤ 1.
Proof.
  intros Hr. apply reachable_inv in Hr as [_ Hflag _].
  destruct (isSaving s); lia.
Qed.

(** Once the request enqueued last is resolved, nothing is pending and
    the file holds the serialization of its snapshot. *)
Lemma reachable_last_resolved (f : option Content) (s : QState) (L : Request) :
  reachable stringify f s →
  last (enqueued (history s)) = Some L →
  promise L ∈ resolved (history s) →
  saveQueue s = [] ∧ writing s = []
  ∧ settled (history s) = map promise (enqueued (history s))
  ∧ is_Some (file s) ∧ file s = stringify (tickets L).
Proof.
  intros Hr Hlast Hres.
  pose proof (reachable_order f s Hr) as Hord.
  apply reachable_inv in Hr as [Hc _ _].
  pose proof Hc as [_ Hids _ _ _ _ _ Hfile].
  assert (Hnd : NoDup (map promise (enqueued (history s)))).
  { rewrite Hids. apply NoDup_ListNoDup, List.seq_NoDup. }
  apply last_Some in Hlast as [E' HE].
  apply resolved_settled in Hres as Hset.
  assert (Hrest : map fst (writing s) ++ map promise (saveQueue s) = []).
  { destruct (map fst (writing s) ++ map promise (saveQueue s))
      as [|x rest] eqn:Hwq using rev_ind; [done|]. exfalso.
    rewrite Hord in Hnd. rewrite HE, map_app in Hord. simpl in Hord.
    rewrite app_assoc in Hord. apply app_inj_tail in Hord as [_ Hx].
    apply NoDup_app in Hnd as (_ & Hnd & _).
    apply (Hnd _ Hset). rewrite Hx. apply elem_of_app. right. left. }
  apply app_eq_nil in Hrest as [Hw Hq].
  apply map_eq_nil in Hw, Hq.
  rewrite Hw, Hq in Hord. simpl in Hord. rewrite app_nil_r in Hord.
  split; [done|]. split; [done|]. split; [done|].
  destruct (Hfile (map promise E') (promise L)) as (r & Hrin & Hp & Hsome & Hf);
    [by rewrite <- Hord, HE, map_app | done |].
  assert (r = L) as ->; [|done].
  apply (NoDup_fmap_eq promise (enqueued (history s))); try done.
  rewrite HE. apply elem_of_app. right. left.
Qed.

(** ** [n] saves issued back to back *)

Lemma exec_app (t1 t2 : list Event) (s : QState) :
  exec stringify (t1 ++ t2) s
  = s' ← exec stringify t1 s; exec stringify t2 s'.
Proof.
  revert s. induction t1 as [|e t1 IH]; intros s; [done|]. simpl.
  destruct (step stringify e s); simpl; [apply IH | done].
Qed.

Lemma bind_Some {A B} (x : A) (k : A → option B) : (Some x ≫= k) = k x.
Proof. reflexivity. Qed.

Lemma save_busy (x : Snapshot) (s : QState) :
  isSaving s = true →
  step stringify (Save x) s
  = Some {| saveQueue :=
              saveQueue s ++ [{| promise := nextPromise s; tickets := x |}];
            isSaving := true; writing := writing s; timers := timers s;
            file := file s; nextPromise := S (nextPromise s);
            history :=
              history s
              ++ [Enqueued {| promise := nextPromise s; tickets := x |}] |}.
Proof.
  intros Hs. simpl. unfold saveActiveTickets. simpl. by rewrite Hs.
Qed.

Lemma exec_saves_busy (l : list Snapshot) :
  ∀ s : QState,
    isSaving s = true →
    ∃ s', exec stringify (map Save l) s = Some s'
          ∧ isSaving s' = true
          ∧ saveQueue s' = saveQueue s ++ requests (nextPromise s) l
          ∧ writing s' = writing s ∧ timers s' = timers s
          ∧ file s' = file s
          ∧ resolved (history s') = resolved (history s).
Proof.
  induction l as [|x l IH]; intros s Hs.
  - exists s. simpl. by rewrite app_nil_r.
  - change (map Save (x :: l)) with (Save x :: map Save l).
    change (exec stringify (Save x :: map Save l) s)
      with (s' ← step stringify (Save x) s; exec stringify (map Save l) s').
    rewrite (save_busy x s Hs), bind_Some.
    match goal with
    | |- ∃ s', exec _ _ ?s0 = _ ∧ _ =>
        destruct (IH s0) as (s' & Hex & H1 & H2 & H3 & H4 & H5 & H6); [done|]
    end.
    exists s'. split; [exact Hex|]. simpl in *.
    rewrite H2, H3, H4, H5, H6, resolved_app, <- app_assoc. simpl.
    by rewrite app_nil_r.
Qed.

Lemma pump_next (s : QState) (p : nat) (d d' : Content)
    (r : Request) (rest : list Request) :
  writing s = [(p, d)] → timers s = 0 → saveQueue s = r :: rest →
  stringify (tickets r) = Some d' →
  exec stringify [WriteDone p true false; Timer] s
  = Some {| saveQueue := rest; isSaving := true;
            writing := [(promise r, d')]; timers := 0; file := Some d;
            nextPromise := nextPromise s;
            history :=
              (history s ++ [WriteFinished p true; Resolved p])
              ++ [Dequeued (promise r); WriteStarted (promise r) d'] |}.
Proof.
  intros Hw Ht Hq Hd. simpl. unfold writeDone. rewrite Hw. simpl.
  rewrite Nat.eqb_refl. simpl. unfold timerFired. simpl. rewrite Ht.
  unfold processNextSave. simpl. by rewrite Hq, Hd.
Qed.

Lemma pump_last (s : QState) (p : nat) (d : Content) :
  writing s = [(p, d)] → timers s = 0 → saveQueue s = [] →
  exec stringify [WriteDone p true false; Timer] s
  = Some {| saveQueue := []; isSaving := false; writing := []; timers := 0;
            file := Some d; nextPromise := nextPromise s;
            history := history s ++ [WriteFinished p true; Resolved p] |}.
Proof.
  intros Hw Ht Hq. simpl. unfold writeDone. rewrite Hw. simpl.
  rewrite Nat.eqb_refl. simpl. unfold timerFired. simpl. rewrite Ht.
  unfold processNextSave. simpl. by rewrite Hq.
Qed.

Lemma drain_events_S (p n : nat) :
  drain_events p (S n)
  = ([WriteDone p true false; Timer] : list (@Event Snapshot))
    ++ drain_events (S p) n.
Proof. reflexivity. Qed.

Lemma drain_busy (q : list Snapshot) :
  ∀ (s : QState) (p : nat) (d : Content),
    writing s = [(p, d)] → timers s = 0 →
    saveQueue s = requests (S p) q →
    (∀ x, x ∈ q → is_Some (stringify x)) →
    ∃ s', exec stringify (drain_events p (S (length q))) s = Some s'
          ∧ isSaving s' = false ∧ saveQueue s' = [] ∧ writing s' = []
          ∧ timers s' = 0
          ∧ resolved (history s')
            = resolved (history s) ++ seq p (S (length q))
          ∧ file s' = match last q with
                      | Some x => stringify x
                      | None => Some d
                      end.
Proof.
  induction q as [|x q IH]; intros s p d Hw Ht Hq Hok.
  - eexists. split.
    + rewrite drain_events_S. unfold drain_events. simpl flat_map.
      rewrite app_nil_r. by apply pump_last.
    + simpl. rewrite resolved_app. done.
  - destruct (Hok x) as [d' Hd']; [left|].
    change (length (x :: q)) with (S (length q)).
    rewrite drain_events_S, exec_app.
    rewrite (pump_next s p d d' {| promise := S p; tickets := x |}
               (requests (S (S p)) q)); [|done..].
    rewrite bind_Some.
    match goal with
    | |- ∃ s', exec _ _ ?s0 = _ ∧ _ =>
        destruct (IH s0 (S p) d') as (s' & Hex & H1 & H2 & H3 & H4 & H5 & H6);
          [done | done | done | intros y Hy; apply Hok; by right |]
    end.
    exists s'. split; [exact Hex|]. simpl in *.
    rewrite H1, H2, H3, H4, H5, H6.
    rewrite !resolved_app. simpl. rewrite <- !app_assoc. simpl.
    repeat split; try done.
    destruct q as [|y q']; [done|]. rewrite last_cons_cons.
    destruct (last (y :: q')) eqn:Hl; [done|].
    by apply last_None in Hl.
Qed.

Lemma save_idle (x : Snapshot) (d : Content) (f : option Content) :
  stringify x = Some d →
  step stringify (Save x) (init f)
  = Some {| saveQueue := []; isSaving := true; writing := [(0, d)];
            timers := 0; file := f; nextPromise := 1;
            history := [Enqueued {| promise := 0; tickets := x |};
                        Dequeued 0; WriteStarted 0 d] |}.
Proof.
  intros Hd. simpl. unfold saveActiveTickets. simpl.
  unfold processNextSave. simpl. by rewrite Hd.
Qed.

(** [n >= 1] saves issued while nothing is pending, every write then
    succeeding: all promises are resolved, in order, and the file holds
    the last snapshot. *)
Lemma concurrent_saves_complete
    (f : option Content) (x : Snapshot) (l : list Snapshot) :
  (∀ y, y ∈ x :: l → is_Some (stringify y)) →
  ∃ s, exec stringify (map Save (x :: l) ++ drain_events 0 (S (length l)))
         (init f) = Some s
       ∧ resolved (history s) = seq 0 (S (length l))
       ∧ isSaving s = false ∧ saveQueue s = [] ∧ writing s = []
       ∧ file s = stringify (default x (last (x :: l))).
Proof.
  intros Hok. destruct (Hok x) as [d Hd]; [left|].
  rewrite exec_app.
  change (map Save (x :: l)) with (Save x :: map Save l).
  change (exec stringify (Save x :: map Save l) (init f))
    with (s' ← step stringify (Save x) (init f);
          exec stringify (map Save l) s').
  rewrite (save_idle x d f Hd), bind_Some.
  match goal with
  | |- ∃ s, (s' ← exec _ _ ?s0; _) = _ ∧ _ =>
      destruct (exec_saves_busy l s0) as (s1 & Hex & H1 & H2 & H3 & H4 & H5 & H6);
        [done|]
  end.
  rewrite Hex, bind_Some. simpl in H2, H3, H4, H5, H6.
  destruct (drain_busy l s1 0 d) as (s' & Hex' & K1 & K2 & K3 & K4 & K5 & K6);
    try done.
  { intros y Hy. apply Hok. by right. }
  exists s'. split; [exact Hex'|]. rewrite K5, H6, K6.
  repeat split; try done.
  rewrite last_cons. by destruct (last l).
Qed.

(** C1, as amended. In every state the run loop reaches, whatever the
    order of save calls, write completions and timers: at most one
    write is in progress and the writes of the history never overlap;
    the requests are taken in enqueue order (first the settled ones,
    then the one being written, then the queued ones); a promise is
    resolved only after the write of its request has finished well;
    and once the request enqueued last is resolved, every request is
    settled, nothing is pending and the file holds the serialization
    of its snapshot. (Settled is not enough: a save whose write fails
    is rejected, and the file keeps what it held.) *)
Theorem save_queue_serializes_writes (f : option Content) (s : QState) :
  reachable stringify f s →
  (length (writing s) ≤ 1 ∧ serial (history s) = true)
  ∧ map promise (enqueued (history s))
    = settled (history s) ++ map fst (writing s)
      ++ map promise (saveQueue s)
  ∧ resolved_after_write [] (history s) = true
  ∧ (∀ L, last (enqueued (history s)) = Some L →
          promise L ∈ resolved (history s) →
          saveQueue s = [] ∧ writing s = []
          ∧ settled (history s) = map promise (enqueued (history s))
          ∧ is_Some (file s) ∧ file s = stringify (tickets L)).
Proof.
  intros Hr. split; [split|split; [|split]].
  - by eapply reachable_one_write.
  - by apply reachable_inv in Hr as [[] _ _].
  - by eapply reachable_order.
  - by apply reachable_inv in Hr as [[] _ _].
  - intros L. by eapply reachable_last_resolved.
Qed.

End SaveQueueFacts.

(** An awaited save of the registry on an idle store, as the handlers
    of [Tickets] take it: one write, of the whole snapshot, and the
    promise is resolved once it is done. *)
Lemma awaited_save_on_idle_store
    (f : option (gmap string (gmap string Tickets.json)))
    (snapshot : gmap string (gmap string Tickets.jsval)) :
  ∃ s, SaveQueue.exec (λ t, Some (Tickets.serialize t))
         [SaveQueue.Save snapshot; SaveQueue.WriteDone 0 true false;
          SaveQueue.Timer] (SaveQueue.init f) = Some s
       ∧ SaveQueue.file s = Some (Tickets.serialize snapshot)
       ∧ SaveQueue.resolved (SaveQueue.history s) = [0%nat]
       ∧ SaveQueue.isSaving s = false.
Proof.
  destruct (concurrent_saves_complete (λ t, Some (Tickets.serialize t))
              f snapshot []) as (s & Hex & Hres & Hs & _ & _ & Hf).
  { intros y _. by eexists. }
  exists s. split; [exact Hex|]. by repeat split.
Qed.

(* ===================================================================== *)
(** * Facts about the handlers                                            *)
(* ===================================================================== *)

(** ** Properties of the registry and the file kept by every handler *)

Section Preservation.
Import Tickets.

Variable other_formats : string → option Z.
Variable date_of_data : json → option Z.
Variable cfg : Config.

(** [J] relates registry and file; [good c r]: record [r] may be stored
    under [c]; [may_insert c]: a new record may appear under [c]. *)
Variable J : registry → disk → Prop.
Variable good : string → record → Prop.
Variable may_insert : string → Prop.

Hypothesis J_load : ∀ t f,
  J t f → J (loadActiveTickets other_formats date_of_data f) f.
Hypothesis J_save : ∀ t f, J t f → J t (Doc (serialize t)).
Hypothesis J_torn : ∀ t f, J t f → J t Unparsable.
Hypothesis J_delete : ∀ t f c, J t f → J (delete c t) f.
Hypothesis J_prune : ∀ t f (chans : gset string),
  J t f → J (filter (λ kv : string * record, kv.1 ∈ chans) t) f.
Hypothesis J_insert : ∀ t f c v, J t f → good c v → J (<[c := v]> t) f.
Hypothesis good_lookup : ∀ t f c r, J t f → t !! c = Some r → good c r.
Hypothesis good_update : ∀ c r k x,
  good c r → k ≠ "channelId" → good c (<[k := x]> r).
Hypothesis good_fresh : ∀ c r,
  may_insert c → r !! "channelId" = Some (VStr c) → good c r.

Local Abbreviation holds := (Tickets.holds J).
Local Abbreviation keeps := (Tickets.keeps J).
Local Abbreviation event_ok := (Tickets.event_ok may_insert).

Lemma keeps_ret {A} (a : A) : keeps (mret a).
Proof. by intros s o Hs. Qed.

Lemma keeps_throw {A} : keeps (@throw A).
Proof. by intros s o Hs. Qed.

Lemma keeps_emit (x : Output) : keeps (emit x).
Proof. by intros s o Hs. Qed.

Lemma keeps_bind {A B} (m : M A) (k : A → M B) :
  keeps m → (∀ a, keeps (k a)) → keeps (m ≫= k).
Proof.
  intros Hm Hk s o Hs. unfold mbind, M_bind.
  specialize (Hm s o Hs). destruct (m s o) as [[[a|] s'] o']; [|done].
  by apply Hk.
Qed.

Lemma keeps_try_catch {A} (body handler : M A) :
  keeps body → keeps handler → keeps (try_catch body handler).
Proof.
  intros Hb Hh s o Hs. unfold try_catch.
  specialize (Hb s o Hs). destruct (body s o) as [[[a|] s'] o']; [done|].
  by apply Hh.
Qed.

Lemma keeps_get_state {B} (k : State → M B) :
  (∀ s, holds s → keeps (k s)) → keeps (get_state ≫= k).
Proof. intros Hk s o Hs. exact (Hk s Hs s o Hs). Qed.

Lemma keeps_put_state (s' : State) : holds s' → keeps (put_state s').
Proof. by intros Hs' s o Hs. Qed.

Lemma keeps_when (b : bool) (m : M unit) : keeps m → keeps (when b m).
Proof. intros H. destruct b; [done | apply keeps_ret]. Qed.

Lemma keeps_get_ticket {B} (c : string) (k : record → M B) :
  (∀ r, good c r → keeps (k r)) → keeps (get_ticket c ≫= k).
Proof.
  intros Hk s o Hs. cbv [mbind M_bind get_ticket get_state mret M_ret throw].
  destruct (activeTickets s !! c) as [r|] eqn:Hr; simpl; [|done].
  apply (Hk r); [|done]. by eapply good_lookup.
Qed.

Lemma keeps_tickets_set (c : string) (v : record) :
  good c v → keeps (tickets_set c v).
Proof. intros Hv s o Hs. unfold holds. simpl. by apply J_insert. Qed.

Lemma keeps_tickets_delete (c : string) : keeps (tickets_delete c).
Proof. intros s o Hs. unfold holds. simpl. by apply J_delete. Qed.

Section WithEnv.
Variable env : Env.

Lemma keeps_ensureTicketsLoaded :
  keeps (ensureTicketsLoaded other_formats date_of_data).
Proof.
  intros s o Hs.
  cbv [ensureTicketsLoaded mbind M_bind get_state put_state mret M_ret].
  destruct (ticketsLoaded s); simpl; [done|].
  by apply (J_load (activeTickets s)).
Qed.

Lemma keeps_saveActiveTickets : keeps (saveActiveTickets env).
Proof.
  intros s o Hs.
  cbv [saveActiveTickets mbind M_bind get_state put_state mret M_ret throw].
  destruct (writeFile env); simpl; [|done|].
  - by apply (J_save _ (file s)).
  - by apply (J_torn _ (file s)).
Qed.

Lemma keeps_permissionOverwrites_edit (c : string) (id : jsval) (b : bool) :
  keeps (permissionOverwrites_edit env c id b).
Proof.
  intros s o Hs. unfold permissionOverwrites_edit.
  destruct id as [[| | | |u]| |]; try done.
  by destruct (permissionEdit_ok env).
Qed.

Lemma keeps_channel_send (c what : string) : keeps (channel_send env c what).
Proof. intros s o Hs. unfold channel_send. by destruct (channelSend_ok env). Qed.

Lemma keeps_logTicketAction (t : jsval) (action id : string) :
  keeps (logTicketAction cfg t action id).
Proof.
  intros s o Hs.
  cbv [logTicketAction mbind M_bind get_state mret M_ret throw emit].
  destruct (logChannel cfg); [|done]. case_bool_decide; [|done].
  by destruct t as [[| | | |?]| |].
Qed.

Lemma keeps_schedule_delete (c : string) : keeps (schedule_delete c).
Proof. by intros s o Hs. Qed.

Lemma keeps_remove_channel (c : string) : keeps (remove_channel c).
Proof. by intros s o Hs. Qed.

Lemma keeps_delete_channel (c : string) : keeps (delete_channel env c).
Proof. intros s o Hs. unfold delete_channel. by destruct (channelDelete_ok env). Qed.

Lemma keeps_transcript_for_deletion (r : record) :
  keeps (transcript_for_deletion env r).
Proof.
  unfold transcript_for_deletion.
  destruct (field r "type") as [[| | | |?]| |]; try apply keeps_emit.
  destruct (transcript_ok env); apply keeps_emit.
Qed.

Lemma keeps_channels_create {B}
    (user : string) (e : bool) (roles : list prim) (k : string → M B) :
  (∀ id, created_channel env = Some id → keeps (k id)) →
  keeps (channels_create env user e roles ≫= k).
Proof.
  intros Hk s o Hs. unfold channels_create.
  destruct (created_channel env) as [id|] eqn:Hid; [|done].
  cbv [mbind M_bind get_state put_state mret M_ret].
  by apply (Hk id).
Qed.

Local Ltac keep1 :=
  lazymatch goal with
  | |- keeps (mret _) => apply keeps_ret
  | |- keeps throw => apply keeps_throw
  | |- keeps (emit _) => apply keeps_emit
  | |- keeps (ensureTicketsLoaded _ _) => apply keeps_ensureTicketsLoaded
  | |- keeps (saveActiveTickets _) => apply keeps_saveActiveTickets
  | |- keeps (permissionOverwrites_edit _ _ _ _) =>
      apply keeps_permissionOverwrites_edit
  | |- keeps (channel_send _ _ _) => apply keeps_channel_send
  | |- keeps (logTicketAction _ _ _ _) => apply keeps_logTicketAction
  | |- keeps (schedule_delete _) => apply keeps_schedule_delete
  | |- keeps (tickets_delete _) => apply keeps_tickets_delete
  | |- keeps (transcript_for_deletion _ _) =>
      apply keeps_transcript_for_deletion
  | |- keeps (remove_channel _) => apply keeps_remove_channel
  | |- keeps (delete_channel _ _) => apply keeps_delete_channel
  | |- keeps (try_catch _ _) => apply keeps_try_catch
  | |- keeps (when _ _) => apply keeps_when
  | |- keeps (get_state ≫= _) => apply keeps_get_state; intros ? ?
  | |- keeps (get_ticket _ ≫= _) => apply keeps_get_ticket; intros ? ?
  | |- keeps (channels_create _ _ _ _ ≫= _) =>
      apply keeps_channels_create; intros ? ?
  | |- keeps (_ ≫= _) => apply keeps_bind; [|intros ?]
  | |- keeps (if ?b then _ else _) => destruct b
  | |- keeps (match ?x with _ => _ end) => destruct x
  end.

Local Ltac keep := repeat keep1.

Lemma keeps_closeTicket (c : string) (m : Member) :
  keeps (closeTicket other_formats date_of_data c m).
Proof. unfold closeTicket. keep. Qed.

Lemma keeps_closeTicketConfirmed (c : string) (m : Member) :
  keeps (closeTicketConfirmed other_formats date_of_data cfg env c m).
Proof.
  unfold closeTicketConfirmed. keep.
  apply keeps_tickets_set. by do 3 (apply good_update; [|done]).
Qed.

Lemma keeps_reopenTicket (c : string) (m : Member) :
  keeps (reopenTicket other_formats date_of_data cfg env c m).
Proof.
  unfold reopenTicket. keep.
  apply keeps_tickets_set. by do 3 (apply good_update; [|done]).
Qed.

Lemma keeps_deleteTicket (c : string) (m : Member) :
  keeps (deleteTicket other_formats date_of_data cfg env c m).
Proof. unfold deleteTicket. keep. Qed.

Lemma keeps_createTranscript (c : string) (m : Member) :
  keeps (createTranscript other_formats date_of_data cfg env c m).
Proof. unfold createTranscript. keep. Qed.

Lemma good_singleton (id : string) :
  may_insert id → good id {["channelId" := VStr id]}.
Proof. intros Hid. apply good_fresh; [done|]. apply lookup_singleton_eq. Qed.

Lemma keeps_createTicketWithFormData
    (m : Member) (t : string) (formData : jsval) :
  (∀ id, created_channel env = Some id → may_insert id) →
  keeps (createTicketWithFormData other_formats date_of_data cfg env
           m t formData).
Proof.
  intros Hid. unfold createTicketWithFormData. keep.
  apply keeps_tickets_set. do 4 (apply good_update; [|done]).
  apply good_singleton. by apply Hid.
Qed.

Lemma keeps_createTicket (m : Member) (t : string) :
  (∀ id, created_channel env = Some id → may_insert id) →
  keeps (createTicket other_formats date_of_data cfg env m t).
Proof.
  intros Hid. unfold createTicket. keep.
  apply keeps_tickets_set. do 3 (apply good_update; [|done]).
  apply good_singleton. by apply Hid.
Qed.

Lemma keeps_createTicket_asks (m : Member) (t : string) :
  keeps (createTicket_asks other_formats date_of_data cfg env m t).
Proof. unfold createTicket_asks. keep. Qed.

Lemma keeps_createTicketWithFormData_asks (m : Member) (t : string) :
  keeps (createTicketWithFormData_asks other_formats date_of_data cfg m t).
Proof. unfold createTicketWithFormData_asks. keep. Qed.

Lemma keeps_createTicket_goes_on (m : Member) (t : string) :
  (∀ id, created_channel env = Some id → may_insert id) →
  keeps (createTicket_goes_on cfg env m t).
Proof.
  intros Hid. unfold createTicket_goes_on. keep.
  apply keeps_tickets_set. do 3 (apply good_update; [|done]).
  apply good_singleton. by apply Hid.
Qed.

Lemma keeps_createTicketWithFormData_goes_on
    (m : Member) (t : string) (formData : jsval) :
  (∀ id, created_channel env = Some id → may_insert id) →
  keeps (createTicketWithFormData_goes_on cfg env m t formData).
Proof.
  intros Hid. unfold createTicketWithFormData_goes_on. keep.
  apply keeps_tickets_set. do 4 (apply good_update; [|done]).
  apply good_singleton. by apply Hid.
Qed.

Lemma keeps_registerExistingTicket
    (m : Member) (c : string) (oc u t : option string) :
  may_insert (default c oc) →
  keeps (registerExistingTicket other_formats date_of_data cfg env m c oc u t).
Proof.
  intros Hid. unfold registerExistingTicket. keep.
  apply keeps_tickets_set. do 4 (apply good_update; [|done]).
  by apply good_singleton.
Qed.

Lemma keeps_debugTickets (m : Member) (c : string) :
  keeps (debugTickets other_formats date_of_data env m c).
Proof. unfold debugTickets. keep. Qed.

Lemma keeps_ready : keeps (ready env).
Proof.
  unfold ready. keep. apply keeps_put_state. unfold holds. simpl.
  by apply J_prune.
Qed.

Lemma keeps_on_button (customId c : string) (m : Member) :
  (∀ id, created_channel env = Some id → may_insert id) →
  keeps (on_button other_formats date_of_data cfg env customId c m).
Proof.
  intros Hid. unfold on_button. keep;
    first [ apply keeps_closeTicket | apply keeps_deleteTicket
          | apply keeps_reopenTicket | apply keeps_createTranscript
          | apply keeps_closeTicketConfirmed
          | by apply keeps_createTicket
          | idtac ].
  unfold closeTicketCancelled. keep.
Qed.

Lemma keeps_on_select (customId c : string) (m : Member) :
  keeps (on_select other_formats date_of_data customId c m).
Proof. unfold on_select. keep. Qed.

Lemma keeps_on_modal (customId : string) (m : Member) (formData : jsval) :
  (∀ id, created_channel env = Some id → may_insert id) →
  keeps (on_modal other_formats date_of_data cfg env customId m formData).
Proof.
  intros Hid. unfold on_modal. keep. by apply keeps_createTicketWithFormData.
Qed.

Lemma keeps_handle (ev : Event) :
  event_ok env ev → keeps (handle other_formats date_of_data cfg env ev).
Proof.
  intros Hev. destruct ev; simpl in Hev; unfold handle, safeInteractionHandler.
  - apply keeps_ready.
  - keep. by apply keeps_on_button.
  - keep. apply keeps_on_select.
  - keep. by apply keeps_on_modal.
  - keep. by apply keeps_registerExistingTicket.
  - keep. apply keeps_debugTickets.
  - keep.
  - keep.
  - keep.
  - keep. apply keeps_put_state. unfold holds, boot. simpl.
    by apply (J_load (activeTickets s)).
  - destruct form; unfold modal_failed; keep.
    + apply keeps_createTicketWithFormData_asks.
    + apply keeps_createTicket_asks.
  - destruct formData; unfold modal_failed; keep.
    + by apply keeps_createTicketWithFormData_goes_on.
    + by apply keeps_createTicket_goes_on.
Qed.

Lemma step_holds (ev : Event) (s : State) :
  event_ok env ev → holds s →
  holds (step other_formats date_of_data cfg env ev s).1.
Proof.
  intros Hev Hs. unfold step, run.
  pose proof (keeps_handle ev Hev s [] Hs) as H.
  by destruct (handle _ _ _ _ ev s []) as [[a s'] o'].
Qed.

End WithEnv.

Lemma exec_holds (trace : list (Env * Event)) (s : State) :
  Forall (λ '(env, ev), event_ok env ev) trace → holds s →
  holds (exec other_formats date_of_data cfg trace s).
Proof.
  revert s. induction trace as [|[env ev] trace IH]; intros s Hok Hs; [done|].
  apply Forall_cons in Hok as [Hev Hok]. simpl.
  apply IH; [done|]. by apply step_holds.
Qed.

End Preservation.

(** ** Records stay keyed by their channel *)

Section Keyed.
Import Tickets.

Variable other_formats : string → option Z.
Variable date_of_data : json → option Z.

Lemma revive_date_other (f k : string) (value : record) :
  f ≠ k →
  revive_date other_formats date_of_data f value !! k = value !! k.
Proof.
  intros Hne. unfold revive_date.
  destruct (truthy (field value f)); [|done]. by rewrite lookup_insert_ne.
Qed.

Lemma lookup_loadActiveTickets (f : disk) (key : string) :
  loadActiveTickets other_formats date_of_data f !! key
  = (λ value, revive other_formats date_of_data key (of_json <$> value))
      <$> persisted f key.
Proof.
  destruct f as [| |d]; simpl; try apply lookup_empty.
  rewrite map_lookup_imap. by destruct (d !! key).
Qed.

Lemma lookup_serialize (tickets : registry) (key : string) :
  key ≠ "__proto__" →
  serialize tickets !! key = stringify <$> tickets !! key.
Proof.
  intros Hk. unfold serialize. by rewrite lookup_fmap, lookup_delete_ne.
Qed.

Lemma lookup_serialize_proto (tickets : registry) :
  serialize tickets !! "__proto__" = None.
Proof. unfold serialize. by rewrite lookup_fmap, lookup_delete_eq. Qed.

Lemma lookup_serialize_None (tickets : registry) (key : string) :
  tickets !! key = None → serialize tickets !! key = None.
Proof.
  intros H. unfold serialize. rewrite lookup_fmap.
  destruct (decide (key = "__proto__")) as [-> | Hk].
  - by rewrite lookup_delete_eq.
  - by rewrite lookup_delete_ne, H.
Qed.

Lemma lookup_serialize_Some
    (tickets : registry) (key : string) (v : gmap string json) :
  serialize tickets !! key = Some v →
  key ≠ "__proto__" ∧ ∃ r, tickets !! key = Some r ∧ v = stringify r.
Proof.
  intros H. destruct (decide (key = "__proto__")) as [-> | Hk].
  - by rewrite lookup_serialize_proto in H.
  - split; [done|]. rewrite lookup_serialize in H by done.
    destruct (tickets !! key) as [r|]; [|done].
    exists r. by injection H as <-.
Qed.

Lemma load_keyed (f : disk) :
  file_keyed f →
  channel_keyed (loadActiveTickets other_formats date_of_data f).
Proof.
  intros Hf key r. rewrite lookup_loadActiveTickets.
  destruct (persisted f key) as [v|] eqn:Hv; [|done].
  intros [= <-]. unfold revive.
  rewrite !revive_date_other by done.
  destruct (truthy (field (of_json <$> v) "channelId")) eqn:Ht; simpl.
  - destruct (Hf key v Hv) as [Hk | Hk]; [|congruence].
    by rewrite lookup_fmap, Hk.
  - apply lookup_insert_eq.
Qed.

Lemma serialize_keyed (tickets : registry) :
  channel_keyed tickets → file_keyed (Doc (serialize tickets)).
Proof.
  intros Ht key v. simpl.
  intros (_ & r & Hr & ->)%lookup_serialize_Some. left. unfold stringify.
  rewrite lookup_omap, (Ht key r Hr). done.
Qed.

End Keyed.

(** ** What single handler runs do *)

Section Runs.
Import Tickets.

Variable other_formats : string → option Z.
Variable date_of_data : json → option Z.
Variable cfg : Config.

Abbreviation loaded' := (loaded other_formats date_of_data).
Abbreviation step' := (step other_formats date_of_data cfg).
Abbreviation exec' := (exec other_formats date_of_data cfg).

Lemma ensureTicketsLoaded_run (s : State) (o : list Output) :
  ensureTicketsLoaded other_formats date_of_data s o = (Some (), loaded' s, o).
Proof.
  unfold loaded, run.
  cbv [ensureTicketsLoaded mbind M_bind get_state put_state mret M_ret].
  by destruct (ticketsLoaded s).
Qed.

Lemma loaded_ticketsLoaded (s : State) : ticketsLoaded (loaded' s) = true.
Proof.
  unfold loaded, run.
  cbv [ensureTicketsLoaded mbind M_bind get_state put_state mret M_ret].
  by destruct (ticketsLoaded s) eqn:H.
Qed.

Lemma loaded_id (s : State) : ticketsLoaded s = true → loaded' s = s.
Proof.
  intros H. unfold loaded, run.
  cbv [ensureTicketsLoaded mbind M_bind get_state put_state mret M_ret].
  by rewrite H.
Qed.

Lemma loaded_idemp (s : State) : loaded' (loaded' s) = loaded' s.
Proof. apply loaded_id, loaded_ticketsLoaded. Qed.

Lemma has_ticket_true (s : State) (c : string) (r : record) :
  activeTickets s !! c = Some r → has_ticket s c = true.
Proof. intros H. unfold has_ticket. rewrite H. by apply bool_decide_eq_true_2. Qed.

Lemma has_ticket_false (s : State) (c : string) :
  activeTickets s !! c = None → has_ticket s c = false.
Proof.
  intros H. unfold has_ticket. rewrite H. apply bool_decide_eq_false_2.
  by intros [? ?].
Qed.

Ltac mrun :=
  repeat first
    [ rewrite ensureTicketsLoaded_run
    | rewrite loaded_idemp
    | progress cbv [run step handle safeInteractionHandler on_button when
                    closeTicket closeTicketConfirmed closeTicketCancelled
                    reopenTicket deleteTicket createTranscript
                    createTicket createTicketWithFormData
                    try_catch mbind M_bind get_ticket get_state put_state
                    mret M_ret throw emit tickets_set tickets_delete
                    permissionOverwrites_edit channel_send
                    transcript_for_deletion schedule_delete
                    set_tickets set_file new_Date_now]
    | progress simpl ].

(** No record: the management buttons answer [msg_not_a_ticket] and
    change nothing beyond the lazy load. *)
Lemma management_without_record
    (env : Env) (s : State) (customId c : string) (m : Member) :
  management customId → buttonToPanel cfg customId = None →
  activeTickets (loaded' s) !! c = None →
  step' env (Button customId c m) s = (loaded' s, [Reply msg_not_a_ticket]).
Proof.
  intros Hid Hp Hr. pose proof (has_ticket_false _ _ Hr) as Hh.
  destruct Hid as [-> | [-> | [-> | ->]]];
    mrun; rewrite Hp; mrun; rewrite Hh; mrun; done.
Qed.

Lemma cancel_run (env : Env) (s : State) (c : string) (m : Member) :
  buttonToPanel cfg "ticket_close_cancel" = None →
  step' env (Button "ticket_close_cancel" c m) s
  = (s, [Reply "Ticket closure cancelled."]).
Proof. intros Hp. mrun. rewrite Hp. mrun. done. Qed.

Lemma confirm_without_record
    (env : Env) (s : State) (c : string) (m : Member) :
  buttonToPanel cfg "ticket_close_confirm" = None →
  activeTickets (loaded' s) !! c = None →
  step' env (Button "ticket_close_confirm" c m) s
  = (loaded' s, [ConsoleError "Error closing ticket";
                 ConsoleError "Failed to send error message to channel"]).
Proof. intros Hp Hr. mrun. rewrite Hp. mrun. rewrite Hr. mrun. done. Qed.

(** An actor who is not staff for the ticket's type is turned away by
    the three gated buttons. *)
Lemma sensitive_denied
    (env : Env) (s : State) (customId c : string) (m : Member) (r : record) :
  sensitive customId → buttonToPanel cfg customId = None →
  activeTickets (loaded' s) !! c = Some r →
  isStaff cfg m (field r "type") = false →
  step' env (Button customId c m) s = (loaded' s, [Reply msg_staff_only]).
Proof.
  intros Hid Hp Hr Hst. pose proof (has_ticket_true _ _ _ Hr) as Hh.
  destruct Hid as [-> | [-> | ->]];
    mrun; rewrite Hp; mrun; rewrite Hh; mrun; rewrite Hr; mrun;
    rewrite Hst; mrun; done.
Qed.

Lemma isStaff_false (m : Member) (t : jsval) :
  isAdministrator m = false →
  (∀ role, role ∈ getTicketRoles cfg t → has_role m role = false) →
  isStaff cfg m t = false.
Proof.
  intros Ha Hr. unfold isStaff. rewrite Ha. simpl.
  apply not_true_is_false. intros He.
  apply existsb_exists in He as (role & Hin & Hrole).
  apply list_elem_of_In in Hin. rewrite (Hr role Hin) in Hrole. done.
Qed.

(** The close request: a prompt (or a refusal), no change. *)
Lemma close_request_run
    (env : Env) (s : State) (c : string) (m : Member) (r : record) :
  buttonToPanel cfg "ticket_close" = None →
  activeTickets (loaded' s) !! c = Some r →
  step' env (Button "ticket_close" c m) s
  = (loaded' s,
     if isStaff cfg m (field r "type") then [ClosePrompt]
     else [Reply msg_staff_only]).
Proof.
  intros Hp Hr. pose proof (has_ticket_true _ _ _ Hr) as Hh.
  mrun. rewrite Hp. mrun. rewrite Hh. mrun. rewrite Hr. mrun.
  destruct (isStaff cfg m (field r "type")); mrun; [|done].
  rewrite Hh. mrun. done.
Qed.

Lemma confirm_registry
    (env : Env) (s : State) (c u ty : string) (m : Member) (r : record) :
  buttonToPanel cfg "ticket_close_confirm" = None →
  activeTickets (loaded' s) !! c = Some r →
  field r "userId" = VStr u → field r "type" = VStr ty →
  permissionEdit_ok env = true → channelSend_ok env = true →
  let s' := (step' env (Button "ticket_close_confirm" c m) s).1 in
  activeTickets s' = <[c := closed_by r (userId m) (now env)]>
                       (activeTickets (loaded' s))
  ∧ ticketsLoaded s' = true.
Proof.
  intros Hp Hr Hu Hty He Hs.
  pose proof (loaded_ticketsLoaded s) as Hl.
  mrun. rewrite Hp. mrun. rewrite Hr. mrun. rewrite Hu. mrun.
  rewrite He. mrun. rewrite Hs. mrun. rewrite Hr. mrun. rewrite Hty.
  cbv [logTicketAction saveActiveTickets mbind M_bind get_state put_state
       mret M_ret throw emit].
  destruct (logChannel cfg); [case_bool_decide|];
    destruct (writeFile env); done.
Qed.

Lemma reopen_registry
    (env : Env) (s : State) (c u ty : string) (m : Member) (r : record) :
  buttonToPanel cfg "ticket_reopen" = None →
  activeTickets (loaded' s) !! c = Some r →
  field r "userId" = VStr u → field r "type" = VStr ty →
  isStaff cfg m (VStr ty) = true →
  permissionEdit_ok env = true → channelSend_ok env = true →
  let s' := (step' env (Button "ticket_reopen" c m) s).1 in
  activeTickets s' = <[c := reopened_by r (userId m) (now env)]>
                       (activeTickets (loaded' s))
  ∧ ticketsLoaded s' = true.
Proof.
  intros Hp Hr Hu Hty Hst He Hs.
  pose proof (loaded_ticketsLoaded s) as Hl.
  pose proof (has_ticket_true _ _ _ Hr) as Hh.
  mrun. rewrite Hp. mrun. rewrite Hh. mrun. rewrite Hr. mrun.
  rewrite Hty, Hst. mrun. rewrite Hh. mrun. rewrite Hr. mrun.
  rewrite Hu. mrun. rewrite He. mrun. rewrite Hs. mrun. rewrite Hr. mrun.
  rewrite Hty.
  cbv [logTicketAction saveActiveTickets mbind M_bind get_state put_state
       mret M_ret throw emit].
  destruct (logChannel cfg); [case_bool_decide|];
    destruct (writeFile env); done.
Qed.

Lemma delete_registry
    (env : Env) (s : State) (c ty : string) (m : Member) (r : record) :
  buttonToPanel cfg "ticket_delete" = None →
  activeTickets (loaded' s) !! c = Some r →
  field r "type" = VStr ty →
  isStaff cfg m (VStr ty) = true →
  let s' := (step' env (Button "ticket_delete" c m) s).1 in
  activeTickets s' = delete c (activeTickets (loaded' s))
  ∧ ticketsLoaded s' = true
  ∧ (writeFile env = WriteOk →
     file s' = Doc (serialize (delete c (activeTickets (loaded' s))))).
Proof.
  intros Hp Hr Hty Hst.
  pose proof (loaded_ticketsLoaded s) as Hl.
  pose proof (has_ticket_true _ _ _ Hr) as Hh.
  mrun. rewrite Hp. mrun. rewrite Hh. mrun. rewrite Hr. mrun.
  rewrite Hty, Hst. mrun. rewrite Hh. mrun. rewrite Hr. mrun.
  rewrite Hty.
  cbv [logTicketAction saveActiveTickets mbind M_bind get_state put_state
       mret M_ret throw emit].
  destruct (transcript_ok env);
    (destruct (logChannel cfg); [case_bool_decide|]);
    destruct (writeFile env); done.
Qed.

(** Creation refused by the quota: a reply, and no change. *)
Lemma createTicket_denied
    (env : Env) (s : State) (m : Member) (ty message : string) :
  deferReply_ok env = true →
  checkQuota cfg (activeTickets (loaded' s)) (userId m) ty = Deny message →
  run (createTicket other_formats date_of_data cfg env m ty) s
  = (loaded' s, [Reply message]).
Proof. intros Hd Hq. mrun. rewrite Hd. mrun. rewrite Hq. done. Qed.

Lemma createTicketWithFormData_denied
    (env : Env) (s : State) (m : Member) (ty message : string)
    (formData : jsval) :
  checkQuota cfg (activeTickets (loaded' s)) (userId m) ty = Deny message →
  run (createTicketWithFormData other_formats date_of_data cfg env
         m ty formData) s
  = (loaded' s, [Reply message]).
Proof. intros Hq. mrun. rewrite Hq. done. Qed.

(** Creation let through by the quota: once the channel exists the
    record is in the registry. *)
Lemma createTicket_allowed
    (env : Env) (s : State) (m : Member) (ty id : string) :
  deferReply_ok env = true →
  checkQuota cfg (activeTickets (loaded' s)) (userId m) ty = Allow →
  created_channel env = Some id →
  activeTickets (run (createTicket other_formats date_of_data cfg env m ty) s).1
  = <[id := <["createdAt" := VDate (Some (now env))]>
               (<["type" := VStr ty]>
                  (<["userId" := VStr (userId m)]>
                     {["channelId" := VStr id]}))]>
      (activeTickets (loaded' s)).
Proof.
  intros Hd Hq Hid. mrun. rewrite Hd. mrun. rewrite Hq.
  cbv [try_catch mbind M_bind channels_create]. rewrite Hid.
  cbv [mbind M_bind get_state put_state mret M_ret tickets_set set_tickets
       saveActiveTickets channel_send logTicketAction throw emit set_file
       new_Date_now].
  simpl.
  destruct (writeFile env); simpl; try done;
    destruct (channelSend_ok env); simpl; try done;
    (destruct (logChannel cfg); [case_bool_decide|]); done.
Qed.

(** ** A creation and its two parts *)

(** Run one after the other, with nothing in between, the two parts of
    a creation are the handler. *)
Lemma createTicket_cut
    (env : Env) (m : Member) (ty : string) (s : State) (o : list Output) :
  createTicket other_formats date_of_data cfg env m ty s o
  = (asked ← createTicket_asks other_formats date_of_data cfg env m ty;
     when asked (createTicket_goes_on cfg env m ty)) s o.
Proof.
  unfold createTicket, createTicket_asks, createTicket_goes_on.
  destruct (deferReply_ok env); [|done]. simpl.
  cbv [mbind M_bind]. rewrite !ensureTicketsLoaded_run.
  cbv [get_state].
  by destruct (checkQuota cfg (activeTickets (loaded' s)) (userId m) ty).
Qed.

Lemma createTicketWithFormData_cut
    (env : Env) (m : Member) (ty : string) (formData : jsval)
    (s : State) (o : list Output) :
  createTicketWithFormData other_formats date_of_data cfg env m ty formData
    s o
  = (asked ← createTicketWithFormData_asks other_formats date_of_data cfg
               m ty;
     when asked (createTicketWithFormData_goes_on cfg env m ty formData)) s o.
Proof.
  unfold createTicketWithFormData, createTicketWithFormData_asks,
    createTicketWithFormData_goes_on.
  cbv [mbind M_bind]. rewrite !ensureTicketsLoaded_run.
  cbv [get_state].
  by destruct (checkQuota cfg (activeTickets (loaded' s)) (userId m) ty).
Qed.

End Runs.

(* ===================================================================== *)
(** * The registry invariant                                              *)
(* ===================================================================== *)

Section RegistryInvariant.
Import Tickets.

Variable other_formats : string → option Z.
Variable date_of_data : json → option Z.
Variable cfg : Config.

Lemma keyed_exec (trace : list (Env * Event)) (s : State) :
  keyed (activeTickets s) (file s) →
  keyed (activeTickets (exec other_formats date_of_data cfg trace s))
        (file (exec other_formats date_of_data cfg trace s)).
Proof.
  apply (exec_holds other_formats date_of_data cfg keyed carries_key
           (λ _, True)).
  - intros t f [_ Hf]. split; [by apply load_keyed | done].
  - intros t f [Ht _]. split; [done | by apply serialize_keyed].
  - intros t f [Ht _]. split; [done | by intros k v].
  - intros t f c [Ht Hf]. split; [|done].
    intros k r Hk. apply lookup_delete_Some in Hk as [_ Hk]. by apply Ht.
  - intros t f chans [Ht Hf]. split; [|done].
    intros k r Hk. apply map_lookup_filter_Some in Hk as [Hk _]. by apply Ht.
  - intros t f c v [Ht Hf] Hv. split; [|done].
    intros k r Hk. destruct (decide (c = k)) as [->|Hne].
    + rewrite lookup_insert_eq in Hk. by simplify_eq.
    + rewrite lookup_insert_ne in Hk by done. by apply Ht.
  - intros t f c r [Ht _] Hr. by apply Ht.
  - intros c r k x Hr Hk. unfold carries_key. by rewrite lookup_insert_ne.
  - by intros c r _ Hr.
  - apply Forall_forall. intros [env ev] _. by destruct ev.
Qed.

(** C10. In every state the process reaches from a file whose entries
    carry their own key (or no usable [channelId], which the load fills
    in from the key), a record stored under key [k] has [channelId = k];
    load, both creation paths, register-ticket and every other handler
    keep it so, and the file they write is keyed the same way. *)
Theorem registry_channel_keyed
    (f : disk) (chans : gset string)
    (ow : gmap (string * string) (gmap string bool))
    (trace : list (Env * Event)) (key : string) (value : record) :
  file_keyed f →
  activeTickets
    (exec other_formats date_of_data cfg trace
       (start other_formats date_of_data f chans ow)) !! key = Some value →
  field value "channelId" = VStr key.
Proof.
  intros Hf Hk.
  destruct (keyed_exec trace (start other_formats date_of_data f chans ow))
    as [Ht _].
  { split; [by apply load_keyed | done]. }
  unfold field. by rewrite (Ht key value Hk).
Qed.

End RegistryInvariant.

(* ===================================================================== *)
(** * The lifecycle transitions                                           *)
(* ===================================================================== *)

Section Lifecycle.
Import Tickets.

Variable other_formats : string → option Z.
Variable date_of_data : json → option Z.
Variable cfg : Config.

Abbreviation loaded'' := (loaded other_formats date_of_data).
Abbreviation step'' := (step other_formats date_of_data cfg).
Abbreviation exec'' := (exec other_formats date_of_data cfg).

(** ** Deleted records stay away *)

Lemma absent_exec (c : string) (trace : list (Env * Event)) (s : State) :
  not_attached c trace →
  absent c (activeTickets s) (file s) →
  absent c (activeTickets (exec'' trace s)) (file (exec'' trace s)).
Proof.
  intros Htr.
  apply (exec_holds other_formats date_of_data cfg (absent c)
           (λ c' _, c' ≠ c) (λ c', c' ≠ c)).
  - intros t f [_ Hf]. split; [|done].
    by rewrite lookup_loadActiveTickets, Hf.
  - intros t f [Ht _]. split; [done|]. simpl.
    by apply lookup_serialize_None.
  - by intros t f [Ht _].
  - intros t f c' [Ht Hf]. split; [|done].
    apply lookup_delete_None. by right.
  - intros t f chans [Ht Hf]. split; [|done].
    apply map_lookup_filter_None. by left.
  - intros t f c' v [Ht Hf] Hv. split; [|done].
    by rewrite lookup_insert_ne.
  - intros t f c' r [Ht _] Hr ->. congruence.
  - done.
  - done.
  - eapply Forall_impl; [exact Htr|]. intros [env ev] Hev.
    destruct ev; simpl in *; try done; intros id Hid ->; by apply Hev.
Qed.

(** ** C7 *)

(** C7. For an open ticket record, a close request followed by a cancel
    leaves the record exactly as it was: the record found afterwards is
    the same one, so [closed] is still false and [closedAt] is what it
    was; neither step changes the registry, the file or the
    permissions. [loaded s] is the state the router works on (the
    registry is read from the file on first use). *)
Theorem close_request_then_cancel
    (env1 env2 : Env) (s : State) (c : string) (m1 m2 : Member) (r : record) :
  buttonToPanel cfg "ticket_close" = None →
  buttonToPanel cfg "ticket_close_cancel" = None →
  activeTickets (loaded'' s) !! c = Some r →
  truthy (field r "closed") = false →
  let s1 := (step'' env1 (Button "ticket_close" c m1) s).1 in
  let s2 := (step'' env2 (Button "ticket_close_cancel" c m2) s1).1 in
  s1 = loaded'' s ∧ s2 = loaded'' s
  ∧ ∃ r', activeTickets s2 !! c = Some r' ∧ r' = r
          ∧ truthy (field r' "closed") = false
          ∧ field r' "closedAt" = field r "closedAt".
Proof.
  intros Hp1 Hp2 Hr Hopen s1 s2.
  assert (H1 : s1 = loaded'' s).
  { unfold s1. by rewrite (close_request_run _ _ _ _ _ _ _ r). }
  assert (H2 : s2 = loaded'' s).
  { unfold s2. rewrite cancel_run by done. done. }
  split; [done|]. split; [done|]. exists r. by rewrite H2.
Qed.

(** ** C6 *)

(** C6, as amended. For a channel with no record: the close-request,
    reopen, delete and transcript buttons answer "not a ticket" and
    change nothing; cancel looks nothing up and only discards the
    prompt; confirm changes nothing either. In each case registry, file
    and permissions are those of [loaded s]. *)
Theorem no_record_no_effect
    (env : Env) (s : State) (c : string) (m : Member) :
  (∀ customId, management customId → buttonToPanel cfg customId = None) →
  buttonToPanel cfg "ticket_close_cancel" = None →
  buttonToPanel cfg "ticket_close_confirm" = None →
  activeTickets (loaded'' s) !! c = None →
  (∀ customId, management customId →
     step'' env (Button customId c m) s
     = (loaded'' s, [Reply msg_not_a_ticket]))
  ∧ step'' env (Button "ticket_close_cancel" c m) s
    = (s, [Reply "Ticket closure cancelled."])
  ∧ (step'' env (Button "ticket_close_confirm" c m) s).1 = loaded'' s.
Proof.
  intros Hpm Hpc Hpf Hr. split; [|split].
  - intros customId Hid. apply management_without_record; auto.
  - by apply cancel_run.
  - by rewrite confirm_without_record.
Qed.

(** ** C2 *)

(** C2, as amended. Close request, confirm, reopen: the record ends
    with [closed = false], [closedAt] and [closedBy] from the confirm,
    [reopenedAt] and [reopenedBy] from the reopen; [reopenedAt] is later
    than [closedAt] exactly when the clock read later at the reopen
    than at the confirm. *)
Theorem close_confirm_reopen
    (env1 env2 env3 : Env) (s : State) (c u ty : string)
    (m1 m2 m3 : Member) (r : record) :
  buttonToPanel cfg "ticket_close" = None →
  buttonToPanel cfg "ticket_close_confirm" = None →
  buttonToPanel cfg "ticket_reopen" = None →
  activeTickets (loaded'' s) !! c = Some r →
  field r "userId" = VStr u → field r "type" = VStr ty →
  isStaff cfg m3 (VStr ty) = true →
  permissionEdit_ok env2 = true → channelSend_ok env2 = true →
  permissionEdit_ok env3 = true → channelSend_ok env3 = true →
  let s3 := exec'' [(env1, Button "ticket_close" c m1);
                    (env2, Button "ticket_close_confirm" c m2);
                    (env3, Button "ticket_reopen" c m3)] s in
  ∃ r3, activeTickets s3 !! c = Some r3
        ∧ field r3 "closed" = VBool false
        ∧ field r3 "closedAt" = VDate (Some (now env2))
        ∧ field r3 "closedBy" = VStr (userId m2)
        ∧ field r3 "reopenedAt" = VDate (Some (now env3))
        ∧ field r3 "reopenedBy" = VStr (userId m3)
        ∧ date_lt (field r3 "closedAt") (field r3 "reopenedAt")
          = (now env2 <? now env3).
Proof.
  intros Hp1 Hp2 Hp3 Hr Hu Hty Hst He2 Hs2 He3 Hs3 s3.
  unfold s3, exec. simpl.
  rewrite (close_request_run _ _ _ _ _ _ _ r) by done. simpl.
  destruct (confirm_registry other_formats date_of_data cfg env2
              (loaded'' s) c u ty m2 r) as [Hreg2 Hl2]; try done.
  { by rewrite loaded_idemp. }
  rewrite loaded_idemp in Hreg2.
  set (s2 := (step'' env2 (Button "ticket_close_confirm" c m2) (loaded'' s)).1)
    in *.
  set (r2 := closed_by r (userId m2) (now env2)) in *.
  assert (Hr2 : activeTickets (loaded'' s2) !! c = Some r2).
  { rewrite loaded_id by done. rewrite Hreg2. apply lookup_insert_eq. }
  destruct (reopen_registry other_formats date_of_data cfg env3
              s2 c u ty m3 r2) as [Hreg3 _]; try done.
  { unfold r2, closed_by, field. by rewrite !lookup_insert_ne. }
  { unfold r2, closed_by, field. by rewrite !lookup_insert_ne. }
  exists (reopened_by r2 (userId m3) (now env3)).
  rewrite Hreg3. split; [apply lookup_insert_eq|].
  unfold reopened_by, r2, closed_by, field.
  repeat split;
    repeat first [ rewrite lookup_insert_eq | rewrite lookup_insert_ne by done ];
    done.
Qed.

(** ** C5 *)

(** C5, as amended. Delete by a staff member removes the record from
    the registry and, when the write succeeds, from the file; from then
    on, as long as no record is attached to that channel again, neither
    holds an entry for it (also across restarts) and the close-request,
    reopen, delete and transcript buttons answer "not a ticket" and
    change nothing. *)
Theorem delete_removes_record
    (env : Env) (s : State) (c ty : string) (m : Member) (r : record)
    (trace : list (Env * Event)) :
  (∀ customId, management customId → buttonToPanel cfg customId = None) →
  activeTickets (loaded'' s) !! c = Some r →
  field r "type" = VStr ty →
  isStaff cfg m (VStr ty) = true →
  writeFile env = WriteOk →
  not_attached c trace →
  let s' := (step'' env (Button "ticket_delete" c m) s).1 in
  let s'' := exec'' trace s' in
  activeTickets s' !! c = None ∧ persisted (file s') c = None
  ∧ activeTickets s'' !! c = None ∧ persisted (file s'') c = None
  ∧ ∀ env' customId m', management customId →
      step'' env' (Button customId c m') s''
      = (loaded'' s'', [Reply msg_not_a_ticket]).
Proof.
  intros Hpm Hr Hty Hst Hw Htr s' s''.
  destruct (delete_registry other_formats date_of_data cfg env s c ty m r)
    as (Hreg & _ & Hfile); auto.
  { apply Hpm. right. by left. }
  specialize (Hfile Hw). fold s' in Hreg, Hfile.
  assert (Habs : absent c (activeTickets s') (file s')).
  { split.
    - rewrite Hreg. apply lookup_delete_eq.
    - rewrite Hfile. simpl. apply lookup_serialize_None, lookup_delete_eq. }
  pose proof (absent_exec c trace s' Htr Habs) as Habs''. fold s'' in Habs''.
  destruct Habs as [Ha1 Ha2]. destruct Habs'' as [Hb1 Hb2].
  repeat split; try done.
  intros env' customId m' Hid.
  apply management_without_record; auto.
  unfold loaded, run.
  cbv [ensureTicketsLoaded mbind M_bind get_state put_state mret M_ret].
  destruct (ticketsLoaded s''); simpl; [done|].
  by rewrite lookup_loadActiveTickets, Hb2.
Qed.

(** ** C3 *)

(** An actor with no administrative privilege and none of the staff
    roles of the ticket's type is refused close request, reopen and
    delete, and nothing changes. The confirm button of the close prompt
    is not among them: the router sends it on unchecked. *)
Lemma gated_buttons_refuse
    (env : Env) (s : State) (customId c : string) (m : Member) (r : record) :
  sensitive customId → buttonToPanel cfg customId = None →
  activeTickets (loaded'' s) !! c = Some r →
  isAdministrator m = false →
  (∀ role, role ∈ getTicketRoles cfg (field r "type") →
           has_role m role = false) →
  step'' env (Button customId c m) s = (loaded'' s, [Reply msg_staff_only])
  ∧ activeTickets (loaded'' s) !! c = Some r.
Proof.
  intros Hid Hp Hr Ha Hroles. split; [|done].
  eapply sensitive_denied; eauto. by apply isStaff_false.
Qed.

End Lifecycle.

(* ===================================================================== *)
(** * Save and load                                                       *)
(* ===================================================================== *)

Section RoundTrip.
Import Tickets.

Variable other_formats : string → option Z.
Variable date_of_data : json → option Z.

Lemma str_app_not_empty (a : string) (c : ascii) (b : string) :
  a +:+ String c b ≠ "".
Proof. by destruct a. Qed.

Lemma toISOString_not_empty (t : Z) :
  String.eqb (JSDate.toISOString t) "" = false.
Proof.
  apply String.eqb_neq. unfold JSDate.toISOString.
  change ("-" +:+ ?x) with (String "-" x).
  apply str_app_not_empty.
Qed.

(** A timestamp written and read back. *)
Lemma timestamp_round_trip (v : jsval) :
  timestamp v →
  let v' := default VUndef (of_json <$> to_json v) in
  instant (if truthy v' then new_Date other_formats date_of_data v' else v')
  = instant v.
Proof.
  intros Hv. destruct v as [p|[t|]|]; simpl in *; try done.
  - destruct p; simpl in *; try done; by rewrite Hv.
  - rewrite toISOString_not_empty. simpl. by rewrite parse_toISOString.
Qed.

Lemma field_parsed_stringify (r : record) (f : string) :
  field (of_json <$> stringify r) f
  = default VUndef (of_json <$> to_json (field r f)).
Proof.
  unfold field, stringify. rewrite lookup_fmap, lookup_omap.
  by destruct (r !! f) as [v|].
Qed.

Lemma field_insert_ne (r : record) (k f : string) (x : jsval) :
  k ≠ f → field (<[k := x]> r) f = field r f.
Proof. intros H. unfold field. by rewrite lookup_insert_ne. Qed.

Lemma field_insert_eq (r : record) (f : string) (x : jsval) :
  field (<[f := x]> r) f = x.
Proof. unfold field. by rewrite lookup_insert_eq. Qed.

Lemma field_revive_date (k f : string) (value : record) :
  field (revive_date other_formats date_of_data k value) f
  = if decide (k = f)
    then (if truthy (field value f)
          then new_Date other_formats date_of_data (field value f)
          else field value f)
    else field value f.
Proof.
  unfold revive_date. case_decide as Hk.
  - subst k. destruct (truthy (field value f)); [|done].
    apply field_insert_eq.
  - destruct (truthy (field value k)); [|done]. by apply field_insert_ne.
Qed.

Lemma field_revive (key f : string) (value : record) :
  timestamp_field f →
  field (revive other_formats date_of_data key value) f
  = if truthy (field value f)
    then new_Date other_formats date_of_data (field value f)
    else field value f.
Proof.
  intros Hf. unfold revive. rewrite !field_revive_date.
  set (value1 := if negb (truthy (field value "channelId")) then _ else _).
  assert (H1 : ∀ g, timestamp_field g → field value1 g = field value g).
  { intros g Hg. unfold value1.
    destruct (negb (truthy (field value "channelId"))); [|done].
    apply field_insert_ne. by destruct Hg as [-> | [-> | ->]]. }
  destruct Hf as [-> | [-> | ->]]; repeat case_decide; try done;
    rewrite !H1 by (unfold timestamp_field; auto); done.
Qed.

(** C8, as amended. Saving a map and loading it back yields, under
    every key but [__proto__], a record whose [createdAt], [closedAt]
    and [reopenedAt] denote the same instants as before, to the
    millisecond and so to the second. (A record under the key
    [__proto__] is not written at all.) *)
Theorem save_load_timestamps
    (tickets : registry) (key : string) (value : record) (f : string) :
  key ≠ "__proto__" →
  tickets !! key = Some value →
  timestamp_field f →
  timestamp (field value f) →
  ∃ value',
    loadActiveTickets other_formats date_of_data (Doc (serialize tickets))
      !! key = Some value'
    ∧ instant (field value' f) = instant (field value f)
    ∧ (λ t, t / 1000) <$> instant (field value' f)
      = (λ t, t / 1000) <$> instant (field value f).
Proof.
  intros Hproto Hk Hf Ht.
  exists (revive other_formats date_of_data key (of_json <$> stringify value)).
  assert (Hi : instant (field (revive other_formats date_of_data key
                                 (of_json <$> stringify value)) f)
               = instant (field value f)).
  { rewrite field_revive by done. rewrite field_parsed_stringify.
    by apply timestamp_round_trip. }
  split; [|split; [done | by rewrite Hi]].
  rewrite lookup_loadActiveTickets. simpl.
  by rewrite lookup_serialize, Hk.
Qed.

End RoundTrip.

(* ===================================================================== *)
(** * Authorization and quota                                             *)
(* ===================================================================== *)

Section Policy.
Import Tickets.

Lemma elem_of_set_of (seen l : list prim) (p : prim) :
  p ∈ set_of seen l ↔ p ∈ l ∧ p ∉ seen.
Proof.
  revert seen. induction l as [|x l IH]; intros seen; simpl.
  - rewrite elem_of_nil. tauto.
  - case_bool_decide as Hx.
    + rewrite IH, elem_of_cons. split.
      * intros [Hp Hn]. split; [by right | done].
      * intros [[-> | Hp] Hn]; [done | by split].
    + rewrite !elem_of_cons, IH, elem_of_cons. split.
      * intros [-> | [Hp Hn]].
        -- split; [by left | done].
        -- split; [by right|]. intros Hin. apply Hn. by right.
      * intros [[-> | Hp] Hn]; [by left|].
        destruct (decide (p = x)) as [-> | Hne]; [by left | right].
        split; [done|]. intros [Heq | Hin]; [done | by apply Hn].
Qed.

Lemma NoDup_set_of (seen l : list prim) : NoDup (set_of seen l).
Proof.
  revert seen. induction l as [|x l IH]; intros seen; simpl.
  - constructor.
  - case_bool_decide as Hx; [apply IH|].
    constructor; [|apply IH].
    rewrite elem_of_set_of. intros [_ Hn]. apply Hn. by left.
Qed.

(** ** Quota *)

Lemma str_app_cons' (c : ascii) (s r : string) :
  String c s +:+ r = String c (s +:+ r).
Proof. reflexivity. Qed.

Lemma limit_messages_differ (cfg : Config) (ticketType : string) :
  msg_total_limit cfg ≠ msg_type_limit cfg ticketType.
Proof.
  unfold msg_total_limit, msg_type_limit.
  rewrite !str_app_cons'. intros H. by simplify_eq.
Qed.

Lemma checkQuota_cases (cfg : Config) (tickets : registry)
    (user ticketType : string) :
  let total := Z.of_nat (length (userTickets tickets user)) in
  let ofType := Z.of_nat (length (userTicketsOfType tickets user ticketType)) in
  (maxTotal cfg <= total →
   checkQuota cfg tickets user ticketType = Deny (msg_total_limit cfg))
  ∧ (total < maxTotal cfg → maxPerType cfg <= ofType →
     checkQuota cfg tickets user ticketType
     = Deny (msg_type_limit cfg ticketType))
  ∧ (total < maxTotal cfg → ofType < maxPerType cfg →
     checkQuota cfg tickets user ticketType = Allow).
Proof.
  intros total ofType. unfold checkQuota. fold total ofType.
  repeat split; intros;
    repeat match goal with
           | |- context [?a >=? ?b] => destruct (Z.geb_spec a b)
           end; (done || lia).
Qed.

Lemma elem_of_userTickets (tickets : registry) (user : string) (r : record) :
  r ∈ userTickets tickets user
  ↔ r ∈ values tickets ∧ is_str (field r "userId") user = true
    ∧ truthy (field r "closed") = false.
Proof.
  unfold userTickets. rewrite !list_elem_of_In, filter_In.
  rewrite andb_true_iff, negb_true_iff. tauto.
Qed.

(** C4. A creation request counts the user's open tickets only. With
    at least [maxTotal] of them (10 unless configured) it is refused
    with the message of the total limit; otherwise, with at least
    [maxPerType] open ones of the requested type (3 unless configured),
    it is refused with the message of the per-type limit; the two
    messages differ. Both creation paths do so and change nothing. In
    particular, with the default limits, a user with three open tickets
    of type [X], none of type [Y] and fewer than ten in all is refused
    another [X] and let through for [Y]. Each message says which limit
    it is: the first gives the total limit as a limit of open tickets,
    the second gives the per-type limit and names the type (by its
    display name; a type that has none, with its first letter in
    upper case). *)
Theorem quota_guard
    (other_formats : string → option Z) (date_of_data : json → option Z)
    (cfg : Config) (env : Env) (s : State) (m : Member)
    (ty : string) (formData : jsval) :
  let tickets := activeTickets (loaded other_formats date_of_data s) in
  let total := Z.of_nat (length (userTickets tickets (userId m))) in
  let ofType t :=
    Z.of_nat (length (userTicketsOfType tickets (userId m) t)) in
  deferReply_ok env = true →
  (maxTicketsPerUser cfg = None → maxTotal cfg = 10)
  ∧ (maxTicketsPerUserPerType cfg = None → maxPerType cfg = 3)
  ∧ (∀ r, r ∈ userTickets tickets (userId m)
          ↔ r ∈ values tickets ∧ is_str (field r "userId") (userId m) = true
            ∧ truthy (field r "closed") = false)
  ∧ (maxTotal cfg <= total →
     run (createTicket other_formats date_of_data cfg env m ty) s
     = (loaded other_formats date_of_data s, [Reply (msg_total_limit cfg)])
     ∧ run (createTicketWithFormData other_formats date_of_data cfg env
              m ty formData) s
       = (loaded other_formats date_of_data s, [Reply (msg_total_limit cfg)]))
  ∧ (total < maxTotal cfg → maxPerType cfg <= ofType ty →
     run (createTicket other_formats date_of_data cfg env m ty) s
     = (loaded other_formats date_of_data s,
        [Reply (msg_type_limit cfg ty)])
     ∧ run (createTicketWithFormData other_formats date_of_data cfg env
              m ty formData) s
       = (loaded other_formats date_of_data s,
          [Reply (msg_type_limit cfg ty)]))
  ∧ msg_total_limit cfg ≠ msg_type_limit cfg ty
  ∧ (∀ X Y id, maxTicketsPerUser cfg = None →
       maxTicketsPerUserPerType cfg = None →
       ofType X = 3 → ofType Y = 0 → total < 10 →
       created_channel env = Some id →
       checkQuota cfg tickets (userId m) X = Deny (msg_type_limit cfg X)
       ∧ checkQuota cfg tickets (userId m) Y = Allow
       ∧ is_Some (activeTickets
                    (run (createTicket other_formats date_of_data cfg env m Y)
                       s).1 !! id))
  ∧ msg_total_limit cfg
    = "You have reached the maximum limit of " +:+ string_of_Z (maxTotal cfg)
      +:+ " open tickets. Please close some of your existing tickets before creating more."
  ∧ msg_type_limit cfg ty
    = "You can only have " +:+ string_of_Z (maxPerType cfg) +:+ " open "
      +:+ formatTicketType ty
      +:+ " tickets at once. Please close some of your existing "
      +:+ formatTicketType ty +:+ " tickets before creating more."
  ∧ (maxTicketsPerUser cfg = None →
     msg_total_limit cfg
     = "You have reached the maximum limit of 10 open tickets. Please close some of your existing tickets before creating more.")
  ∧ (maxTicketsPerUserPerType cfg = None →
     msg_type_limit cfg "support"
     = "You can only have 3 open Support tickets at once. Please close some of your existing Support tickets before creating more."
     ∧ msg_type_limit cfg "bookUs"
       = "You can only have 3 open Book Us tickets at once. Please close some of your existing Book Us tickets before creating more."
     ∧ msg_type_limit cfg "joinTeam"
       = "You can only have 3 open Join the Team tickets at once. Please close some of your existing Join the Team tickets before creating more."
     ∧ msg_type_limit cfg "partnership"
       = "You can only have 3 open Partnership tickets at once. Please close some of your existing Partnership tickets before creating more."
     ∧ msg_type_limit cfg "founders"
       = "You can only have 3 open Founders Manager tickets at once. Please close some of your existing Founders Manager tickets before creating more."
     ∧ msg_type_limit cfg "hr"
       = "You can only have 3 open HR Department tickets at once. Please close some of your existing HR Department tickets before creating more."
     ∧ msg_type_limit cfg "billing"
       = "You can only have 3 open Billing tickets at once. Please close some of your existing Billing tickets before creating more.")
  ∧ (∀ r t, r ∈ userTicketsOfType tickets (userId m) t
            ↔ r ∈ userTickets tickets (userId m)
              ∧ is_str (field r "type") t = true).
Proof.
  intros tickets total ofType Hd.
  split; [by unfold maxTotal; intros ->|].
  split; [by unfold maxPerType; intros ->|].
  split; [apply elem_of_userTickets|].
  split; [|split; [|split; [apply limit_messages_differ|split]]].
  - intros Ht.
    destruct (checkQuota_cases cfg tickets (userId m) ty) as (H1 & _ & _).
    split; [apply createTicket_denied | apply createTicketWithFormData_denied];
      auto.
  - intros Ht Hty.
    destruct (checkQuota_cases cfg tickets (userId m) ty) as (_ & H2 & _).
    split; [apply createTicket_denied | apply createTicketWithFormData_denied];
      auto.
  - intros X Y id Hc1 Hc2 HX HY Ht Hid.
    assert (Hmt : maxTotal cfg = 10) by (unfold maxTotal; by rewrite Hc1).
    assert (Hmp : maxPerType cfg = 3) by (unfold maxPerType; by rewrite Hc2).
    destruct (checkQuota_cases cfg tickets (userId m) X) as (_ & HdX & _).
    destruct (checkQuota_cases cfg tickets (userId m) Y) as (_ & _ & HaY).
    fold total in HdX, HaY. fold (ofType X) in HdX. fold (ofType Y) in HaY.
    rewrite Hmt, Hmp in HdX, HaY.
    split; [apply HdX; lia|]. split; [apply HaY; lia|].
    rewrite (createTicket_allowed _ _ _ _ _ _ _ id) by (auto; apply HaY; lia).
    rewrite lookup_insert_eq. by eexists.
  - split; [done|]. split; [done|]. split; [|split].
    + intros Hc. unfold msg_total_limit, maxTotal. by rewrite Hc.
    + intros Hc. unfold msg_type_limit, maxPerType. by rewrite Hc.
    + intros r t. unfold userTicketsOfType.
      by rewrite !list_elem_of_In, filter_In.
Qed.

End Policy.

(* ===================================================================== *)
(** * More about the save queue                                           *)
(* ===================================================================== *)

Section SaveQueueProgress.
Import SaveQueue SaveRuns.
Local Open Scope nat_scope.

Context {Snapshot Content : Type}.
Variable stringify : Snapshot → option Content.

Local Abbreviation QS := (@State Snapshot Content).
Local Abbreviation QE := (@Event Snapshot).

Lemma drain_timer (outcome : nat → bool * bool) (n : nat) (s : QS) :
  inv stringify s → length (saveQueue s) = n →
  writing s = [] → timers s = 1 →
  ∃ trace s', completions outcome trace
    ∧ exec stringify trace s = Some s'
    ∧ isSaving s' = false
    ∧ enqueued (history s') = enqueued (history s).
Proof.
  revert s. induction n as [|n IH]; intros s Hi Hn Hw Ht.
  - exists [Timer]. eexists. split; [by repeat constructor|].
    destruct (saveQueue s) eqn:Hq; [|done].
    simpl. unfold timerFired. rewrite Ht. unfold processNextSave. simpl.
    rewrite Hq. by repeat split.
  - destruct (saveQueue s) as [|r rest] eqn:Hq; [done|].
    simpl in Hn. injection Hn as Hn.
    destruct (step stringify Timer s) as [s1|] eqn:H1;
      [|simpl in H1; unfold timerFired in H1; by rewrite Ht in H1].
    pose proof (step_inv stringify _ _ _ Hi H1) as Hi1.
    simpl in H1. unfold timerFired in H1. rewrite Ht in H1.
    unfold processNextSave in H1. simpl in H1. rewrite Hq in H1.
    destruct (stringify (tickets r)) as [d|] eqn:Hs; injection H1 as <-.
    + destruct (outcome (promise r)) as [ok torn] eqn:Ho.
      match type of Hi1 with inv _ ?x => set (s1 := x) in * end.
      destruct (step stringify (WriteDone (promise r) ok torn) s1) as [s2|] eqn:H2.
      2: { simpl in H2. unfold writeDone in H2. simpl in H2.
           rewrite Hw in H2. simpl in H2. rewrite Nat.eqb_refl in H2.
           by destruct ok. }
      pose proof (step_inv stringify _ _ _ Hi1 H2) as Hi2.
      pose proof H2 as H2'.
      simpl in H2. unfold writeDone in H2. simpl in H2.
      rewrite Hw in H2. simpl in H2. rewrite Nat.eqb_refl in H2. simpl in H2.
      destruct (IH s2) as (trace & s' & Hc & Hex & Hsav & Henq); try done.
      { by destruct ok; injection H2 as <-. }
      { by destruct ok; injection H2 as <-. }
      { destruct ok; injection H2 as <-; simpl; lia. }
      exists (Timer :: WriteDone (promise r) ok torn :: trace), s'.
      split; [by repeat constructor|]. split.
      * change (exec stringify (Timer :: WriteDone (promise r) ok torn :: trace) s)
          with (s0 ← step stringify Timer s;
                exec stringify (WriteDone (promise r) ok torn :: trace) s0).
        assert (Hst : step stringify Timer s = Some s1).
        { simpl. unfold timerFired. rewrite Ht. unfold processNextSave.
          simpl. by rewrite Hq, Hs. }
        rewrite Hst. simpl. simpl in H2'. rewrite H2'. exact Hex.
      * split; [done|]. rewrite Henq.
        destruct ok; injection H2 as <-; simpl;
          rewrite !enqueued_app; simpl; by rewrite !app_nil_r.
    + match type of Hi1 with inv _ ?x => set (s1 := x) in * end.
      destruct (IH s1) as (trace & s' & Hc & Hex & Hsav & Henq); try done.
      exists (Timer :: trace), s'. split; [by repeat constructor|]. split.
      * change (exec stringify (Timer :: trace) s)
          with (s0 ← step stringify Timer s; exec stringify trace s0).
        assert (Hst : step stringify Timer s = Some s1).
        { simpl. unfold timerFired. rewrite Ht. unfold processNextSave.
          simpl. by rewrite Hq, Hs. }
        by rewrite Hst.
      * split; [done|]. rewrite Henq. simpl.
        rewrite !enqueued_app. simpl. by rewrite !app_nil_r.
Qed.

(** X1. From any state the run loop reaches, and whatever the outcome
    of each write, the completions that are due (the write in progress
    finishing, the timers firing) empty the queue: every request
    enqueued is settled, in enqueue order, and [isSaving] is back to
    [false]. *)
Theorem save_queue_drains
    (f : option Content) (s : QS) (outcome : nat → bool * bool) :
  reachable stringify f s →
  ∃ trace s', completions outcome trace
    ∧ exec stringify trace s = Some s'
    ∧ isSaving s' = false ∧ saveQueue s' = [] ∧ writing s' = []
    ∧ timers s' = 0
    ∧ enqueued (history s') = enqueued (history s)
    ∧ settled (history s') = map promise (enqueued (history s)).
Proof.
  intros Hr. pose proof (reachable_inv stringify f s Hr) as Hi.
  assert (Hd : ∃ trace s', completions outcome trace
             ∧ exec stringify trace s = Some s'
             ∧ isSaving s' = false
             ∧ enqueued (history s') = enqueued (history s)).
  { pose proof Hi as [Hc Hflag Hidle].
    destruct (isSaving s) eqn:Hsav.
    - destruct (writing s) as [|[p d] w] eqn:Hw; simpl in Hflag.
      + by apply (drain_timer outcome (length (saveQueue s))).
      + assert (w = [] ∧ timers s = 0) as [-> Ht]
          by (destruct w; simpl in Hflag; split; (done || lia)).
        destruct (outcome p) as [ok torn] eqn:Ho.
        destruct (step stringify (WriteDone p ok torn) s) as [s2|] eqn:H2.
        2: { simpl in H2. unfold writeDone in H2. rewrite Hw in H2.
             simpl in H2. rewrite Nat.eqb_refl in H2. by destruct ok. }
        pose proof (step_inv stringify _ _ _ Hi H2) as Hi2.
        pose proof H2 as H2'.
        simpl in H2. unfold writeDone in H2. rewrite Hw in H2.
        simpl in H2. rewrite Nat.eqb_refl in H2. simpl in H2.
        destruct (drain_timer outcome (length (saveQueue s2)) s2)
          as (trace & s' & Hcs & Hex & Hs' & Henq); try done.
        { by destruct ok; injection H2 as <-. }
        { destruct ok; injection H2 as <-; simpl; lia. }
        exists (WriteDone p ok torn :: trace), s'.
        split; [by repeat constructor|]. split.
        * change (exec stringify (WriteDone p ok torn :: trace) s)
            with (s0 ← step stringify (WriteDone p ok torn) s;
                  exec stringify trace s0).
          by rewrite H2'.
        * split; [done|]. rewrite Henq.
          destruct ok; injection H2 as <-; simpl;
            rewrite !enqueued_app; simpl; by rewrite !app_nil_r.
    - exists [], s. by repeat split; [constructor|..]. }
  destruct Hd as (trace & s' & Hcs & Hex & Hs' & Henq).
  exists trace, s'. split; [done|]. split; [done|]. split; [done|].
  assert (Hr' : reachable stringify f s').
  { destruct Hr as [t0 H0]. exists (t0 ++ trace).
    by rewrite exec_app, H0. }
  pose proof (reachable_order stringify f s' Hr') as Hord.
  apply reachable_inv in Hr' as [_ Hflag Hidle].
  rewrite Hs' in Hflag. specialize (Hidle Hs').
  assert (writing s' = [] ∧ timers s' = 0) as [Hw Ht]
    by (destruct (writing s'); simpl in Hflag; split; (done || lia)).
  repeat split; try done.
  rewrite Hidle, Hw in Hord. simpl in Hord. rewrite app_nil_r in Hord.
  by rewrite <- Hord, Henq.
Qed.

(** X2. No promise is settled twice, be it resolved or rejected, and a
    promise that is settled is one a save call made. *)
Theorem promises_settled_once (f : option Content) (s : QS) :
  reachable stringify f s →
  NoDup (settled (history s))
  ∧ ∀ p, p ∈ settled (history s) →
         ∃ r, r ∈ enqueued (history s) ∧ promise r = p.
Proof.
  intros Hr. pose proof (reachable_order stringify f s Hr) as Hord.
  apply reachable_inv in Hr as [Hc _ _].
  pose proof (dequeued_NoDup stringify s Hc) as Hnd.
  destruct Hc as [_ _ Hdeq _ _ _ _ _].
  rewrite Hdeq in Hnd. apply NoDup_app in Hnd as (Hnd & _). split; [done|].
  intros p Hp.
  assert (Hin : p ∈ map promise (enqueued (history s))).
  { rewrite Hord. apply elem_of_app. by left. }
  apply list_elem_of_fmap in Hin as (r & -> & Hin). by exists r.
Qed.

(** X3. What the file holds is never a mix: it is what was there at the
    start, or nothing usable (after a write that broke off), or the
    serialization of the snapshot of one save that was resolved. *)
Theorem file_is_one_snapshot (f : option Content) (s : QS) :
  reachable stringify f s →
  file s = f ∨ file s = None
  ∨ ∃ r, r ∈ enqueued (history s) ∧ promise r ∈ resolved (history s)
         ∧ stringify (tickets r) = file s.
Proof.
  intros [trace Hex].
  assert (H : ∀ s0, inv stringify s0 →
            (file s0 = f ∨ file s0 = None
             ∨ ∃ r, r ∈ enqueued (history s0)
                    ∧ promise r ∈ resolved (history s0)
                    ∧ stringify (tickets r) = file s0) →
            exec stringify trace s0 = Some s →
            file s = f ∨ file s = None
            ∨ ∃ r, r ∈ enqueued (history s) ∧ promise r ∈ resolved (history s)
                   ∧ stringify (tickets r) = file s).
  { clear Hex. induction trace as [|e trace IH]; intros s0 Hi Hf Hex.
    - simpl in Hex. by injection Hex as <-.
    - simpl in Hex. destruct (step stringify e s0) as [s1|] eqn:Hs; [|done].
      simpl in Hex. apply (IH s1); [by eapply step_inv| |done].
      assert (Hgrow : ∀ s1 : QS, file s1 = file s0 →
                (∃ h, history s1 = history s0 ++ h) →
                file s1 = f ∨ file s1 = None
                ∨ ∃ r, r ∈ enqueued (history s1)
                       ∧ promise r ∈ resolved (history s1)
                       ∧ stringify (tickets r) = file s1).
      { intros s2 Hfile [h Hh]. rewrite Hfile, Hh.
        destruct Hf as [Hf | [Hf | (r & H1 & H2 & H3)]]; [by left | by right; left|].
        right. right. exists r. rewrite enqueued_app, resolved_app, !elem_of_app.
        by repeat split; [left | left |]. }
      assert (Hpns : ∀ s2 : QS, file (processNextSave stringify s2) = file s2
                ∧ ∃ h, history (processNextSave stringify s2) = history s2 ++ h).
      { intros s2. unfold processNextSave.
        destruct (saveQueue s2); [split; [done | exists []; by rewrite app_nil_r]|].
        destruct (stringify _); simpl; split; try done; by eexists. }
      destruct e as [snapshot|p ok torn|]; simpl in Hs.
      + injection Hs as <-. unfold saveActiveTickets. simpl.
        destruct (isSaving s0).
        * apply Hgrow; [done | by eexists].
        * match goal with
          | |- context [processNextSave _ ?x] =>
              destruct (Hpns x) as [Hfl [h Hh]]
          end.
          apply Hgrow; [by rewrite Hfl|]. rewrite Hh. simpl.
          rewrite <- app_assoc. by eexists.
      + unfold writeDone in Hs.
        destruct (remove_write p (writing s0)) as [[data rest]|] eqn:Hrm;
          [|done].
        simpl in Hs. injection Hs as <-.
        assert (Hlen : length (writing s0) ≤ 1).
        { destruct Hi as [_ Hflag _]. destruct (isSaving s0); lia. }
        destruct (remove_write_single _ _ _ _ Hlen Hrm) as [Hw ->].
        destruct ok; simpl.
        * right. right. destruct Hi as [[_ _ _ _ _ _ Hwr _] _ _].
          destruct (Hwr p data) as (r & Hr & Hp & Hsd); [rewrite Hw; left|].
          exists r. rewrite enqueued_app, resolved_app, !elem_of_app. simpl.
          split; [by left|]. split; [|done]. right. rewrite Hp. left.
        * destruct torn; [by right; left|].
          apply (Hgrow {| saveQueue := saveQueue s0; isSaving := isSaving s0;
                          writing := []; timers := S (timers s0);
                          file := file s0; nextPromise := nextPromise s0;
                          history := history s0
                                     ++ [WriteFinished p false; Rejected p] |});
            [done | by eexists].
      + unfold timerFired in Hs. destruct (timers s0); [done|].
        injection Hs as <-.
        match goal with
        | |- context [processNextSave _ ?x] =>
            destruct (Hpns x) as [Hfl [h Hh]]
        end.
        apply Hgrow; [by rewrite Hfl|]. rewrite Hh. by eexists. }
  apply (H (init f)); [apply inv_init | by left | done].
Qed.
End SaveQueueProgress.

(* ===================================================================== *)
(** * More about the records and the file                                 *)
(* ===================================================================== *)

(** ** Properties of every record kept by every handler *)

Section RecordInvariant.
Import Tickets Conduct.

Variable other_formats : string → option Z.
Variable date_of_data : json → option Z.
Variable cfg : Config.

(** [good] is a property of records that the load establishes and
    that the records built by the handlers have, for the environments
    [env_ok] lets through. *)
Variable good : record → Prop.
Variable env_ok : Env → Prop.

Hypothesis good_loaded : ∀ f,
  Conduct.every good (loadActiveTickets other_formats date_of_data f).
Hypothesis good_closed : ∀ env r u,
  env_ok env → good r → good (closed_by r u (now env)).
Hypothesis good_reopened : ∀ env r u,
  env_ok env → good r → good (reopened_by r u (now env)).
Hypothesis good_created : ∀ env id u ty,
  env_ok env →
  good (<["createdAt" := VDate (Some (now env))]>
          (<["type" := VStr ty]>
             (<["userId" := VStr u]> {["channelId" := VStr id]}))).
Hypothesis good_plain : ∀ r k x,
  good r → k = "formData" ∨ k = "manuallyRegistered" → good (<[k := x]> r).

Local Abbreviation every := (Conduct.every good).
Local Abbreviation stays := (Conduct.stays good).

Lemma stays_ret {A} (a : A) : stays (mret a).
Proof. by intros s o Hs. Qed.

Lemma stays_throw {A} : stays (@throw A).
Proof. by intros s o Hs. Qed.

Lemma stays_emit (x : Output) : stays (emit x).
Proof. by intros s o Hs. Qed.

Lemma stays_bind {A B} (m : M A) (k : A → M B) :
  stays m → (∀ a, stays (k a)) → stays (m ≫= k).
Proof.
  intros Hm Hk s o Hs. unfold mbind, M_bind.
  specialize (Hm s o Hs). destruct (m s o) as [[[a|] s'] o']; [|done].
  by apply Hk.
Qed.

Lemma stays_try_catch {A} (body handler : M A) :
  stays body → stays handler → stays (try_catch body handler).
Proof.
  intros Hb Hh s o Hs. unfold try_catch.
  specialize (Hb s o Hs). destruct (body s o) as [[[a|] s'] o']; [done|].
  by apply Hh.
Qed.

Lemma stays_get_state {B} (k : State → M B) :
  (∀ s, every (activeTickets s) → stays (k s)) →
  stays (get_state ≫= k).
Proof. intros Hk s o Hs. exact (Hk s Hs s o Hs). Qed.

Lemma stays_put_state (s' : State) :
  every (activeTickets s') → stays (put_state s').
Proof. by intros Hs' s o Hs. Qed.

Lemma stays_when (b : bool) (m : M unit) : stays m → stays (when b m).
Proof. intros H. destruct b; [done | apply stays_ret]. Qed.

Lemma stays_get_ticket {B} (c : string) (k : record → M B) :
  (∀ r, good r → stays (k r)) → stays (get_ticket c ≫= k).
Proof.
  intros Hk s o Hs. cbv [mbind M_bind get_ticket get_state mret M_ret throw].
  destruct (activeTickets s !! c) as [r|] eqn:Hr; simpl; [|done].
  apply (Hk r); [|done]. by eapply Hs.
Qed.

Lemma stays_tickets_set (c : string) (v : record) :
  good v → stays (tickets_set c v).
Proof.
  intros Hv s o Hs key value. simpl.
  destruct (decide (c = key)) as [->|Hne].
  - rewrite lookup_insert_eq. by intros [= <-].
  - rewrite lookup_insert_ne by done. apply Hs.
Qed.

Lemma stays_tickets_delete (c : string) : stays (tickets_delete c).
Proof.
  intros s o Hs key value. simpl. intros [_ H]%lookup_delete_Some.
  by eapply Hs.
Qed.

Lemma stays_ensureTicketsLoaded :
  stays (ensureTicketsLoaded other_formats date_of_data).
Proof.
  intros s o Hs.
  cbv [ensureTicketsLoaded mbind M_bind get_state put_state mret M_ret].
  destruct (ticketsLoaded s); simpl; [done | apply good_loaded].
Qed.

Section WithEnv.
Variable env : Env.
Hypothesis env_fine : env_ok env.

Lemma stays_saveActiveTickets : stays (saveActiveTickets env).
Proof.
  intros s o Hs.
  cbv [saveActiveTickets mbind M_bind get_state put_state mret M_ret throw].
  by destruct (writeFile env).
Qed.

Lemma stays_permissionOverwrites_edit (c : string) (id : jsval) (b : bool) :
  stays (permissionOverwrites_edit env c id b).
Proof.
  intros s o Hs. unfold permissionOverwrites_edit.
  destruct id as [[| | | |u]| |]; try done.
  by destruct (permissionEdit_ok env).
Qed.

Lemma stays_channel_send (c what : string) : stays (channel_send env c what).
Proof. intros s o Hs. unfold channel_send. by destruct (channelSend_ok env). Qed.

Lemma stays_logTicketAction (t : jsval) (action id : string) :
  stays (logTicketAction cfg t action id).
Proof.
  intros s o Hs.
  cbv [logTicketAction mbind M_bind get_state mret M_ret throw emit].
  destruct (logChannel cfg); [|done]. case_bool_decide; [|done].
  by destruct t as [[| | | |?]| |].
Qed.

Lemma stays_schedule_delete (c : string) : stays (schedule_delete c).
Proof. by intros s o Hs. Qed.

Lemma stays_remove_channel (c : string) : stays (remove_channel c).
Proof. by intros s o Hs. Qed.

Lemma stays_delete_channel (c : string) : stays (delete_channel env c).
Proof. intros s o Hs. unfold delete_channel. by destruct (channelDelete_ok env). Qed.

Lemma stays_transcript_for_deletion (r : record) :
  stays (transcript_for_deletion env r).
Proof.
  unfold transcript_for_deletion.
  destruct (field r "type") as [[| | | |?]| |]; try apply stays_emit.
  destruct (transcript_ok env); apply stays_emit.
Qed.

Lemma stays_channels_create {B}
    (user : string) (e : bool) (roles : list prim) (k : string → M B) :
  (∀ id, stays (k id)) → stays (channels_create env user e roles ≫= k).
Proof.
  intros Hk s o Hs. unfold channels_create.
  destruct (created_channel env) as [id|] eqn:Hid; [|done].
  cbv [mbind M_bind get_state put_state mret M_ret].
  by apply (Hk id).
Qed.

Local Ltac stay1 :=
  lazymatch goal with
  | |- stays (mret _) => apply stays_ret
  | |- stays throw => apply stays_throw
  | |- stays (emit _) => apply stays_emit
  | |- stays (ensureTicketsLoaded _ _) => apply stays_ensureTicketsLoaded
  | |- stays (saveActiveTickets _) => apply stays_saveActiveTickets
  | |- stays (permissionOverwrites_edit _ _ _ _) =>
      apply stays_permissionOverwrites_edit
  | |- stays (channel_send _ _ _) => apply stays_channel_send
  | |- stays (logTicketAction _ _ _ _) => apply stays_logTicketAction
  | |- stays (schedule_delete _) => apply stays_schedule_delete
  | |- stays (tickets_delete _) => apply stays_tickets_delete
  | |- stays (transcript_for_deletion _ _) =>
      apply stays_transcript_for_deletion
  | |- stays (remove_channel _) => apply stays_remove_channel
  | |- stays (delete_channel _ _) => apply stays_delete_channel
  | |- stays (try_catch _ _) => apply stays_try_catch
  | |- stays (when _ _) => apply stays_when
  | |- stays (get_state ≫= _) => apply stays_get_state; intros ? ?
  | |- stays (get_ticket _ ≫= _) => apply stays_get_ticket; intros ? ?
  | |- stays (channels_create _ _ _ _ ≫= _) =>
      apply stays_channels_create; intros ?
  | |- stays (_ ≫= _) => apply stays_bind; [|intros ?]
  | |- stays (if ?b then _ else _) => destruct b
  | |- stays (match ?x with _ => _ end) => destruct x
  end.

Local Ltac stay := repeat stay1.

Lemma stays_closeTicket (c : string) (m : Member) :
  stays (closeTicket other_formats date_of_data c m).
Proof. unfold closeTicket. stay. Qed.

Lemma stays_closeTicketConfirmed (c : string) (m : Member) :
  stays (closeTicketConfirmed other_formats date_of_data cfg env c m).
Proof.
  unfold closeTicketConfirmed. stay.
  apply stays_tickets_set. by apply (good_closed env).
Qed.

Lemma stays_reopenTicket (c : string) (m : Member) :
  stays (reopenTicket other_formats date_of_data cfg env c m).
Proof.
  unfold reopenTicket. stay.
  apply stays_tickets_set. by apply (good_reopened env).
Qed.

Lemma stays_deleteTicket (c : string) (m : Member) :
  stays (deleteTicket other_formats date_of_data cfg env c m).
Proof. unfold deleteTicket. stay. Qed.

Lemma stays_createTranscript (c : string) (m : Member) :
  stays (createTranscript other_formats date_of_data cfg env c m).
Proof. unfold createTranscript. stay. Qed.

Lemma stays_createTicketWithFormData
    (m : Member) (t : string) (formData : jsval) :
  stays (createTicketWithFormData other_formats date_of_data cfg env
           m t formData).
Proof.
  unfold createTicketWithFormData. stay.
  apply stays_tickets_set. apply good_plain; [|by left].
  by apply (good_created env).
Qed.

Lemma stays_createTicket (m : Member) (t : string) :
  stays (createTicket other_formats date_of_data cfg env m t).
Proof.
  unfold createTicket. stay.
  apply stays_tickets_set. by apply (good_created env).
Qed.

Lemma stays_createTicket_asks (m : Member) (t : string) :
  stays (createTicket_asks other_formats date_of_data cfg env m t).
Proof. unfold createTicket_asks. stay. Qed.

Lemma stays_createTicketWithFormData_asks (m : Member) (t : string) :
  stays (createTicketWithFormData_asks other_formats date_of_data cfg m t).
Proof. unfold createTicketWithFormData_asks. stay. Qed.

Lemma stays_createTicket_goes_on (m : Member) (t : string) :
  stays (createTicket_goes_on cfg env m t).
Proof.
  unfold createTicket_goes_on. stay.
  apply stays_tickets_set. by apply (good_created env).
Qed.

Lemma stays_createTicketWithFormData_goes_on
    (m : Member) (t : string) (formData : jsval) :
  stays (createTicketWithFormData_goes_on cfg env m t formData).
Proof.
  unfold createTicketWithFormData_goes_on. stay.
  apply stays_tickets_set. apply good_plain; [|by left].
  by apply (good_created env).
Qed.

Lemma stays_registerExistingTicket
    (m : Member) (c : string) (oc u t : option string) :
  stays (registerExistingTicket other_formats date_of_data cfg env m c oc u t).
Proof.
  unfold registerExistingTicket. stay.
  apply stays_tickets_set. apply good_plain; [|by right].
  by apply (good_created env).
Qed.

Lemma stays_debugTickets (m : Member) (c : string) :
  stays (debugTickets other_formats date_of_data env m c).
Proof. unfold debugTickets. stay. Qed.

Lemma stays_ready : stays (ready env).
Proof.
  unfold ready. apply stays_get_state. intros s Hs.
  apply stays_bind; [|intros ?; stay].
  apply stays_put_state. simpl.
  intros key value [Hk _]%map_lookup_filter_Some. by eapply Hs.
Qed.

Lemma stays_on_button (customId c : string) (m : Member) :
  stays (on_button other_formats date_of_data cfg env customId c m).
Proof.
  unfold on_button. stay;
    first [ apply stays_closeTicket | apply stays_deleteTicket
          | apply stays_reopenTicket | apply stays_createTranscript
          | apply stays_closeTicketConfirmed
          | apply stays_createTicket
          | idtac ].
  unfold closeTicketCancelled. stay.
Qed.

Lemma stays_on_select (customId c : string) (m : Member) :
  stays (on_select other_formats date_of_data customId c m).
Proof. unfold on_select. stay. Qed.

Lemma stays_on_modal (customId : string) (m : Member) (formData : jsval) :
  stays (on_modal other_formats date_of_data cfg env customId m formData).
Proof. unfold on_modal. stay. apply stays_createTicketWithFormData. Qed.

Lemma stays_handle (ev : Event) :
  stays (handle other_formats date_of_data cfg env ev).
Proof.
  destruct ev; unfold handle, safeInteractionHandler.
  - apply stays_ready.
  - stay. apply stays_on_button.
  - stay. apply stays_on_select.
  - stay. apply stays_on_modal.
  - stay. apply stays_registerExistingTicket.
  - stay. apply stays_debugTickets.
  - stay.
  - stay.
  - stay.
  - stay. apply stays_put_state. unfold boot. simpl. apply good_loaded.
  - destruct form; unfold modal_failed; stay.
    + apply stays_createTicketWithFormData_asks.
    + apply stays_createTicket_asks.
  - destruct formData; unfold modal_failed; stay.
    + apply stays_createTicketWithFormData_goes_on.
    + apply stays_createTicket_goes_on.
Qed.

Lemma step_every (ev : Event) (s : State) :
  every (activeTickets s) →
  every (activeTickets (step other_formats date_of_data cfg env ev s).1).
Proof.
  intros Hs. unfold step, run.
  pose proof (stays_handle ev s [] Hs) as H.
  by destruct (handle _ _ _ _ ev s []) as [[a s'] o'].
Qed.

End WithEnv.

Lemma exec_every (trace : list (Env * Event)) (s : State) :
  Forall (λ '(env, _), env_ok env) trace →
  every (activeTickets s) →
  every (activeTickets (exec other_formats date_of_data cfg trace s)).
Proof.
  revert s. induction trace as [|[env ev] trace IH]; intros s Hok Hs; [done|].
  apply Forall_cons in Hok as [Hev Hok]. simpl.
  apply IH; [done|]. by apply step_every.
Qed.

End RecordInvariant.

(** ** Dates written and read by the host *)

Section HostDates.
Import Tickets Conduct.

Variable other_formats : string → option Z.
Variable date_of_data : json → option Z.
Variable cfg : Config.

Hypothesis formats_clipped : clipped other_formats.
Hypothesis data_clipped : clipped date_of_data.

Local Abbreviation new_Date' := (new_Date other_formats date_of_data).
Local Abbreviation revive' := (revive other_formats date_of_data).

Lemma to_json_of_json (j : json) : to_json (of_json j) = Some j.
Proof. by destruct j. Qed.

Lemma parse_clipped (s : string) (t : Z) :
  JSDate.parse other_formats s = Some t → Z.abs t <= JSDate.maxTime.
Proof.
  unfold JSDate.parse.
  destruct (JSDate.read_fields s) as [fl|]; [|apply formats_clipped].
  destruct (JSDate.fields_in_range fl); [|apply formats_clipped].
  unfold JSDate.time_of_fields, JSDate.TimeClip.
  destruct (Z.leb_spec (Z.abs (JSDate.MakeDate
               (JSDate.MakeDay (JSDate.f_year fl) (JSDate.f_month fl - 1)
                  (JSDate.f_day fl))
               (JSDate.MakeTime (JSDate.f_hour fl) (JSDate.f_min fl)
                  (JSDate.f_sec fl) (JSDate.f_ms fl)))) JSDate.maxTime);
    [|done].
  by intros [= <-].
Qed.

Lemma new_Date_clipped (j : json) (t : Z) :
  new_Date' (of_json j) = VDate (Some t) → Z.abs t <= JSDate.maxTime.
Proof.
  destruct j as [|b|n|s|l|m]; simpl; intros [= H].
  - subst t. by vm_compute.
  - destruct b; subst t; by vm_compute.
  - unfold JSDate.TimeClip in H.
    destruct (Z.leb_spec (Z.abs n) JSDate.maxTime); [by simplify_eq | done].
  - by eapply parse_clipped.
  - by eapply data_clipped.
  - by eapply data_clipped.
Qed.

(** What a revived date is once written and read again. *)
Lemma date_again (j : json) :
  ∃ y, of_json <$> to_json (new_Date' (of_json j)) = Some y
       ∧ to_json (if truthy y then new_Date' y else y)
         = to_json (new_Date' (of_json j)).
Proof.
  pose proof (new_Date_clipped j) as Hc.
  assert (Hd : ∃ d, new_Date' (of_json j) = VDate d) by (by eexists).
  destruct Hd as [[t|] Hd]; rewrite Hd in Hc |- *.
  - eexists. split; [reflexivity|].
    unfold JSDate.toJSON.
    cbv [fmap option_fmap option_map of_json truthy truthy_prim].
    rewrite toISOString_not_empty. cbv [negb new_Date].
    by rewrite parse_toISOString by (by apply Hc).
  - eexists. split; [reflexivity|]. done.
Qed.

Lemma plain_again (j : json) :
  of_json <$> to_json (of_json j) = Some (of_json j).
Proof. by rewrite to_json_of_json. Qed.

Lemma lookup_revive_date (f k : string) (value : record) :
  revive_date other_formats date_of_data f value !! k
  = if decide (f = k)
    then (if truthy (field value k) then Some (new_Date' (field value k))
          else value !! k)
    else value !! k.
Proof.
  unfold revive_date. case_decide as Hk.
  - subst k. destruct (truthy (field value f)); [|done].
    apply lookup_insert_eq.
  - destruct (truthy (field value f)); [|done]. by apply lookup_insert_ne.
Qed.

Lemma lookup_revive_channelId (key : string) (value : record) :
  revive' key value !! "channelId"
  = if truthy (field value "channelId") then value !! "channelId"
    else Some (VStr key).
Proof.
  unfold revive. rewrite !lookup_revive_date.
  repeat (case_decide; [done|]).
  destruct (truthy (field value "channelId")); simpl; [done|].
  apply lookup_insert_eq.
Qed.

Lemma lookup_revive_timestamp (key k : string) (value : record) :
  timestamp_field k →
  revive' key value !! k
  = if truthy (field value k) then Some (new_Date' (field value k))
    else value !! k.
Proof.
  intros Hk. unfold revive.
  set (value1 := if negb (truthy (field value "channelId")) then _ else _).
  assert (H1 : field value1 k = field value k ∧ value1 !! k = value !! k).
  { unfold value1.
    destruct (negb (truthy (field value "channelId"))); [|done].
    split; [apply field_insert_ne | apply lookup_insert_ne];
      by destruct Hk as [-> | [-> | ->]]. }
  destruct H1 as [E1 E2].
  rewrite !lookup_revive_date, !field_revive_date.
  destruct Hk as [-> | [-> | ->]]; repeat case_decide; try done;
    by rewrite ?E1, ?E2.
Qed.

Lemma lookup_revive_other (key k : string) (value : record) :
  k ≠ "channelId" → ¬ timestamp_field k →
  revive' key value !! k = value !! k.
Proof.
  intros Hc Ht. unfold revive. rewrite !lookup_revive_date.
  repeat (case_decide;
          [exfalso; apply Ht; unfold timestamp_field; subst k; eauto|]).
  destruct (negb (truthy (field value "channelId"))); [|done].
  by apply lookup_insert_ne.
Qed.

Lemma lookup_parsed_stringify (r : record) (k : string) :
  (of_json <$> stringify r) !! k = (r !! k) ≫= (λ x, of_json <$> to_json x).
Proof.
  unfold stringify. rewrite lookup_fmap, lookup_omap.
  by destruct (r !! k).
Qed.

Lemma timestamp_field_dec (k : string) :
  timestamp_field k ∨ ¬ timestamp_field k.
Proof.
  unfold timestamp_field.
  destruct (decide (k = "createdAt")); [by auto|].
  destruct (decide (k = "closedAt")); [by auto|].
  destruct (decide (k = "reopenedAt")); [by auto|].
  right. by intros [|[|]].
Qed.

(** A record as it is after one load, written and loaded again, is
    written as before. *)
Lemma stringify_revive_again (key : string) (v : gmap string json) :
  let r := revive' key (of_json <$> v) in
  stringify (revive' key (of_json <$> stringify r)) = stringify r.
Proof.
  intros r. subst r. apply map_eq. intros k. unfold stringify at 1 3.
  rewrite !lookup_omap.
  destruct (decide (k = "channelId")) as [->|Hc].
  - rewrite lookup_revive_channelId. unfold field at 1.
    rewrite lookup_parsed_stringify.
    rewrite !lookup_revive_channelId. unfold field. rewrite !lookup_fmap.
    destruct (v !! "channelId") as [j|] eqn:Hj; simpl.
    + destruct (truthy (of_json j)) eqn:Ht; simpl.
      * rewrite to_json_of_json. simpl. rewrite Ht. simpl.
        by rewrite ?to_json_of_json.
      * by destruct (negb (String.eqb key "")).
    + by destruct (negb (String.eqb key "")).
  - destruct (timestamp_field_dec k) as [Ht|Ht].
    + rewrite lookup_revive_timestamp by done. unfold field at 1 2.
      rewrite lookup_parsed_stringify.
      rewrite !lookup_revive_timestamp by done. unfold field.
      rewrite !lookup_fmap.
      destruct (v !! k) as [j|] eqn:Hj; [|done].
      change (default VUndef (of_json <$> Some j)) with (of_json j).
      change (of_json <$> Some j) with (Some (of_json j)).
      destruct (truthy (of_json j)) eqn:Htr.
      * destruct (date_again j) as (y & Hy & Hagain).
        change (Some (new_Date' (of_json j)) ≫= λ x, of_json <$> to_json x)
          with (of_json <$> to_json (new_Date' (of_json j))).
        rewrite Hy.
        change (default VUndef (Some y)) with y.
        change (Some (new_Date' (of_json j)) ≫= to_json)
          with (to_json (new_Date' (of_json j))).
        rewrite <- Hagain. by destruct (truthy y).
      * simpl. rewrite to_json_of_json. simpl. rewrite Htr. simpl.
        by rewrite ?to_json_of_json.
    + rewrite lookup_revive_other by done.
      rewrite lookup_parsed_stringify.
      rewrite lookup_revive_other by done. rewrite lookup_fmap.
      destruct (v !! k) as [j|]; simpl; [|done].
      rewrite to_json_of_json. simpl. by rewrite ?to_json_of_json.
Qed.

(** X4. What the process loads from a file it writes back in a form that
    is stable: loading that and writing again gives the same document. *)
Theorem reload_is_stable (f : disk) :
  let tickets := loadActiveTickets other_formats date_of_data f in
  serialize (loadActiveTickets other_formats date_of_data
               (Doc (serialize tickets)))
  = serialize tickets.
Proof.
  intros tickets. apply map_eq. intros key.
  destruct (decide (key = "__proto__")) as [-> | Hkey];
    [by rewrite !lookup_serialize_proto|].
  rewrite !lookup_serialize, lookup_loadActiveTickets by done.
  unfold persisted at 1. rewrite lookup_serialize by done. unfold tickets.
  rewrite lookup_loadActiveTickets.
  destruct (persisted f key) as [v|]; [|done].
  cbn [fmap option_fmap option_map]. f_equal. apply stringify_revive_again.
Qed.

(** ** Timestamps stay dates *)

Lemma new_Date_timestamp (j : json) :
  timestamp (new_Date other_formats date_of_data (of_json j)).
Proof.
  destruct j as [|b|n|s|l|m]; simpl; try done.
  - by destruct b.
  - unfold JSDate.TimeClip.
    destruct (Z.leb_spec (Z.abs n) JSDate.maxTime); [done | done].
  - destruct (JSDate.parse other_formats s) eqn:H; [|done].
    by eapply parse_clipped.
  - destruct (date_of_data (JArr l)) eqn:H; [|done]. by eapply data_clipped.
  - destruct (date_of_data (JObj m)) eqn:H; [|done]. by eapply data_clipped.
Qed.

Lemma load_stamped (f : disk) :
  every stamped (loadActiveTickets other_formats date_of_data f).
Proof.
  intros key value. rewrite lookup_loadActiveTickets.
  destruct (persisted f key) as [v|]; [|done]. intros [= <-] fld Hf.
  rewrite field_revive by done.
  unfold field at 1 2 3. rewrite lookup_fmap.
  destruct (v !! fld) as [j|]; simpl; [|done].
  destruct (truthy (of_json j)) eqn:Ht; [apply new_Date_timestamp|].
  by destruct j.
Qed.

Lemma stamped_insert (r : record) (k : string) (x : jsval) :
  stamped r → timestamp x → stamped (<[k := x]> r).
Proof.
  intros Hr Hx f Hf. destruct (decide (k = f)) as [->|Hne].
  - by rewrite field_insert_eq.
  - rewrite field_insert_ne by done. by apply Hr.
Qed.

Lemma stamped_insert_other (r : record) (k : string) (x : jsval) :
  stamped r → ¬ timestamp_field k → stamped (<[k := x]> r).
Proof.
  intros Hr Hk f Hf. rewrite field_insert_ne; [by apply Hr|].
  intros ->. by apply Hk.
Qed.

Lemma stamped_created (env : Env) (id u ty : string) :
  clock_in_range env →
  stamped (<["createdAt" := VDate (Some (now env))]>
             (<["type" := VStr ty]>
                (<["userId" := VStr u]> {["channelId" := VStr id]}))).
Proof.
  intros He. apply stamped_insert; [|exact He].
  do 2 (apply stamped_insert_other; [|by intros [|[|]]]).
  intros f Hf. unfold field. rewrite lookup_singleton_ne; [done|].
  by destruct Hf as [-> | [-> | ->]].
Qed.

Lemma stamped_exec
    (f : disk) (chans : gset string)
    (ow : gmap (string * string) (gmap string bool))
    (trace : list (Env * Event)) :
  Forall (λ '(env, _), clock_in_range env) trace →
  every stamped
    (activeTickets (exec other_formats date_of_data cfg trace
                      (start other_formats date_of_data f chans ow))).
Proof.
  intros Htr.
  apply (exec_every other_formats date_of_data cfg stamped clock_in_range);
    try done.
  - apply load_stamped.
  - intros env r u He Hr. unfold closed_by.
    apply stamped_insert_other; [|by intros [|[|]]].
    apply stamped_insert; [|exact He].
    by apply stamped_insert_other; [|by intros [|[|]]].
  - intros env r u He Hr. unfold reopened_by.
    apply stamped_insert_other; [|by intros [|[|]]].
    apply stamped_insert; [|exact He].
    by apply stamped_insert_other; [|by intros [|[|]]].
  - intros env id u ty He. by apply stamped_created.
  - intros r k x Hr [-> | ->]; by apply stamped_insert_other; [|by intros [|[|]]].
  - apply load_stamped.
Qed.

(** X5. In every state the process reaches, with the clock and the host's
    date conversions within the range of [Date], the three timestamps
    of every record are dates or missing; so whatever registry is
    saved, loading the file gives back every record, but one under
    the key [__proto__], with the same instants. *)
Theorem every_saved_timestamp_comes_back
    (f : disk) (chans : gset string)
    (ow : gmap (string * string) (gmap string bool))
    (trace : list (Env * Event)) (key fld : string) (value : record) :
  Forall (λ '(env, _), clock_in_range env) trace →
  let s := exec other_formats date_of_data cfg trace
             (start other_formats date_of_data f chans ow) in
  activeTickets s !! key = Some value →
  timestamp_field fld →
  timestamp (field value fld)
  ∧ (key ≠ "__proto__" →
     ∃ value',
       loadActiveTickets other_formats date_of_data
         (Doc (serialize (activeTickets s))) !! key = Some value'
       ∧ instant (field value' fld) = instant (field value fld)).
Proof.
  intros Htr s Hk Hf.
  pose proof (stamped_exec f chans ow trace Htr key value Hk fld Hf) as Ht.
  split; [exact Ht|]. intros Hproto.
  exists (revive other_formats date_of_data key (of_json <$> stringify value)).
  split.
  - rewrite lookup_loadActiveTickets. unfold persisted.
    by rewrite lookup_serialize, Hk.
  - rewrite field_revive by done. rewrite field_parsed_stringify.
    by apply timestamp_round_trip.
Qed.

End HostDates.

(* ===================================================================== *)
(** * More about the handlers                                             *)
(* ===================================================================== *)

(** ** Events that only read *)

Section Quiet.
Import Tickets Conduct.

Variable other_formats : string → option Z.
Variable date_of_data : json → option Z.
Variable cfg : Config.
Variable env : Env.

Local Abbreviation loaded' := (loaded other_formats date_of_data).
Local Abbreviation quiet := (Conduct.quiet other_formats date_of_data).

Lemma quiet_ret {A} (a : A) : quiet (mret a).
Proof. intros s o. by left. Qed.

Lemma quiet_throw {A} : quiet (@throw A).
Proof. intros s o. by left. Qed.

Lemma quiet_emit (x : Output) : quiet (emit x).
Proof. intros s o. by left. Qed.

Lemma quiet_bind {A B} (m : M A) (k : A → M B) :
  quiet m → (∀ a, quiet (k a)) → quiet (m ≫= k).
Proof.
  intros Hm Hk s o. unfold mbind, M_bind.
  specialize (Hm s o). destruct (m s o) as [[[a|] s1] o1]; simpl in *; [|done].
  specialize (Hk a s1 o1).
  destruct Hm as [-> | ->]; [done|].
  rewrite loaded_idemp in Hk. destruct Hk as [-> | ->]; by right.
Qed.

Lemma quiet_try_catch {A} (body handler : M A) :
  quiet body → quiet handler → quiet (try_catch body handler).
Proof.
  intros Hb Hh s o. unfold try_catch.
  specialize (Hb s o). destruct (body s o) as [[[a|] s1] o1]; simpl in *; [done|].
  specialize (Hh s1 o1).
  destruct Hb as [-> | ->]; [done|].
  rewrite loaded_idemp in Hh. destruct Hh as [-> | ->]; by right.
Qed.

Lemma quiet_get_state {B} (k : State → M B) :
  (∀ s, quiet (k s)) → quiet (get_state ≫= k).
Proof. intros Hk s o. exact (Hk s s o). Qed.

Lemma quiet_get_ticket {B} (c : string) (k : record → M B) :
  (∀ r, quiet (k r)) → quiet (get_ticket c ≫= k).
Proof.
  intros Hk s o. cbv [mbind M_bind get_ticket get_state mret M_ret throw].
  destruct (activeTickets s !! c) as [r|]; simpl; [apply Hk | by left].
Qed.

Lemma quiet_when (b : bool) (m : M unit) : (b = true → quiet m) → quiet (when b m).
Proof. intros H. destruct b; [by apply H | apply quiet_ret]. Qed.

Lemma quiet_ensureTicketsLoaded :
  quiet (ensureTicketsLoaded other_formats date_of_data).
Proof. intros s o. rewrite ensureTicketsLoaded_run. by right. Qed.

Lemma quiet_channel_send (c what : string) : quiet (channel_send env c what).
Proof. intros s o. unfold channel_send. destruct (channelSend_ok env); by left. Qed.

Lemma quiet_logTicketAction (t : jsval) (action id : string) :
  quiet (logTicketAction cfg t action id).
Proof.
  intros s o.
  cbv [logTicketAction mbind M_bind get_state mret M_ret throw emit].
  destruct (logChannel cfg); [|by left]. case_bool_decide; [|by left].
  destruct t as [[| | | |?]| |]; by left.
Qed.

Local Ltac quiet1 :=
  lazymatch goal with
  | |- quiet (mret _) => apply quiet_ret
  | |- quiet throw => apply quiet_throw
  | |- quiet (emit _) => apply quiet_emit
  | |- quiet (ensureTicketsLoaded _ _) => apply quiet_ensureTicketsLoaded
  | |- quiet (channel_send _ _ _) => apply quiet_channel_send
  | |- quiet (logTicketAction _ _ _ _) => apply quiet_logTicketAction
  | |- quiet (try_catch _ _) => apply quiet_try_catch
  | |- quiet (get_state ≫= _) => apply quiet_get_state; intros ?
  | |- quiet (get_ticket _ ≫= _) => apply quiet_get_ticket; intros ?
  | |- quiet (_ ≫= _) => apply quiet_bind; [|intros ?]
  | |- quiet (if ?b then _ else _) => destruct b eqn:?
  | |- quiet (match ?x with _ => _ end) => destruct x eqn:?
  end.

Lemma quiet_closeTicket (c : string) (m : Member) :
  quiet (closeTicket other_formats date_of_data c m).
Proof. unfold closeTicket. repeat quiet1. Qed.

Lemma quiet_createTranscript (c : string) (m : Member) :
  quiet (createTranscript other_formats date_of_data cfg env c m).
Proof. unfold createTranscript. repeat quiet1. Qed.

Lemma quiet_debugTickets (c : string) (m : Member) :
  quiet (debugTickets other_formats date_of_data env m c).
Proof. unfold debugTickets. repeat quiet1. Qed.

Lemma quiet_on_select (customId c : string) (m : Member) :
  quiet (on_select other_formats date_of_data customId c m).
Proof. unfold on_select. repeat quiet1. Qed.

Lemma quiet_on_button (customId c : string) (m : Member) :
  ¬ changes customId →
  quiet (on_button other_formats date_of_data cfg env customId c m).
Proof.
  intros Hc.
  assert (H1 : String.eqb customId "ticket_delete" = false).
  { apply String.eqb_neq. intros ->. apply Hc. by left. }
  assert (H2 : String.eqb customId "ticket_reopen" = false).
  { apply String.eqb_neq. intros ->. apply Hc. right. by left. }
  assert (H3 : String.eqb customId "ticket_close_confirm" = false).
  { apply String.eqb_neq. intros ->. apply Hc. right. right. by left. }
  assert (H4 : String.prefix "ticket_create_" customId = false).
  { apply not_true_is_false. intros H. apply Hc. by repeat right. }
  unfold on_button. rewrite H1, H2, H3, H4. unfold closeTicketCancelled.
  repeat first
    [ apply quiet_closeTicket | apply quiet_createTranscript
    | apply quiet_when; intros ?
    | quiet1 ]; try done.
Qed.

(** X7. Of all buttons only delete, reopen, the confirm of a close and the
    [ticket_create_...] ones may change the state. Every other button
    (close request, transcript, cancel, the panel and event buttons,
    unknown ones), every select menu, [/debug-tickets] and a command
    name that is not registered leave registry, file, channels and
    permissions as they found them, whether they succeed or fail; at
    most the registry is read from the file if it had not been. *)
Theorem reading_events_change_nothing (ev : Event) (s : State) :
  reads_only ev →
  (step other_formats date_of_data cfg env ev s).1 = s
  ∨ (step other_formats date_of_data cfg env ev s).1 = loaded' s.
Proof.
  intros Hev.
  assert (Hq : quiet (handle other_formats date_of_data cfg env ev)).
  { destruct ev; simpl in Hev; try done;
      unfold handle, safeInteractionHandler;
      repeat first
        [ by apply quiet_on_button | apply quiet_on_select
        | apply quiet_debugTickets | quiet1 ]. }
  specialize (Hq s []). unfold step, run.
  by destruct (handle _ _ _ _ ev s []) as [[a s'] o'].
Qed.
End Quiet.

(** ** Counting a user's tickets *)

Section QuotaFacts.
Import Tickets.

Lemma values_insert (tickets : registry) (c : string) (r : record) :
  values (<[c := r]> tickets) ≡ₚ r :: values (delete c tickets).
Proof.
  unfold values. rewrite <- insert_delete_eq.
  rewrite map_to_list_insert by apply lookup_delete_eq. done.
Qed.

Lemma values_lookup (tickets : registry) (c : string) (r : record) :
  tickets !! c = Some r → values tickets ≡ₚ r :: values (delete c tickets).
Proof.
  intros Hr. rewrite <- (insert_id tickets c r Hr) at 1. apply values_insert.
Qed.

Lemma filter_length_perm {A} (p : A → bool) (l l' : list A) :
  l ≡ₚ l' → length (List.filter p l) = length (List.filter p l').
Proof.
  induction 1 as [|x l l' _ IH|x y l|l l' l'' _ IH1 _ IH2]; simpl.
  - done.
  - destruct (p x); simpl; by rewrite IH.
  - destruct (p x), (p y); done.
  - by rewrite IH1.
Qed.

Lemma filter_twice {A} (p q : A → bool) (l : list A) :
  List.filter p (List.filter q l) = List.filter (λ x, q x && p x) l.
Proof.
  induction l as [|x l IH]; [done|]. simpl.
  destruct (q x); simpl; [destruct (p x)|]; by rewrite IH.
Qed.

(** The two counts of the quota, with the record of [c] set apart. *)
Lemma counts_insert (tickets : registry) (c user ty : string) (r : record) :
  let mine := is_str (field r "userId") user
              && negb (truthy (field r "closed")) in
  length (userTickets (<[c := r]> tickets) user)
  = ((if mine then 1 else 0)
     + length (userTickets (delete c tickets) user))%nat
  ∧ length (userTicketsOfType (<[c := r]> tickets) user ty)
    = ((if mine && is_str (field r "type") ty then 1 else 0)
       + length (userTicketsOfType (delete c tickets) user ty))%nat.
Proof.
  intros mine. unfold userTicketsOfType, userTickets.
  rewrite !filter_twice.
  rewrite !(filter_length_perm _ _ _ (values_insert tickets c r)). simpl.
  fold mine. split.
  - by destruct mine.
  - by destruct (mine && is_str (field r "type") ty).
Qed.

Lemma counts_lookup (tickets : registry) (c user ty : string) (r : record) :
  tickets !! c = Some r →
  let mine := is_str (field r "userId") user
              && negb (truthy (field r "closed")) in
  length (userTickets tickets user)
  = ((if mine then 1 else 0)
     + length (userTickets (delete c tickets) user))%nat
  ∧ length (userTicketsOfType tickets user ty)
    = ((if mine && is_str (field r "type") ty then 1 else 0)
       + length (userTicketsOfType (delete c tickets) user ty))%nat.
Proof.
  intros Hr mine. pose proof (counts_insert tickets c user ty r) as H.
  rewrite (insert_id _ _ _ Hr) in H. exact H.
Qed.

(** The two counts when the record of an open ticket is replaced by
    its closed form, is removed, or is opened again. *)
Lemma counts_follow_records
    (tickets : registry) (c user ty a b : string) (t t' : Z) (r : record) :
  tickets !! c = Some r →
  field r "userId" = VStr user → field r "type" = VStr ty →
  truthy (field r "closed") = false →
  let total tk := length (userTickets tk user) in
  let of_type tk := length (userTicketsOfType tk user ty) in
  let closed := <[c := closed_by r a t]> tickets in
  let reopened := <[c := reopened_by (closed_by r a t) b t']> closed in
  (total closed + 1 = total tickets ∧ of_type closed + 1 = of_type tickets)%nat
  ∧ (total (delete c tickets) + 1 = total tickets
     ∧ of_type (delete c tickets) + 1 = of_type tickets)%nat
  ∧ (total reopened = total tickets ∧ of_type reopened = of_type tickets).
Proof.
  intros Hr Hu Hty Hopen total of_type closed reopened.
  destruct (counts_lookup tickets c user ty r Hr) as [H1 H2].
  rewrite Hu, Hopen in H1. rewrite Hu, Hty, Hopen in H2.
  simpl in H1, H2. rewrite String.eqb_refl in H1.
  rewrite !String.eqb_refl in H2. simpl in H1, H2.
  destruct (counts_insert tickets c user ty (closed_by r a t)) as [C1 C2].
  destruct (counts_insert closed c user ty
              (reopened_by (closed_by r a t) b t')) as [R1 R2].
  assert (Hdel : delete c closed = delete c tickets)
    by apply delete_insert_eq.
  rewrite Hdel in R1, R2.
  assert (F1 : ∀ f, f ≠ "closed" → f ≠ "closedAt" → f ≠ "closedBy" →
             field (closed_by r a t) f = field r f).
  { intros f ? ? ?. unfold closed_by, field.
    by rewrite !lookup_insert_ne. }
  assert (F2 : field (closed_by r a t) "closed" = VBool true).
  { unfold closed_by, field. rewrite !lookup_insert_ne by done.
    by rewrite lookup_insert_eq. }
  assert (F3 : ∀ f, f ≠ "closed" → f ≠ "reopenedAt" → f ≠ "reopenedBy" →
             field (reopened_by (closed_by r a t) b t') f
             = field (closed_by r a t) f).
  { intros f ? ? ?. unfold reopened_by, field.
    by rewrite !lookup_insert_ne. }
  assert (F4 : field (reopened_by (closed_by r a t) b t') "closed"
               = VBool false).
  { unfold reopened_by, field. rewrite !lookup_insert_ne by done.
    by rewrite lookup_insert_eq. }
  rewrite F2 in C1, C2.
  rewrite (F1 "userId") in C1, C2 by done.
  rewrite (F1 "type") in C2 by done.
  rewrite (F3 "userId"), F4, (F1 "userId"), Hu in R1 by done.
  rewrite (F3 "userId"), (F3 "type"), F4, (F1 "userId"), (F1 "type"),
    Hu, Hty in R2 by done.
  simpl in C1, C2, R1, R2. rewrite String.eqb_refl in R1.
  rewrite !String.eqb_refl in R2.
  rewrite ?andb_false_r in C1, C2. simpl in *.
  unfold total, of_type. fold closed in C1, C2. fold reopened in R1, R2.
  lia.
Qed.

End QuotaFacts.

(** ** Single runs, continued *)

Section MoreRuns.
Import Tickets Conduct.

Variable other_formats : string → option Z.
Variable date_of_data : json → option Z.
Variable cfg : Config.

Local Abbreviation loaded' := (loaded other_formats date_of_data).
Local Abbreviation step' := (step other_formats date_of_data cfg).
Local Abbreviation exec' := (exec other_formats date_of_data cfg).

Local Ltac hrun :=
  repeat first
    [ rewrite ensureTicketsLoaded_run
    | rewrite loaded_idemp
    | progress cbv [run step handle safeInteractionHandler on_button on_modal
                    on_select when
                    closeTicket closeTicketConfirmed closeTicketCancelled
                    reopenTicket deleteTicket createTranscript
                    createTicket createTicketWithFormData
                    registerExistingTicket debugTickets ready
                    try_catch mbind M_bind get_ticket get_state put_state
                    mret M_ret throw emit tickets_set tickets_delete
                    permissionOverwrites_edit channel_send
                    transcript_for_deletion schedule_delete
                    set_tickets set_file new_Date_now
                    logTicketAction saveActiveTickets channels_create
                    remove_channel delete_channel spend_timer
                    createTicket_asks createTicket_goes_on
                    createTicketWithFormData_asks
                    createTicketWithFormData_goes_on modal_failed]
    | progress simpl ].

Local Abbreviation let_in := (Conduct.let_in cfg).
Local Abbreviation new_overwrites := (Conduct.new_overwrites cfg).

(** X6. At [ready] the records whose channel is gone are dropped, the
    others are kept as they are; when the write succeeds the file
    holds the pruned map, so after a restart the records are those
    that had a channel (when it fails, the file is what it was). A
    record under the key [__proto__] is not written, so it would not
    come back; no channel has that handle. *)
Theorem ready_drops_orphans (env env' : Env) (s : State) :
  let s1 := (step' env Ready s).1 in
  let s2 := (step' env' Restart s1).1 in
  (∀ c, activeTickets s1 !! c
        = if bool_decide (c ∈ channels s) then activeTickets s !! c else None)
  ∧ (writeFile env = WriteOk →
     file s1 = Doc (serialize (activeTickets s1))
     ∧ ∀ c, is_Some (activeTickets s2 !! c)
            ↔ is_Some (activeTickets s !! c) ∧ c ∈ channels s
              ∧ c ≠ "__proto__")
  ∧ (writeFile env = WriteFailedUntouched → file s1 = file s).
Proof.
  intros s1 s2.
  assert (Hreg : ∀ c, activeTickets s1 !! c
            = if bool_decide (c ∈ channels s) then activeTickets s !! c
              else None).
  { intros c. unfold s1. hrun.
    destruct (writeFile env); simpl;
      (case_bool_decide as Hc;
       [destruct (activeTickets s !! c) as [r|] eqn:Hr;
        [by apply map_lookup_filter_Some
        |apply map_lookup_filter_None; by left]
       |apply map_lookup_filter_None; right; by intros ? ?]). }
  split; [exact Hreg|]. split.
  - intros Hw.
    assert (Hf : file s1 = Doc (serialize (activeTickets s1))).
    { unfold s1. hrun. rewrite Hw. done. }
    split; [exact Hf|]. intros c. unfold s2. hrun. rewrite Hf.
    rewrite lookup_loadActiveTickets. unfold persisted.
    destruct (decide (c = "__proto__")) as [-> | Hc].
    { rewrite lookup_serialize_proto. split; [by intros [? ?] | tauto]. }
    rewrite lookup_serialize, Hreg by done. rewrite !fmap_is_Some.
    case_bool_decide; [tauto|]. split; [by intros [? ?] | tauto].
  - intros Hw. unfold s1. hrun. by rewrite Hw.
Qed.

(** X8. The transcript button asks for no staff role: for any member, on a
    channel with a record, the transcript is posted in the channel and
    nothing changes. *)
Theorem transcript_for_anyone
    (env : Env) (s : State) (c ty : string) (m : Member) (r : record) :
  buttonToPanel cfg "ticket_transcript" = None →
  activeTickets (loaded' s) !! c = Some r →
  field r "type" = VStr ty →
  transcript_ok env = true → channelSend_ok env = true →
  ∃ log, step' env (Button "ticket_transcript" c m) s
         = (loaded' s,
            [Post c "Transcript saved"] ++ log ++
            [Reply "Transcript has been created and saved!"])
         ∧ (log = [] ∨ log = [LogAction "transcript" c]).
Proof.
  intros Hp Hr Hty Ht Hs. pose proof (has_ticket_true _ _ _ Hr) as Hh.
  destruct (logChannel cfg) as [lc|] eqn:Hl;
    [destruct (bool_decide (lc ∈ channels (loaded' s))) eqn:Hc|].
  - exists [LogAction "transcript" c]. split; [|by right].
    repeat first [progress hrun
                 | progress rewrite ?Hp, ?Hh, ?Hr, ?Hty, ?Ht, ?Hs, ?Hl, ?Hc].
    done.
  - exists []. split; [|by left].
    repeat first [progress hrun
                 | progress rewrite ?Hp, ?Hh, ?Hr, ?Hty, ?Ht, ?Hs, ?Hl, ?Hc].
    done.
  - exists []. split; [|by left].
    repeat first [progress hrun
                 | progress rewrite ?Hp, ?Hh, ?Hr, ?Hty, ?Ht, ?Hs, ?Hl].
    done.
Qed.

(** X17. Confirm does not ask whether the ticket is open: confirmed a
    second time, a closed ticket stays closed and carries the time and
    the user of the second confirm. *)
Theorem confirm_again
    (env1 env2 : Env) (s : State) (c u ty : string) (m1 m2 : Member)
    (r : record) :
  buttonToPanel cfg "ticket_close_confirm" = None →
  activeTickets (loaded' s) !! c = Some r →
  field r "userId" = VStr u → field r "type" = VStr ty →
  permissionEdit_ok env1 = true → channelSend_ok env1 = true →
  permissionEdit_ok env2 = true → channelSend_ok env2 = true →
  activeTickets
    (exec' [(env1, Button "ticket_close_confirm" c m1);
            (env2, Button "ticket_close_confirm" c m2)] s) !! c
  = Some (closed_by r (userId m2) (now env2)).
Proof.
  intros Hp Hr Hu Hty He1 Hs1 He2 Hs2. unfold exec. simpl.
  destruct (confirm_registry other_formats date_of_data cfg env1
              s c u ty m1 r) as [Hreg1 Hl1]; try done.
  set (s1 := (step' env1 (Button "ticket_close_confirm" c m1) s).1) in *.
  set (r1 := closed_by r (userId m1) (now env1)) in *.
  assert (Hr1 : activeTickets (loaded' s1) !! c = Some r1).
  { rewrite loaded_id by done. rewrite Hreg1. apply lookup_insert_eq. }
  destruct (confirm_registry other_formats date_of_data cfg env2
              s1 c u ty m2 r1) as [Hreg2 _]; try done.
  { unfold r1, closed_by, field. by rewrite !lookup_insert_ne. }
  { unfold r1, closed_by, field. by rewrite !lookup_insert_ne. }
  rewrite Hreg2, lookup_insert_eq. f_equal.
  unfold r1, closed_by. apply map_eq. intros k.
  destruct (decide (k = "closedBy")) as [->|]; [by rewrite !lookup_insert_eq|].
  rewrite !(lookup_insert_ne _ "closedBy") by done.
  destruct (decide (k = "closedAt")) as [->|]; [by rewrite !lookup_insert_eq|].
  rewrite !(lookup_insert_ne _ "closedAt") by done.
  destruct (decide (k = "closed")) as [->|]; [by rewrite !lookup_insert_eq|].
  rewrite !(lookup_insert_ne _ "closed") by done.
  rewrite !(lookup_insert_ne _ "closedBy") by done.
  rewrite !(lookup_insert_ne _ "closedAt") by done.
  by rewrite !(lookup_insert_ne _ "closed") by done.
Qed.

Lemma loaded_fields (s : State) :
  file (loaded' s) = file s ∧ channels (loaded' s) = channels s
  ∧ permissionOverwrites (loaded' s) = permissionOverwrites s
  ∧ pendingDelete (loaded' s) = pendingDelete s.
Proof.
  unfold loaded, run.
  cbv [ensureTicketsLoaded mbind M_bind get_state put_state mret M_ret].
  by destruct (ticketsLoaded s).
Qed.

(** X9. [/register-ticket] refuses: a caller who is no administrator, a
    type that is none of the six, a channel that has a record. *)
Theorem register_ticket_refusals
    (env : Env) (s : State) (m : Member) (c : string)
    (oc u t : option string) :
  (isAdministrator m = false →
   step' env (RegisterTicket m c oc u t) s
   = (s, [Reply "You need administrator permissions to register tickets."]))
  ∧ (isAdministrator m = true → deferReply_ok env = true →
     (∀ ty, t = Some ty → valid_ticket_type ty = false) →
     step' env (RegisterTicket m c oc u t) s
     = (loaded' s, [Reply msg_invalid_type]))
  ∧ (∀ ty r ty', isAdministrator m = true → deferReply_ok env = true →
     t = Some ty → valid_ticket_type ty = true →
     activeTickets (loaded' s) !! default c oc = Some r →
     field r "type" = VStr ty' →
     step' env (RegisterTicket m c oc u t) s
     = (loaded' s, [Reply ("This channel is already registered as a " +:+
                           formatTicketType ty' +:+ " ticket.")])).
Proof.
  split; [|split].
  - intros Ha. hrun. rewrite Ha. done.
  - intros Ha Hd Ht. hrun. rewrite Ha, Hd. hrun.
    destruct t as [ty|]; [|done]. rewrite (Ht ty eq_refl). done.
  - intros ty r ty' Ha Hd -> Hv Hr Hty. hrun. rewrite Ha, Hd. hrun.
    rewrite Hv. hrun. rewrite (has_ticket_true _ _ _ Hr). hrun.
    rewrite Hr. hrun. rewrite Hty. done.
Qed.

(** X10. [/register-ticket] by an administrator on a channel without a
    record: the record is stored under the channel, open, for the
    user named, and written to the file. *)
Theorem register_ticket_stores
    (env : Env) (s : State) (m : Member) (c : string)
    (oc : option string) (user ty : string) :
  isAdministrator m = true → deferReply_ok env = true →
  valid_ticket_type ty = true →
  activeTickets (loaded' s) !! default c oc = None →
  writeFile env = WriteOk →
  let s' := (step' env (RegisterTicket m c oc (Some user) (Some ty)) s).1 in
  let value : record :=
    <["manuallyRegistered" := VBool true]>
      (<["createdAt" := VDate (Some (now env))]>
         (<["type" := VStr ty]>
            (<["userId" := VStr user]>
               {["channelId" := VStr (default c oc)]}))) in
  activeTickets s' = <[default c oc := value]> (activeTickets (loaded' s))
  ∧ file s' = Doc (serialize (activeTickets s'))
  ∧ truthy (field value "closed") = false
  ∧ permissionOverwrites s' = permissionOverwrites s.
Proof.
  intros Ha Hd Hv Hr Hw s' value.
  destruct (loaded_fields s) as (_ & _ & Hp & _).
  unfold s'. hrun. rewrite Ha, Hd. hrun. rewrite Hv. hrun.
  rewrite (has_ticket_false _ _ Hr). hrun. rewrite Hw. hrun.
  destruct (channelSend_ok env); hrun;
    [destruct (logChannel cfg); [case_bool_decide|]|]; hrun; done.
Qed.

Lemma str_app_nil_r (a : string) : a +:+ "" = a.
Proof. induction a as [|c a IH]; [done|]. by rewrite str_app_cons, IH. Qed.

Lemma split_on_head (cur t : string) :
  hd EmptyString (split_on "_" cur t) = cur +:+ before_underscore t.
Proof.
  revert cur. induction t as [|c t IH]; intros cur; simpl.
  - by rewrite str_app_nil_r.
  - destruct (Ascii.eqb c "_"); simpl; [by rewrite str_app_nil_r|].
    rewrite IH, str_app_assoc. done.
Qed.

Lemma third_segment_create (t : string) :
  third_segment ("ticket_create_" +:+ t) = before_underscore t.
Proof.
  unfold third_segment.
  change (split_on "_" "" ("ticket_create_" +:+ t))
    with ("ticket" :: "create" :: split_on "_" "" t).
  change (nth 2 ("ticket" :: "create" :: split_on "_" "" t) "")
    with (nth 0 (split_on "_" "" t) "").
  pose proof (split_on_head "" t) as H. rewrite str_app_nil_l in H.
  rewrite <- H. by destruct (split_on "_" "" t).
Qed.

Lemma prefix_app (a t : string) : String.prefix a (a +:+ t) = true.
Proof.
  induction a as [|c a IH]; [by destruct t|].
  rewrite str_app_cons. simpl. by destruct (ascii_dec c c).
Qed.

(** X11. A button whose identifier starts with [ticket_create_] opens a
    ticket whose type is what follows, up to the next underscore. *)
Theorem create_button_type
    (env : Env) (s : State) (t c : string) (m : Member) :
  buttonToPanel cfg ("ticket_create_" +:+ t) = None →
  step' env (Button ("ticket_create_" +:+ t) c m) s
  = run (safeInteractionHandler
           (createTicket other_formats date_of_data cfg env m
              (before_underscore t))) s.
Proof.
  intros Hp. unfold step, handle, on_button. rewrite Hp.
  rewrite third_segment_create, prefix_app.
  assert (H : ∀ k, k ∈ ["ticket_close"; "ticket_delete"; "ticket_reopen";
                        "ticket_transcript"; "ticket_close_confirm";
                        "ticket_close_cancel"] →
              String.eqb ("ticket_create_" +:+ t) k = false).
  { intros k Hk. apply String.eqb_neq. intros E.
    repeat (apply elem_of_cons in Hk as [-> | Hk]; [discriminate E|]).
    by apply elem_of_nil in Hk. }
  rewrite !H by (repeat first [by left | right]). done.
Qed.

Lemma foldl_add_role_overwrite
    (env : Env) (id : string) (roles : list prim)
    (ow : gmap (string * string) (gmap string bool)) (ch x : string) :
  foldl (add_role_overwrite env id) ow roles !! (ch, x)
  = if bool_decide (ch = id ∧ PStr x ∈ roles ∧ x ∈ guildRoles env)
    then Some staff_allow else ow !! (ch, x).
Proof.
  revert ow. induction roles as [|role roles IH]; intros ow; simpl.
  - rewrite bool_decide_eq_false_2; [done|]. intros (_ & H & _).
    by apply elem_of_nil in H.
  - rewrite IH. unfold add_role_overwrite.
    case_bool_decide as H1.
    + rewrite bool_decide_eq_true_2; [done|].
      destruct H1 as (? & ? & ?). repeat split; try done. by right.
    + case_bool_decide as H2; [|by destruct role; try case_bool_decide;
        try (rewrite lookup_insert_ne; [done|]; intros [= -> ->];
             apply H2; repeat split; try done; left)].
      destruct H2 as (-> & Hin & Hg).
      apply elem_of_cons in Hin as [<- | Hin]; [|by exfalso; apply H1].
      rewrite bool_decide_eq_true_2 by done. apply lookup_insert_eq.
Qed.


Lemma createTicket_overwrites
    (env : Env) (s : State) (m : Member) (ty id : string) :
  deferReply_ok env = true →
  checkQuota cfg (activeTickets (loaded' s)) (userId m) ty = Allow →
  created_channel env = Some id →
  permissionOverwrites
    (run (createTicket other_formats date_of_data cfg env m ty) s).1
  = new_overwrites env id (userId m) false ty (permissionOverwrites s).
Proof.
  intros Hd Hq Hid. destruct (loaded_fields s) as (_ & _ & Hp & _).
  hrun. rewrite Hd. hrun. rewrite Hq. hrun. rewrite Hid. hrun.
  rewrite Hp. unfold new_overwrites.
  destruct (writeFile env); hrun; try done;
    destruct (channelSend_ok env); hrun; try done;
    (destruct (logChannel cfg); [case_bool_decide|]); done.
Qed.

Lemma createTicketWithFormData_overwrites
    (env : Env) (s : State) (m : Member) (ty id : string) (formData : jsval) :
  checkQuota cfg (activeTickets (loaded' s)) (userId m) ty = Allow →
  created_channel env = Some id →
  permissionOverwrites
    (run (createTicketWithFormData other_formats date_of_data cfg env
            m ty formData) s).1
  = new_overwrites env id (userId m) true ty (permissionOverwrites s).
Proof.
  intros Hq Hid. destruct (loaded_fields s) as (_ & _ & Hp & _).
  hrun. rewrite Hq. hrun. rewrite Hid. hrun.
  rewrite Hp. unfold new_overwrites.
  destruct (writeFile env); hrun; try done;
    destruct (channelSend_ok env); hrun; try done;
    (destruct (logChannel cfg); [case_bool_decide|]); done.
Qed.

Lemma new_overwrites_spec
    (env : Env) (id user : string) (e : bool) (ty : string)
    (ow : gmap (string * string) (gmap string bool)) :
  let ow' := new_overwrites env id user e ty ow in
  (∀ role, let_in env ty role → ow' !! (id, role) = Some staff_allow)
  ∧ (¬ let_in env ty user → ow' !! (id, user) = Some (requester_allow e))
  ∧ (¬ let_in env ty (guildId env) → guildId env ≠ user →
     ow' !! (id, guildId env) = Some {["ViewChannel" := false]})
  ∧ (∀ x, ¬ let_in env ty x → x ≠ user → x ≠ guildId env →
          ow' !! (id, x) = ow !! (id, x))
  ∧ (∀ ch x, ch ≠ id → ow' !! (ch, x) = ow !! (ch, x)).
Proof.
  intros ow'. unfold ow', new_overwrites.
  assert (Hin : ∀ x, PStr x ∈ List.filter isValidSnowflake
                                (getTicketRoles cfg (VStr ty))
                     ∧ x ∈ guildRoles env ↔ let_in env ty x).
  { intros x. unfold let_in.
    rewrite (list_elem_of_In (List.filter _ _) (PStr x)), filter_In,
      <- list_elem_of_In. tauto. }
  repeat split.
  - intros role Hr. rewrite foldl_add_role_overwrite.
    rewrite bool_decide_eq_true_2; [done|]. apply Hin in Hr. tauto.
  - intros Hn. rewrite foldl_add_role_overwrite.
    rewrite bool_decide_eq_false_2 by (intros (_ & ? & ?); apply Hn, Hin; tauto).
    apply lookup_insert_eq.
  - intros Hn Hne. rewrite foldl_add_role_overwrite.
    rewrite bool_decide_eq_false_2 by (intros (_ & ? & ?); apply Hn, Hin; tauto).
    rewrite lookup_insert_ne by congruence. apply lookup_insert_eq.
  - intros x Hn Hu Hg. rewrite foldl_add_role_overwrite.
    rewrite bool_decide_eq_false_2 by (intros (_ & ? & ?); apply Hn, Hin; tauto).
    by rewrite !lookup_insert_ne by congruence.
  - intros ch x Hne. rewrite foldl_add_role_overwrite.
    rewrite bool_decide_eq_false_2 by (by intros (? & _)).
    by rewrite !lookup_insert_ne by congruence.
Qed.

(** X12. A channel made for a ticket, by either creation path: the staff
    roles let in are those configured for the type that are
    well-formed and exist in the guild; the requester is let in (the
    form path adds the right to embed links); everyone else is denied
    the view; nothing else is granted, and no other channel's
    permissions are touched. This holds even when a later step of the
    creation fails. *)
Theorem new_channel_access
    (env : Env) (s : State) (m : Member) (ty id : string) (formData : jsval) :
  checkQuota cfg (activeTickets (loaded' s)) (userId m) ty = Allow →
  created_channel env = Some id →
  ∀ form : bool,
    (form = false → deferReply_ok env = true) →
    let s' :=
      (run (if form
            then createTicketWithFormData other_formats date_of_data cfg env
                   m ty formData
            else createTicket other_formats date_of_data cfg env m ty) s).1 in
    let ow := permissionOverwrites s in
    let ow' := permissionOverwrites s' in
    (∀ role, let_in env ty role → ow' !! (id, role) = Some staff_allow)
    ∧ (¬ let_in env ty (userId m) →
       ow' !! (id, userId m) = Some (requester_allow form))
    ∧ (¬ let_in env ty (guildId env) → guildId env ≠ userId m →
       ow' !! (id, guildId env) = Some {["ViewChannel" := false]})
    ∧ (∀ x, ¬ let_in env ty x → x ≠ userId m → x ≠ guildId env →
            ow' !! (id, x) = ow !! (id, x))
    ∧ (∀ ch x, ch ≠ id → ow' !! (ch, x) = ow !! (ch, x)).
Proof.
  intros Hq Hid form Hd s' ow ow'. unfold ow', s'. destruct form.
  - rewrite (createTicketWithFormData_overwrites env s m ty id) by done.
    apply new_overwrites_spec.
  - rewrite (createTicket_overwrites env s m ty id) by auto.
    apply new_overwrites_spec.
Qed.

Lemma createTicketWithFormData_allowed
    (env : Env) (s : State) (m : Member) (ty id : string) (formData : jsval) :
  checkQuota cfg (activeTickets (loaded' s)) (userId m) ty = Allow →
  created_channel env = Some id →
  activeTickets
    (run (createTicketWithFormData other_formats date_of_data cfg env
            m ty formData) s).1
  = <[id := <["formData" := formData]>
               (<["createdAt" := VDate (Some (now env))]>
                  (<["type" := VStr ty]>
                     (<["userId" := VStr (userId m)]>
                        {["channelId" := VStr id]})))]>
      (activeTickets (loaded' s)).
Proof.
  intros Hq Hid.
  repeat first [progress hrun | progress rewrite ?Hq, ?Hid].
  destruct (writeFile env); hrun; try done;
    destruct (channelSend_ok env); hrun; try done;
    (destruct (logChannel cfg); [case_bool_decide|]); done.
Qed.

(** The first part of a creation that the limits let through: the
    registry is loaded, nothing is answered yet. *)
Lemma suspended_run
    (env : Env) (s : State) (m : Member) (ty : string) (form : bool) :
  deferReply_ok env = true →
  checkQuota cfg (activeTickets (loaded' s)) (userId m) ty = Allow →
  step' env (CreateSuspended m ty form) s = (loaded' s, []).
Proof.
  intros Hd Hq. destruct form; hrun; rewrite Hd; hrun; by rewrite Hq.
Qed.

(** The second part stores the record, whatever the registry holds. *)
Lemma resumed_registry
    (env : Env) (s : State) (m : Member) (ty id : string)
    (formData : option jsval) :
  created_channel env = Some id →
  activeTickets (step' env (CreateResumed m ty formData) s).1
  = <[id := new_record env id (userId m) ty formData]> (activeTickets s).
Proof.
  intros Hid. unfold new_record.
  destruct formData as [fd|]; hrun; rewrite Hid; hrun;
    destruct (writeFile env); hrun; try done;
    destruct (channelSend_ok env); hrun; try done;
    (destruct (logChannel cfg); [case_bool_decide|]); done.
Qed.

Lemma new_record_fields
    (env : Env) (id user ty : string) (formData : option jsval) :
  field (new_record env id user ty formData) "userId" = VStr user
  ∧ field (new_record env id user ty formData) "type" = VStr ty
  ∧ field (new_record env id user ty formData) "closed" = VUndef.
Proof.
  unfold new_record, field. destruct formData;
    repeat split;
    repeat first [rewrite lookup_insert_eq | rewrite lookup_insert_ne by done];
    done.
Qed.

(** One more open ticket of the type for the user, when a record made
    by a creation is stored under a handle that had none. *)
Lemma counts_new_record
    (tickets : registry) (env : Env) (id user ty : string)
    (formData : option jsval) :
  tickets !! id = None →
  let after := <[id := new_record env id user ty formData]> tickets in
  length (userTickets after user) = S (length (userTickets tickets user))
  ∧ length (userTicketsOfType after user ty)
    = S (length (userTicketsOfType tickets user ty)).
Proof.
  intros Hfresh after.
  destruct (new_record_fields env id user ty formData) as (Hu & Hty & Hcl).
  destruct (counts_insert tickets id user ty
              (new_record env id user ty formData)) as [H1 H2].
  rewrite Hu, Hcl in H1. rewrite Hu, Hty, Hcl in H2. simpl in H1, H2.
  rewrite String.eqb_refl in H1. rewrite !String.eqb_refl in H2.
  simpl in H1, H2. rewrite (delete_id tickets id) in H1, H2 by done.
  by split.
Qed.

(** X13. The limits are checked before the wait for the new channel and
    not after it. A creation during which nothing else is handled
    stores one more open ticket of the type and leaves the user within
    both limits. But a second creation started while the first waits
    for its channel is checked against the same registry: neither is
    refused, both store their record, and a user who was one below a
    limit ends above it. *)
Theorem creation_checks_before_the_wait
    (s : State) (m : Member) (ty : string) :
  checkQuota cfg (activeTickets (loaded' s)) (userId m) ty = Allow →
  let before := activeTickets (loaded' s) in
  let total t := Z.of_nat (length (userTickets t (userId m))) in
  let of_type t :=
    Z.of_nat (length (userTicketsOfType t (userId m) ty)) in
  (∀ (env : Env) (id : string) (formData : jsval) (form : bool),
     (form = false → deferReply_ok env = true) →
     created_channel env = Some id →
     before !! id = None →
     let after :=
       activeTickets
         (run (if form
               then createTicketWithFormData other_formats date_of_data cfg
                      env m ty formData
               else createTicket other_formats date_of_data cfg env m ty)
            s).1 in
     total after = total before + 1 ∧ of_type after = of_type before + 1
     ∧ total after <= maxTotal cfg ∧ of_type after <= maxPerType cfg)
  ∧ (∀ (env1 env2 env3 env4 : Env) (id1 id2 : string)
       (form1 form2 : option jsval),
       deferReply_ok env1 = true → deferReply_ok env2 = true →
       created_channel env3 = Some id1 → created_channel env4 = Some id2 →
       id1 ≠ id2 → before !! id1 = None → before !! id2 = None →
       let s1 := step' env1 (CreateSuspended m ty (bool_decide (is_Some form1)))
                   s in
       let s2 := step' env2 (CreateSuspended m ty (bool_decide (is_Some form2)))
                   s1.1 in
       let s3 := step' env3 (CreateResumed m ty form1) s2.1 in
       let s4 := step' env4 (CreateResumed m ty form2) s3.1 in
       s1.2 = [] ∧ s2.2 = []
       ∧ total (activeTickets s4.1) = total before + 2
       ∧ of_type (activeTickets s4.1) = of_type before + 2
       ∧ (total before + 1 = maxTotal cfg →
          maxTotal cfg < total (activeTickets s4.1))
       ∧ (of_type before + 1 = maxPerType cfg →
          maxPerType cfg < of_type (activeTickets s4.1))).
Proof.
  intros Hq before total of_type.
  assert (Hcaps : total before < maxTotal cfg
                  ∧ of_type before < maxPerType cfg).
  { unfold checkQuota in Hq. fold before in Hq. unfold total, of_type.
    destruct (Z.geb_spec (Z.of_nat (length (userTickets before (userId m))))
                (maxTotal cfg)); [done|].
    destruct (Z.geb_spec
                (Z.of_nat (length (userTicketsOfType before (userId m) ty)))
                (maxPerType cfg)); [done|]. lia. }
  split.
  - intros env id formData form Hd Hid Hfresh after.
    assert (Hafter : after
              = <[id := new_record env id (userId m) ty
                          (if form then Some formData else None)]> before).
    { unfold after, new_record. destruct form.
      - by rewrite (createTicketWithFormData_allowed env s m ty id).
      - by rewrite (createTicket_allowed other_formats date_of_data cfg
                      env s m ty id) by auto. }
    destruct (counts_new_record before env id (userId m) ty
                (if form then Some formData else None) Hfresh) as [H1 H2].
    unfold total, of_type in *. rewrite Hafter, H1, H2. lia.
  - intros env1 env2 env3 env4 id1 id2 form1 form2 Hd1 Hd2 Hid1 Hid2 Hne
      Hf1 Hf2 s1 s2 s3 s4.
    assert (E1 : s1 = (loaded' s, [])) by (by apply suspended_run).
    assert (E2 : s2 = (loaded' s, [])).
    { unfold s2. rewrite E1. simpl.
      rewrite <- (loaded_idemp other_formats date_of_data s) at 2.
      apply suspended_run; [done|]. by rewrite loaded_idemp. }
    assert (E3 : activeTickets s3.1
                 = <[id1 := new_record env3 id1 (userId m) ty form1]> before).
    { unfold s3. rewrite E2. simpl. by apply resumed_registry. }
    assert (E4 : activeTickets s4.1
                 = <[id2 := new_record env4 id2 (userId m) ty form2]>
                     (activeTickets s3.1)).
    { by apply resumed_registry. }
    destruct (counts_new_record before env3 id1 (userId m) ty form1 Hf1)
      as [A1 A2].
    destruct (counts_new_record (activeTickets s3.1) env4 id2 (userId m) ty
                form2) as [B1 B2].
    { rewrite E3. by rewrite lookup_insert_ne. }
    rewrite <- E4 in B1, B2. rewrite E3 in B1, B2.
    split; [by rewrite E1|]. split; [by rewrite E2|].
    unfold total, of_type in *. rewrite B1, B2, A1, A2. lia.
Qed.

(** X15. The staff check of the router: an administrator, or a member who
    holds a role configured for the ticket's type (an empty entry
    counts for nothing, a repeated one once); for a type that is none
    of the six, and for a type that is no string, administrators
    only. *)
Theorem staff_check_meaning (m : Member) (ticketType : jsval) :
  (isStaff cfg m ticketType = true
   ↔ isAdministrator m = true
     ∨ ∃ role, role ≠ "" ∧ PStr role ∈ pushed_roles cfg ticketType
               ∧ role ∈ memberRoles m)
  ∧ ((∀ t, ticketType = VStr t → valid_ticket_type t = false) →
     isStaff cfg m ticketType = isAdministrator m).
Proof.
  assert (Hex : existsb (has_role m) (getTicketRoles cfg ticketType) = true
          ↔ ∃ role, role ≠ "" ∧ PStr role ∈ pushed_roles cfg ticketType
                    ∧ role ∈ memberRoles m).
  { rewrite existsb_exists. unfold getTicketRoles. split.
    - intros (x & Hin & Hx). apply list_elem_of_In, elem_of_set_of in Hin as [Hin _].
      apply list_elem_of_In, filter_In in Hin as [Hin Ht].
      destruct x as [| | | |role]; try done. simpl in Hx, Ht.
      apply bool_decide_eq_true in Hx. apply list_elem_of_In in Hin.
      exists role. split; [|done]. intros ->. done.
    - intros (role & Hne & Hin & Hm). exists (PStr role). split.
      + apply list_elem_of_In, elem_of_set_of. split; [|apply not_elem_of_nil].
        apply list_elem_of_In, filter_In. split; [by apply list_elem_of_In|].
        simpl. apply negb_true_iff, String.eqb_neq. done.
      + simpl. by apply bool_decide_eq_true. }
  split.
  - unfold isStaff. rewrite orb_true_iff, Hex. done.
  - intros Ht. unfold isStaff.
    assert (Hp : pushed_roles cfg ticketType = []).
    { destruct ticketType as [[| | | |t]| |]; try done. simpl.
      specialize (Ht t eq_refl). unfold valid_ticket_type in Ht. simpl in Ht.
      repeat (apply orb_false_iff in Ht as [? Ht]).
      repeat match goal with
             | H : String.eqb ?a ?b = false |- _ => rewrite H; clear H
             end.
      done. }
    unfold getTicketRoles. rewrite Hp. simpl. apply orb_false_r.
Qed.


(** X16. A confirmed close whose steps fail part of the way. When the
    permission edit fails nothing has changed. When the post in the
    channel fails the requester has already lost the right to send, and
    the record is still open. When the write fails the record is closed
    in memory only: the file is as before. *)
Theorem confirm_stops_half_way
    (env : Env) (s : State) (c u ty : string) (m : Member) (r : record) :
  buttonToPanel cfg "ticket_close_confirm" = None →
  activeTickets (loaded' s) !! c = Some r →
  field r "userId" = VStr u → field r "type" = VStr ty →
  let s' := (step' env (Button "ticket_close_confirm" c m) s).1 in
  let revoked :=
    <[(c, u) := <["SendMessages" := false]>
                  (default ∅ (permissionOverwrites s !! (c, u)))]>
      (permissionOverwrites s) in
  (permissionEdit_ok env = false → s' = loaded' s)
  ∧ (permissionEdit_ok env = true → channelSend_ok env = false →
     activeTickets s' = activeTickets (loaded' s) ∧ file s' = file s
     ∧ permissionOverwrites s' = revoked)
  ∧ (permissionEdit_ok env = true → channelSend_ok env = true →
     writeFile env = WriteFailedUntouched →
     activeTickets s' = <[c := closed_by r (userId m) (now env)]>
                          (activeTickets (loaded' s))
     ∧ file s' = file s ∧ permissionOverwrites s' = revoked).
Proof.
  intros Hp Hr Hu Hty s' revoked.
  destruct (loaded_fields s) as (Hf & _ & How & _).
  unfold s', revoked. rewrite <- How, <- Hf.
  split; [|split].
  - intros He. hrun. rewrite Hp. hrun. rewrite Hr. hrun. rewrite Hu. hrun.
    rewrite He. done.
  - intros He Hs. hrun. rewrite Hp. hrun. rewrite Hr. hrun. rewrite Hu. hrun.
    rewrite He. hrun. rewrite Hs. done.
  - intros He Hs Hw. hrun. rewrite Hp. hrun. rewrite Hr. hrun. rewrite Hu. hrun.
    rewrite He. hrun. rewrite Hs. hrun. rewrite Hr. hrun. rewrite Hty. hrun.
    rewrite Hw.
    destruct (logChannel cfg); [case_bool_decide|]; done.
Qed.

(** X19. A delete whose write succeeds schedules the removal of the
    channel. When the timer fires the channel is removed, or, when the
    platform refuses, the failure is logged and the channel stays,
    without a record; the timer is spent either way, so nothing tries
    again. When the write fails the record is gone from memory only,
    the file is as before, and the channel is not scheduled for
    removal. *)
Theorem delete_and_the_channel
    (env env' : Env) (s : State) (c ty : string) (m : Member) (r : record) :
  buttonToPanel cfg "ticket_delete" = None →
  activeTickets (loaded' s) !! c = Some r →
  field r "type" = VStr ty →
  isStaff cfg m (VStr ty) = true →
  let s' := (step' env (Button "ticket_delete" c m) s).1 in
  let s'' := (step' env' (DeleteTimer c) s').1 in
  (writeFile env = WriteOk →
   pendingDelete s' = (pendingDelete s ++ [c]) ∧ channels s' = channels s
   ∧ (c ∉ pendingDelete s'') ∧ activeTickets s'' !! c = None
   ∧ (channelDelete_ok env' = true → channels s'' = (channels s ∖ {[c]}))
   ∧ (channelDelete_ok env' = false →
      channels s'' = channels s
      ∧ (step' env' (DeleteTimer c) s').2
        = [ConsoleError "Error deleting channel"]))
  ∧ (writeFile env = WriteFailedUntouched →
     activeTickets s' = delete c (activeTickets (loaded' s))
     ∧ file s' = file s
     ∧ pendingDelete s' = pendingDelete s ∧ channels s' = channels s).
Proof.
  intros Hp Hr Hty Hst s' s''.
  destruct (loaded_fields s) as (Hf & Hch & _ & Hpd).
  pose proof (has_ticket_true _ _ _ Hr) as Hh.
  assert (Hrun : ∀ w, writeFile env = w →
    s' = match w with
         | WriteOk =>
             {| activeTickets := delete c (activeTickets (loaded' s));
                ticketsLoaded := ticketsLoaded (loaded' s);
                file := Doc (serialize (delete c (activeTickets (loaded' s))));
                channels := channels (loaded' s);
                permissionOverwrites := permissionOverwrites (loaded' s);
                pendingDelete := pendingDelete (loaded' s) ++ [c] |}
         | WriteFailedUntouched =>
             {| activeTickets := delete c (activeTickets (loaded' s));
                ticketsLoaded := ticketsLoaded (loaded' s);
                file := file (loaded' s);
                channels := channels (loaded' s);
                permissionOverwrites := permissionOverwrites (loaded' s);
                pendingDelete := pendingDelete (loaded' s) |}
         | WriteFailedTorn =>
             {| activeTickets := delete c (activeTickets (loaded' s));
                ticketsLoaded := ticketsLoaded (loaded' s);
                file := Unparsable;
                channels := channels (loaded' s);
                permissionOverwrites := permissionOverwrites (loaded' s);
                pendingDelete := pendingDelete (loaded' s) |}
         end).
  { intros w Hw. unfold s'.
    hrun. rewrite Hp. hrun. rewrite Hh. hrun. rewrite Hr. hrun.
    rewrite Hty, Hst. hrun. rewrite Hh. hrun. rewrite Hr. hrun.
    rewrite Hty. rewrite Hw.
    destruct (transcript_ok env);
      (destruct (logChannel cfg); [case_bool_decide|]);
      destruct w; done. }
  split.
  - intros Hw. specialize (Hrun _ Hw). unfold s''. rewrite Hrun. simpl.
    rewrite Hpd, Hch. split; [done|]. split; [done|].
    hrun. rewrite bool_decide_eq_true_2 by (apply elem_of_app; right; left).
    destruct (channelDelete_ok env'); simpl.
    + split; [|split; [apply lookup_delete_eq | by split]].
      intros Hin. apply list_elem_of_In, filter_In in Hin as [_ H].
      by rewrite String.eqb_refl in H.
    + split; [|split; [apply lookup_delete_eq | by split]].
      intros Hin. apply list_elem_of_In, filter_In in Hin as [_ H].
      by rewrite String.eqb_refl in H.
  - intros Hw. specialize (Hrun _ Hw). rewrite Hrun. simpl.
    by rewrite Hf, Hch, Hpd.
Qed.


Lemma confirm_permissions
    (env : Env) (s : State) (c u ty : string) (m : Member) (r : record) :
  buttonToPanel cfg "ticket_close_confirm" = None →
  activeTickets (loaded' s) !! c = Some r →
  field r "userId" = VStr u → field r "type" = VStr ty →
  permissionEdit_ok env = true → channelSend_ok env = true →
  permissionOverwrites (step' env (Button "ticket_close_confirm" c m) s).1
  = <[(c, u) := <["SendMessages" := false]>
                  (default ∅ (permissionOverwrites s !! (c, u)))]>
      (permissionOverwrites s).
Proof.
  intros Hp Hr Hu Hty He Hs.
  destruct (loaded_fields s) as (_ & _ & How & _). rewrite <- How.
  repeat first [progress hrun
               | progress rewrite ?Hp, ?Hr, ?Hu, ?Hty, ?He, ?Hs].
  destruct (logChannel cfg); [case_bool_decide|];
    destruct (writeFile env); done.
Qed.

Lemma reopen_permissions
    (env : Env) (s : State) (c u ty : string) (m : Member) (r : record) :
  buttonToPanel cfg "ticket_reopen" = None →
  activeTickets (loaded' s) !! c = Some r →
  field r "userId" = VStr u → field r "type" = VStr ty →
  isStaff cfg m (VStr ty) = true →
  permissionEdit_ok env = true → channelSend_ok env = true →
  permissionOverwrites (step' env (Button "ticket_reopen" c m) s).1
  = <[(c, u) := <["SendMessages" := true]>
                  (default ∅ (permissionOverwrites s !! (c, u)))]>
      (permissionOverwrites s).
Proof.
  intros Hp Hr Hu Hty Hst He Hs.
  pose proof (has_ticket_true _ _ _ Hr) as Hh.
  destruct (loaded_fields s) as (_ & _ & How & _). rewrite <- How.
  repeat first [progress hrun
               | progress rewrite ?Hp, ?Hh, ?Hr, ?Hu, ?Hty, ?Hst, ?He, ?Hs].
  destruct (logChannel cfg); [case_bool_decide|];
    destruct (writeFile env); done.
Qed.

(** X18. Closing a ticket takes the right to send from the user the
    record names, whoever confirms; reopening gives it back: when that
    user could send before, the permissions of every channel are after
    close and reopen what they were. *)
Theorem close_reopen_restores_permissions
    (env1 env2 : Env) (s : State) (c u ty : string) (m1 m2 : Member)
    (r : record) (allow : gmap string bool) :
  buttonToPanel cfg "ticket_close_confirm" = None →
  buttonToPanel cfg "ticket_reopen" = None →
  activeTickets (loaded' s) !! c = Some r →
  field r "userId" = VStr u → field r "type" = VStr ty →
  isStaff cfg m2 (VStr ty) = true →
  permissionEdit_ok env1 = true → channelSend_ok env1 = true →
  permissionEdit_ok env2 = true → channelSend_ok env2 = true →
  permissionOverwrites s !! (c, u) = Some allow →
  allow !! "SendMessages" = Some true →
  let s1 := (step' env1 (Button "ticket_close_confirm" c m1) s).1 in
  let s2 := (step' env2 (Button "ticket_reopen" c m2) s1).1 in
  permissionOverwrites s1 !! (c, u) = Some (<["SendMessages" := false]> allow)
  ∧ permissionOverwrites s2 = permissionOverwrites s.
Proof.
  intros Hp1 Hp2 Hr Hu Hty Hst He1 Hs1 He2 Hs2 How Hallow s1 s2.
  destruct (confirm_registry other_formats date_of_data cfg env1
              s c u ty m1 r) as [Hreg1 Hl1]; try done.
  pose proof (confirm_permissions env1 s c u ty m1 r Hp1 Hr Hu Hty He1 Hs1)
    as Hperm1.
  fold s1 in Hreg1, Hl1, Hperm1. rewrite How in Hperm1. simpl in Hperm1.
  assert (Hr1 : activeTickets (loaded' s1) !! c
                = Some (closed_by r (userId m1) (now env1))).
  { rewrite loaded_id by done. rewrite Hreg1. apply lookup_insert_eq. }
  split; [by rewrite Hperm1, lookup_insert_eq|].
  unfold s2.
  rewrite (reopen_permissions env2 s1 c u ty m2 _ Hp2 Hr1); try done.
  2, 3: unfold closed_by, field; by rewrite !lookup_insert_ne.
  rewrite Hperm1, lookup_insert_eq. simpl.
  rewrite insert_insert_eq. rewrite insert_insert_eq.
  rewrite (insert_id allow) by done. by apply insert_id.
Qed.

(** X14. The quota counts follow the buttons. A confirmed close of an
    open ticket, and a delete of it, each leave its user with one open
    ticket less, in all and of its type; a reopen after the close
    brings both counts back to what they were. *)
Theorem quota_follows_lifecycle
    (env1 env2 env3 : Env) (s : State) (c user ty : string)
    (m1 m2 m3 : Member) (r : record) :
  buttonToPanel cfg "ticket_close_confirm" = None →
  buttonToPanel cfg "ticket_reopen" = None →
  buttonToPanel cfg "ticket_delete" = None →
  activeTickets (loaded' s) !! c = Some r →
  field r "userId" = VStr user → field r "type" = VStr ty →
  truthy (field r "closed") = false →
  isStaff cfg m2 (VStr ty) = true → isStaff cfg m3 (VStr ty) = true →
  permissionEdit_ok env1 = true → channelSend_ok env1 = true →
  permissionEdit_ok env2 = true → channelSend_ok env2 = true →
  let total st := length (userTickets (activeTickets st) user) in
  let of_type st := length (userTicketsOfType (activeTickets st) user ty) in
  let closed := (step' env1 (Button "ticket_close_confirm" c m1) s).1 in
  let reopened := (step' env2 (Button "ticket_reopen" c m2) closed).1 in
  let deleted := (step' env3 (Button "ticket_delete" c m3) s).1 in
  (total closed + 1 = total (loaded' s)
   ∧ of_type closed + 1 = of_type (loaded' s))%nat
  ∧ (total deleted + 1 = total (loaded' s)
     ∧ of_type deleted + 1 = of_type (loaded' s))%nat
  ∧ (total reopened = total (loaded' s)
     ∧ of_type reopened = of_type (loaded' s)).
Proof.
  intros Hpc Hpr Hpd Hr Hu Hty Hopen Hs2 Hs3 He1 Hc1 He2 Hc2
    total of_type closed reopened deleted.
  destruct (confirm_registry other_formats date_of_data cfg env1 s c user ty
              m1 r Hpc Hr Hu Hty He1 Hc1) as [Hclosed Hl1].
  fold closed in Hclosed, Hl1.
  assert (Hr1 : activeTickets (loaded' closed) !! c
                = Some (closed_by r (userId m1) (now env1))).
  { rewrite (loaded_id _ _ _ Hl1), Hclosed. apply lookup_insert_eq. }
  destruct (reopen_registry other_formats date_of_data cfg env2 closed c
              user ty m2 _ Hpr Hr1) as [Hreopened _]; try done.
  { unfold closed_by, field. by rewrite !lookup_insert_ne. }
  { unfold closed_by, field. by rewrite !lookup_insert_ne. }
  fold reopened in Hreopened.
  rewrite (loaded_id _ _ _ Hl1), Hclosed in Hreopened.
  destruct (delete_registry other_formats date_of_data cfg env3 s c ty m3 r
              Hpd Hr Hty Hs3) as (Hdeleted & _).
  fold deleted in Hdeleted.
  unfold total, of_type. rewrite Hclosed, Hreopened, Hdeleted.
  exact (counts_follow_records (activeTickets (loaded' s)) c user ty
           (userId m1) (userId m2) (now env1) (now env2) r Hr Hu Hty Hopen).
Qed.

End MoreRuns.

(* ===================================================================== *)
(** * The staff roles of a ticket type                                    *)
(* ===================================================================== *)

Section Roles.
Import Tickets.

Variable other_formats : string → option Z.
Variable date_of_data : json → option Z.
Variable cfg : Config.

(** A type that is none of the six pushes nothing. *)
Lemma pushed_roles_other (ticketType : jsval) :
  (∀ t, ticketType = VStr t → valid_ticket_type t = false) →
  pushed_roles cfg ticketType = [].
Proof.
  intros Ht. destruct ticketType as [[| | | |t]| |]; try done. simpl.
  specialize (Ht t eq_refl). unfold valid_ticket_type in Ht. simpl in Ht.
  repeat (apply orb_false_iff in Ht as [? Ht]).
  repeat match goal with
         | H : String.eqb ?a ?b = false |- _ => rewrite H; clear H
         end.
  done.
Qed.

Lemma existsb_has_role (m : Member) (roles : list prim) :
  existsb (has_role m) roles = true
  ↔ ∃ role, PStr role ∈ roles ∧ role ∈ memberRoles m.
Proof.
  rewrite existsb_exists. split.
  - intros (x & Hin & Hx). destruct x as [| | | |role]; try done.
    exists role. split; [by apply list_elem_of_In|].
    by apply bool_decide_eq_true in Hx.
  - intros (role & Hin & Hm). exists (PStr role).
    split; [by apply list_elem_of_In|]. by apply bool_decide_eq_true.
Qed.

(** C9, as amended. [getTicketRoles] returns the entry configured for
    the ticket type ([joinTeam] and [hr]: the [hr] entry; [bookUs]: the
    [bookings] entry; [support], [partnership], [founders]: their own;
    anything else: nothing) with duplicates and empty (falsy) values
    removed; it does not look at the shape of an identifier. The shape
    test [isValidSnowflake] is applied by the two creation paths to the
    list it returns, when they build the overwrites of the new channel;
    the staff check of the router uses the list as it is returned. *)
Theorem getTicketRoles_result (ticketType : jsval) :
  NoDup (getTicketRoles cfg ticketType)
  ∧ (∀ role, role ∈ getTicketRoles cfg ticketType
             ↔ role ∈ pushed_roles cfg ticketType ∧ truthy_prim role = true)
  ∧ (∀ role, role ∈ List.filter isValidSnowflake (getTicketRoles cfg ticketType)
             ↔ role ∈ getTicketRoles cfg ticketType
               ∧ isValidSnowflake role = true)
  ∧ pushed_roles cfg (VStr "joinTeam") = push_roles (staffRoles_hr cfg)
  ∧ pushed_roles cfg (VStr "bookUs") = push_roles (staffRoles_bookings cfg)
  ∧ pushed_roles cfg (VStr "support") = push_roles (staffRoles_support cfg)
  ∧ pushed_roles cfg (VStr "partnership")
    = push_roles (staffRoles_partnership cfg)
  ∧ pushed_roles cfg (VStr "founders") = push_roles (staffRoles_founders cfg)
  ∧ pushed_roles cfg (VStr "hr") = push_roles (staffRoles_hr cfg)
  ∧ ((∀ t, ticketType = VStr t → valid_ticket_type t = false) →
     pushed_roles cfg ticketType = [] ∧ getTicketRoles cfg ticketType = [])
  ∧ (∀ (env : Env) (s : State) (m : Member) (ty id : string)
       (formData : jsval) (form : bool),
       checkQuota cfg (activeTickets (loaded other_formats date_of_data s))
         (userId m) ty = Allow →
       created_channel env = Some id →
       (form = false → deferReply_ok env = true) →
       permissionOverwrites
         (run (if form
               then createTicketWithFormData other_formats date_of_data cfg
                      env m ty formData
               else createTicket other_formats date_of_data cfg env m ty)
            s).1
       = foldl (add_role_overwrite env id)
           (<[(id, userId m) := requester_allow form]>
              (<[(id, guildId env) := {["ViewChannel" := false]}]>
                 (permissionOverwrites s)))
           (List.filter isValidSnowflake (getTicketRoles cfg (VStr ty))))
  ∧ (∀ m : Member,
       isStaff cfg m ticketType = true
       ↔ isAdministrator m = true
         ∨ ∃ role, PStr role ∈ getTicketRoles cfg ticketType
                   ∧ role ∈ memberRoles m)
  ∧ (∀ (env : Env) (s : State) (c : string) (m : Member) (r : record),
       buttonToPanel cfg "ticket_close" = None →
       activeTickets (loaded other_formats date_of_data s) !! c = Some r →
       field r "type" = ticketType →
       step other_formats date_of_data cfg env (Button "ticket_close" c m) s
       = (loaded other_formats date_of_data s,
          if isAdministrator m
             || existsb (has_role m) (getTicketRoles cfg ticketType)
          then [ClosePrompt] else [Reply msg_staff_only])).
Proof.
  split; [apply NoDup_set_of|].
  split; [|split; [|do 6 (split; [done|]); split; [|split; [|split]]]].
  - intros role. unfold getTicketRoles.
    rewrite elem_of_set_of, elem_of_nil.
    rewrite !list_elem_of_In, filter_In. tauto.
  - intros role. by rewrite !list_elem_of_In, filter_In.
  - intros Ht. pose proof (pushed_roles_other ticketType Ht) as Hp.
    split; [exact Hp|]. unfold getTicketRoles. by rewrite Hp.
  - intros env s m ty id formData [|] Hq Hid Hd.
    + by apply createTicketWithFormData_overwrites.
    + apply createTicket_overwrites; auto.
  - intros m. unfold isStaff.
    by rewrite orb_true_iff, existsb_has_role.
  - intros env s c m r Hp Hr <-.
    by rewrite (close_request_run other_formats date_of_data cfg env s c m r).
Qed.

End Roles.

(* ===================================================================== *)
(** * Channel names and dates for display                                 *)
(* ===================================================================== *)

Section DisplayFacts.
Import Display.

Lemma lower_name_char (c : ascii) :
  (is_word (lower c) || is_space (lower c) || is_dash (lower c)) = true →
  is_space (lower c) = false → name_char (lower c) = true.
Proof. destruct c as [[] [] [] [] [] [] [] []]; vm_compute; intros; congruence. Qed.

Lemma name_char_facts (c : ascii) :
  name_char c = true →
  lower c = c ∧ (is_word c || is_space c || is_dash c) = true
  ∧ is_space c = false.
Proof. destruct c as [[] [] [] [] [] [] [] []]; vm_compute; intros; (discriminate || tauto). Qed.

Lemma is_dash_facts (c : ascii) :
  is_dash c = true →
  c = "-"%char ∧ lower c = c ∧ is_space c = false ∧ name_char c = true.
Proof. destruct c as [[] [] [] [] [] [] [] []]; vm_compute; intros; (discriminate || tauto). Qed.

Lemma all_chars_lowered_kept (s : string) :
  all_chars name_char
    (replace_runs is_space false
       (remove_others (λ c, is_word c || is_space c || is_dash c)
          (toLowerCase s))) = true.
Proof.
  generalize false.
  induction s as [|c s IH]; intros b; simpl; [done|].
  pose proof (lower_name_char c) as Hn.
  destruct (is_word (lower c) || is_space (lower c) || is_dash (lower c));
    [|apply IH].
  simpl. destruct (is_space (lower c)).
  - destruct b; simpl; apply IH.
  - simpl. rewrite IH, andb_true_r. by apply Hn.
Qed.

Lemma all_chars_replace_dash (b : bool) (s : string) :
  all_chars name_char s = true →
  all_chars name_char (replace_runs is_dash b s) = true.
Proof.
  revert b. induction s as [|c s IH]; intros b; simpl; [done|].
  intros [Hc Hs]%andb_true_iff.
  destruct (is_dash c) eqn:Hd.
  - destruct b; simpl; by apply IH.
  - simpl. rewrite Hc. by apply IH.
Qed.

Lemma single_dashes_replace (b : bool) (s : string) :
  single_dashes (replace_runs is_dash b s) = true
  ∧ (b = true → match replace_runs is_dash b s with
                | String c _ => is_dash c = false
                | EmptyString => True
                end).
Proof.
  revert b. induction s as [|c s IH]; intros b; simpl; [done|].
  destruct (is_dash c) eqn:Hd.
  - destruct b.
    + apply IH.
    + split; [|done]. simpl.
      destruct (IH true) as [H1 H2]. rewrite H1, andb_true_r.
      specialize (H2 eq_refl).
      destruct (replace_runs is_dash true s); [done|].
      by rewrite H2.
  - split; [|done]. simpl. rewrite Hd. simpl. apply IH.
Qed.

Lemma length_substring_le (n : nat) (s : string) :
  (String.length (String.substring 0 n s) ≤ n)%nat.
Proof.
  revert s. induction n as [|n IH]; intros [|c s]; simpl; try lia.
  specialize (IH s). lia.
Qed.

Lemma all_chars_substring (p : ascii → bool) (n : nat) (s : string) :
  all_chars p s = true → all_chars p (String.substring 0 n s) = true.
Proof.
  revert s. induction n as [|n IH]; intros [|c s]; simpl; try done.
  intros [Hc Hs]%andb_true_iff. rewrite Hc. by apply IH.
Qed.

Lemma single_dashes_substring (n : nat) (s : string) :
  single_dashes s = true → single_dashes (String.substring 0 n s) = true.
Proof.
  revert s. induction n as [|n IH]; intros [|c s]; simpl; try done.
  intros [Hc Hs]%andb_true_iff. rewrite (IH s Hs), andb_true_r.
  destruct (is_dash c); [|done]. simpl in *.
  destruct s as [|c' s]; [by destruct n|].
  destruct n; [done|]. simpl. done.
Qed.

Lemma substring_all (n : nat) (s : string) :
  (String.length s ≤ n)%nat → String.substring 0 n s = s.
Proof.
  revert s. induction n as [|n IH]; intros [|c s]; simpl; try done; try lia.
  intros H. f_equal. apply IH. lia.
Qed.

Lemma toLowerCase_name (s : string) :
  all_chars name_char s = true → toLowerCase s = s.
Proof.
  induction s as [|c s IH]; simpl; [done|].
  intros [Hc Hs]%andb_true_iff.
  destruct (name_char_facts c Hc) as (-> & _). f_equal. by apply IH.
Qed.

Lemma remove_others_name (s : string) :
  all_chars name_char s = true →
  remove_others (λ c, is_word c || is_space c || is_dash c) s = s.
Proof.
  induction s as [|c s IH]; simpl; [done|].
  intros [Hc Hs]%andb_true_iff.
  destruct (name_char_facts c Hc) as (_ & -> & _). f_equal. by apply IH.
Qed.

Lemma replace_spaces_name (b : bool) (s : string) :
  all_chars name_char s = true → replace_runs is_space b s = s.
Proof.
  revert b. induction s as [|c s IH]; intros b; simpl; [done|].
  intros [Hc Hs]%andb_true_iff.
  destruct (name_char_facts c Hc) as (_ & _ & ->). f_equal. by apply IH.
Qed.

Lemma replace_dashes_single (b : bool) (s : string) :
  single_dashes s = true →
  (b = true → match s with
              | String c _ => is_dash c = false
              | EmptyString => True
              end) →
  replace_runs is_dash b s = s.
Proof.
  revert b. induction s as [|c s IH]; intros b; simpl; [done|].
  intros [Hc Hs]%andb_true_iff Hb.
  destruct (is_dash c) eqn:Hd.
  - destruct b; [by specialize (Hb eq_refl)|].
    destruct (is_dash_facts c Hd) as (Hc' & _). rewrite <- Hc' at 1.
    f_equal. apply IH; [done|]. intros _.
    simpl in Hc. destruct s; [done|]. by apply negb_true_iff in Hc.
  - f_equal. by apply IH.
Qed.

Lemma sanitize_shape (name : string) :
  (String.length (sanitizeChannelName name) ≤ 90)%nat
  ∧ all_chars name_char (sanitizeChannelName name) = true
  ∧ single_dashes (sanitizeChannelName name) = true.
Proof.
  unfold sanitizeChannelName. split; [apply length_substring_le|]. split.
  - apply all_chars_substring, all_chars_replace_dash, all_chars_lowered_kept.
  - apply single_dashes_substring, single_dashes_replace.
Qed.

Lemma sanitize_fixed (name : string) :
  (String.length name ≤ 90)%nat →
  all_chars name_char name = true → single_dashes name = true →
  sanitizeChannelName name = name.
Proof.
  intros Hl Hc Hd. unfold sanitizeChannelName.
  rewrite (toLowerCase_name _ Hc), (remove_others_name _ Hc),
    (replace_spaces_name _ _ Hc), (replace_dashes_single _ _ Hd) by done.
  by apply substring_all.
Qed.

(** X20. Whatever the name given, the channel name made of it has at
    most 90 characters, each a lower-case letter, a digit, an
    underscore or a dash, and no two dashes in a row. It may be empty,
    and may begin or end with a dash. *)
Theorem sanitizeChannelName_shape (name : string) :
  (String.length (sanitizeChannelName name) ≤ 90)%nat
  ∧ all_chars name_char (sanitizeChannelName name) = true
  ∧ single_dashes (sanitizeChannelName name) = true.
Proof.
  unfold sanitizeChannelName. repeat split.
  - apply length_substring_le.
  - apply all_chars_substring, all_chars_replace_dash, all_chars_lowered_kept.
  - apply single_dashes_substring, single_dashes_replace.
Qed.

(** X21. The names [sanitizeChannelName] leaves as they are, are exactly
    those of that shape; so sanitizing twice is sanitizing once. *)
Theorem sanitizeChannelName_fixed_points (name : string) :
  (sanitizeChannelName name = name
   ↔ (String.length name ≤ 90)%nat
     ∧ all_chars name_char name = true ∧ single_dashes name = true)
  ∧ sanitizeChannelName (sanitizeChannelName name) = sanitizeChannelName name.
Proof.
  split; [split|].
  - intros E. rewrite <- E. apply sanitize_shape.
  - intros (Hl & Hc & Hd). by apply sanitize_fixed.
  - destruct (sanitize_shape name) as (Hl & Hc & Hd).
    by apply sanitize_fixed.
Qed.

(** A dash in the name survives. *)
Lemma has_dash_app (a b : string) : has_char is_dash (a +:+ "-" +:+ b) = true.
Proof.
  induction a as [|c a IH]; [done|].
  change (String c a +:+ "-" +:+ b) with (String c (a +:+ "-" +:+ b)).
  simpl. rewrite IH. apply orb_true_r.
Qed.

Lemma has_dash_lowered_kept (b : bool) (s : string) :
  has_char is_dash s = true →
  has_char is_dash
    (replace_runs is_space b
       (remove_others (λ c, is_word c || is_space c || is_dash c)
          (toLowerCase s))) = true.
Proof.
  revert b. induction s as [|c s IH]; intros b; simpl; [done|].
  intros [Hc | Hs]%orb_true_iff.
  - destruct (is_dash_facts c Hc) as (-> & _). by vm_compute.
  - destruct (is_word (lower c) || is_space (lower c) || is_dash (lower c));
      [|by apply IH].
    simpl. destruct (is_space (lower c)).
    + destruct b; [by apply IH | done].
    + simpl. rewrite IH by done. apply orb_true_r.
Qed.

Lemma replace_runs_nonempty (x : ascii → bool) (s : string) :
  s ≠ EmptyString → replace_runs x false s ≠ EmptyString.
Proof. destruct s as [|c s]; [done|]. simpl. by destruct (x c). Qed.

Lemma sanitizeChannelName_nonempty (name : string) :
  has_char is_dash name = true → sanitizeChannelName name ≠ EmptyString.
Proof.
  intros H. unfold sanitizeChannelName.
  pose proof (has_dash_lowered_kept false name H) as H1.
  pose proof (replace_runs_nonempty is_dash _
                (λ E, ltac:(rewrite E in H1; discriminate))) as H2.
  destruct (replace_runs is_dash false _); done.
Qed.

(** X22. The name asked for a new ticket channel, whatever the type,
    the user name and the count: between 1 and 90 characters, each a
    lower-case letter, a digit, an underscore or a dash, no two dashes
    in a row. It is never empty, because the dash between type and
    user name is kept. *)
Theorem ticketName_usable (ticketType username : string) (openOfType : nat) :
  let name := ticketName ticketType username openOfType in
  (1 ≤ String.length name ≤ 90)%nat
  ∧ all_chars name_char name = true ∧ single_dashes name = true.
Proof.
  unfold ticketName.
  destruct (0 <? openOfType)%nat; simpl;
    match goal with
    | |- context [sanitizeChannelName ?x] =>
        destruct (sanitize_shape x) as (Hl & Hc & Hd);
        pose proof (sanitizeChannelName_nonempty x (has_dash_app _ _)) as Hn;
        destruct (sanitizeChannelName x); [done|]; simpl in *;
        repeat split; (lia || done)
    end.
Qed.

Import JSDate.

Lemma str_length_app (a b : string) :
  String.length (a +:+ b) = (String.length a + String.length b)%nat.
Proof.
  induction a as [|c a IH]; [done|].
  rewrite str_app_cons. simpl. by rewrite IH.
Qed.

Lemma length_pad_digits (k : nat) (n : Z) : String.length (pad_digits k n) = k.
Proof.
  revert n. induction k as [|k IH]; intros n; [done|].
  change (pad_digits (S k) n)
    with (pad_digits k (n / 10) +:+ String (digit_char (n mod 10)) EmptyString).
  rewrite str_length_app, IH. simpl. lia.
Qed.

Lemma substring_app_l (a b : string) :
  String.substring 0 (String.length a) (a +:+ b) = a.
Proof.
  induction a as [|c a IH]; [by destruct b|].
  rewrite str_app_cons. simpl. by rewrite IH.
Qed.

Lemma substring_app_skip (a b : string) (n m : nat) :
  String.substring (String.length a + n) m (a +:+ b) = String.substring n m b.
Proof.
  induction a as [|c a IH]; [done|].
  rewrite str_app_cons. simpl. apply IH.
Qed.

Lemma two_digits (n : Z) :
  0 <= n <= 99 → padStart 2 "0" (Tickets.string_of_Z n) = pad_digits 2 n.
Proof.
  intros Hn.
  assert (H : forallb (λ k, String.eqb
                              (padStart 2 "0" (Tickets.string_of_Z (Z.of_nat k)))
                              (pad_digits 2 (Z.of_nat k)))
                      (seq 0 100) = true) by (vm_compute; reflexivity).
  rewrite forallb_forall in H.
  specialize (H (Z.to_nat n)). rewrite Z2Nat.id in H by lia.
  apply String.eqb_eq, H, in_seq. lia.
Qed.

Lemma four_digits (y : Z) :
  1000 <= y <= 9999 → Tickets.string_of_Z y = pad_digits 4 y.
Proof.
  intros Hy.
  assert (H : forallb (λ k, String.eqb
                              (Tickets.string_of_Z (1000 + Z.of_nat k))
                              (pad_digits 4 (1000 + Z.of_nat k)))
                      (seq 0 (90 * 100)) = true) by (vm_compute; reflexivity).
  rewrite forallb_forall in H.
  specialize (H (Z.to_nat (y - 1000))).
  replace (1000 + Z.of_nat (Z.to_nat (y - 1000))) with y in H by lia.
  apply String.eqb_eq, H, in_seq. lia.
Qed.

Lemma length_iso_date (t : Z) : String.length (iso_date t) = 10%nat.
Proof.
  unfold iso_date. rewrite !str_length_app, !length_pad_digits. done.
Qed.

Lemma length_iso_time (t : Z) : String.length (iso_time t) = 8%nat.
Proof.
  unfold iso_time. rewrite !str_length_app, !length_pad_digits. done.
Qed.

Lemma toISOString_parts (t : Z) :
  0 <= YearFromTime t <= 9999 →
  toISOString t
  = iso_date t +:+ "T" +:+ iso_time t +:+ "." +:+
    pad_digits 3 (msFromTime t) +:+ "Z".
Proof.
  intros Hy. unfold toISOString, year_string, iso_date, iso_time.
  destruct (Z.leb_spec 0 (YearFromTime t)); [|lia].
  destruct (Z.leb_spec (YearFromTime t) 9999); [|lia].
  cbv [andb]. by rewrite !str_app_assoc.
Qed.

Lemma formatDateUTC_parts (t : Z) :
  1000 <= YearFromTime t <= 9999 →
  formatDateUTC (Some t) = iso_date t +:+ " " +:+ iso_time t.
Proof.
  intros Hy.
  pose proof (MonthFromTime_range t) as Hm.
  pose proof (DateFromTime_range t) as Hd.
  pose proof (DaysInMonth_le (YearFromTime t) _ Hm) as Hd'.
  pose proof (time_fields_range t) as (Hh & Hmi & Hs & Hms).
  unfold formatDateUTC, iso_date, iso_time, String_of. cbv [fmap option_fmap option_map].
  rewrite four_digits by done.
  rewrite !two_digits by lia. by rewrite !str_app_assoc.
Qed.

(** X23. For a date of a four-digit year, [formatDateUTC] gives the
    first nineteen characters of the ISO string with a space in place
    of the [T]: the date and the time of day down to the second, in
    UTC. *)
Theorem formatDateUTC_iso (t : Z) :
  1000 <= YearFromTime t <= 9999 →
  formatDateUTC (Some t)
  = String.substring 0 10 (toISOString t) +:+ " " +:+
    String.substring 11 8 (toISOString t).
Proof.
  intros Hy. rewrite formatDateUTC_parts, toISOString_parts by lia.
  pose proof (substring_app_l (iso_date t)) as H1.
  pose proof (substring_app_skip (iso_date t)) as H2.
  rewrite length_iso_date in H1, H2.
  rewrite H1. change 11%nat with (10 + 1)%nat. rewrite H2.
  pose proof (substring_app_l (iso_time t)) as H3.
  rewrite length_iso_time in H3.
  do 2 f_equal; symmetry;
    exact (H3 ("." +:+ pad_digits 3 (msFromTime t) +:+ "Z")).
Qed.

Lemma Day_second_start (t : Z) : Day (second_start t) = Day t.
Proof.
  unfold Day, second_start, msPerDay. Z.div_mod_to_equations. lia.
Qed.

Lemma time_second_start (t : Z) :
  HourFromTime (second_start t) = HourFromTime t
  ∧ MinFromTime (second_start t) = MinFromTime t
  ∧ SecFromTime (second_start t) = SecFromTime t
  ∧ msFromTime (second_start t) = 0.
Proof.
  unfold HourFromTime, MinFromTime, SecFromTime, msFromTime, second_start,
    msPerHour, msPerMinute, msPerSecond.
  repeat split; Z.div_mod_to_equations; lia.
Qed.

Lemma date_second_start (t : Z) :
  YearFromTime (second_start t) = YearFromTime t
  ∧ MonthFromTime (second_start t) = MonthFromTime t
  ∧ DateFromTime (second_start t) = DateFromTime t.
Proof.
  unfold DateFromTime, MonthFromTime, InLeapYear, DayWithinYear, YearFromTime.
  by rewrite Day_second_start.
Qed.

Lemma year_in_range (t : Z) :
  1000 <= YearFromTime t <= 9999 → Z.abs t <= maxTime.
Proof.
  intros Hy. unfold YearFromTime in Hy.
  pose proof (YearFromDay_spec (Day t)) as H.
  assert (Hd : DayFromYear 1000 <= Day t < DayFromYear 10000).
  { revert H Hy. generalize (YearFromDay (Day t)). intros y H Hy.
    unfold DayFromYear in *. Z.div_mod_to_equations. lia. }
  unfold DayFromYear in Hd. unfold Day, msPerDay in Hd. unfold maxTime.
  Z.div_mod_to_equations. lia.
Qed.

Lemma iso_second_start (t : Z) :
  iso_date (second_start t) = iso_date t
  ∧ iso_time (second_start t) = iso_time t.
Proof.
  destruct (date_second_start t) as (Hy & Hm & Hd).
  destruct (time_second_start t) as (Hh & Hmi & Hs & _).
  unfold iso_date, iso_time. by rewrite Hy, Hm, Hd, Hh, Hmi, Hs.
Qed.

(** X24. Two instants of four-digit years are printed alike by
    [formatDateUTC] exactly when they lie in the same second: the
    milliseconds are dropped, nothing else is. *)
Theorem formatDateUTC_seconds (t1 t2 : Z) :
  1000 <= YearFromTime t1 <= 9999 → 1000 <= YearFromTime t2 <= 9999 →
  formatDateUTC (Some t1) = formatDateUTC (Some t2) ↔ t1 / 1000 = t2 / 1000.
Proof.
  intros H1 H2. rewrite !formatDateUTC_parts by done. split.
  - intros He.
    assert (Hd : iso_date t1 = iso_date t2).
    { rewrite <- (substring_app_l (iso_date t1) (" " +:+ iso_time t1)),
        <- (substring_app_l (iso_date t2) (" " +:+ iso_time t2)).
      by rewrite !length_iso_date, He. }
    assert (Ht : iso_time t1 = iso_time t2).
    { rewrite Hd in He. apply (f_equal (String.substring (10 + 1) 8)) in He.
      pose proof (substring_app_skip (iso_date t2)) as K.
      rewrite length_iso_date in K. rewrite !K in He.
      pose proof (substring_all 8 (iso_time t1)) as K1.
      pose proof (substring_all 8 (iso_time t2)) as K2.
      rewrite length_iso_time in K1, K2.
      rewrite <- K1, <- K2 by done. exact He. }
    destruct (date_second_start t1) as (Y1 & _).
    destruct (date_second_start t2) as (Y2 & _).
    destruct (iso_second_start t1) as (D1 & T1).
    destruct (iso_second_start t2) as (D2 & T2).
    destruct (time_second_start t1) as (_ & _ & _ & M1).
    destruct (time_second_start t2) as (_ & _ & _ & M2).
    assert (Hiso : toISOString (second_start t1) = toISOString (second_start t2)).
    { rewrite !toISOString_parts by lia.
      by rewrite D1, D2, T1, T2, M1, M2, Hd, Ht. }
    pose proof (parse_toISOString (λ _, None) (second_start t1)
                  (year_in_range (second_start t1) ltac:(lia))) as P1.
    pose proof (parse_toISOString (λ _, None) (second_start t2)
                  (year_in_range (second_start t2) ltac:(lia))) as P2.
    rewrite Hiso, P2 in P1. unfold second_start in P1. injection P1. lia.
  - intros He.
    destruct (iso_second_start t1) as (D1 & T1).
    destruct (iso_second_start t2) as (D2 & T2).
    unfold second_start in *. rewrite He in D1, T1. congruence.
Qed.

End DisplayFacts.

(* ===================================================================== *)
(** * The classes: circular queue, insertion sort, binary search          *)
(* ===================================================================== *)

Section CircularQueueFacts.
Import CircularQueue.

Lemma well_formed_cases (q : Queue) :
  well_formed q →
  ∃ a0 a1 a2 a3 a4, arr q = [a0; a1; a2; a3; a4]
    ∧ (F q = -1 ∧ R q = -1
       ∨ (F q = 0 ∨ F q = 1 ∨ F q = 2 ∨ F q = 3 ∨ F q = 4)
         ∧ (R q = 0 ∨ R q = 1 ∨ R q = 2 ∨ R q = 3 ∨ R q = 4)).
Proof.
  intros [Hl Hfr]. destruct q as [a f r]; simpl in *.
  destruct a as [|a0 [|a1 [|a2 [|a3 [|a4 [|]]]]]]; try done.
  exists a0, a1, a2, a3, a4. split; [done|].
  destruct Hfr as [|[]]; [by left | right]. lia.
Qed.

Lemma call_on_list (fuel : nat) (c : Call) (q : Queue) :
  well_formed q →
  ∃ q', call (5 + fuel) c q = Some (Returned q' (on_list c (contents q)).2)
        ∧ well_formed q'
        ∧ contents q' = (on_list c (contents q)).1.
Proof.
  intros Hq. destruct (well_formed_cases q Hq) as (a0 & a1 & a2 & a3 & a4 & Ha & Hfr).
  destruct q as [a f r]; simpl in Ha, Hfr. subst a.
  destruct Hfr as [[-> ->] | [Hf Hr]].
  - destruct c; (eexists; split; [vm_compute; reflexivity|]; split;
      [unfold well_formed; simpl; lia | vm_compute; reflexivity]).
  - destruct Hf as [-> | [-> | [-> | [-> | ->]]]];
    destruct Hr as [-> | [-> | [-> | [-> | ->]]]];
    destruct c; (eexists; split; [vm_compute; reflexivity|]; split;
      [unfold well_formed; simpl; lia | vm_compute; reflexivity]).
Qed.

Lemma calls_on_list (fuel : nat) (calls : list Call) (q : Queue) :
  well_formed q →
  ∃ q', calls_from (5 + fuel) calls q
        = Some (Returned q' (all_on_list calls (contents q)).2)
        ∧ well_formed q'
        ∧ contents q' = (all_on_list calls (contents q)).1.
Proof.
  revert q. induction calls as [|c calls IH]; intros q Hq.
  - by exists q.
  - destruct (call_on_list fuel c q Hq) as (q1 & Hc & Hq1 & Hl1).
    destruct (IH q1 Hq1) as (q2 & Hcs & Hq2 & Hl2).
    exists q2.
    change (calls_from (5 + fuel) (c :: calls) q)
      with (match call (5 + fuel) c q with
            | Some (Returned q1 printed) =>
                match calls_from (5 + fuel) calls q1 with
                | Some (Returned q2 printed') =>
                    Some (Returned q2 (printed ++ printed'))
                | other => other
                end
            | other => other
            end).
    rewrite Hc, Hcs. rewrite Hl1 in Hl2 |- *.
    simpl. destruct (on_list c (contents q)) as [l1 p1]. simpl in *.
    destruct (all_on_list calls l1) as [l2 p2]. simpl in *. done.
Qed.

Lemma length_contents (q : Queue) :
  well_formed q → (length (contents q) ≤ 5)%nat.
Proof.
  intros [_ Hfr]. unfold contents.
  destruct (Z.eqb_spec (F q) (-1)); [simpl; lia|].
  rewrite length_map, length_seq. unfold max.
  pose proof (Z.mod_pos_bound (R q - F q) 5). lia.
Qed.

(** X25. Whatever the calls made on a new queue, none goes out of the
    array and [display] ends within five rounds; the lines printed and
    the elements held are those of a list used first in, first out and
    never longer than five. *)
Theorem circular_queue_first_in_first_out (fuel : nat) (calls : list Call) :
  ∃ q, calls_from (5 + fuel) calls new
       = Some (Returned q (all_on_list calls []).2)
       ∧ contents q = (all_on_list calls []).1
       ∧ (length (contents q) ≤ 5)%nat.
Proof.
  assert (Hn : well_formed new) by (split; [done | by left]).
  destruct (calls_on_list fuel calls new Hn) as (q & Hc & Hq & Hl).
  exists q. split; [exact Hc|]. split; [exact Hl|]. by apply length_contents.
Qed.

End CircularQueueFacts.

Section JavaFacts.
Import Java.

Lemma int_small (n : Z) : -2147483648 <= n < 2147483648 → int n = n.
Proof. intros H. unfold int. Z.div_mod_to_equations. lia. Qed.

Lemma load_middle (p : list Z) (x : Z) (q : list Z) :
  load (p ++ x :: q) (Z.of_nat (length p)) = Some x.
Proof.
  unfold load. destruct (Z.ltb_spec (Z.of_nat (length p)) 0); [lia|].
  rewrite Nat2Z.id. by apply list_lookup_middle.
Qed.

Lemma store_middle (p : list Z) (d x : Z) (q : list Z) :
  store (p ++ d :: q) (Z.of_nat (length p)) x = Some (p ++ x :: q).
Proof.
  unfold store. rewrite length_app. simpl.
  destruct (Z.leb_spec 0 (Z.of_nat (length p))); [|lia].
  destruct (Z.ltb_spec (Z.of_nat (length p))
              (Z.of_nat (length p + S (length q)))); [|lia].
  simpl. rewrite Nat2Z.id. f_equal.
  rewrite insert_app_r_alt by lia. by rewrite Nat.sub_diag.
Qed.
End JavaFacts.

Section InsertionSortFacts.
Import Java InsertionSort.

Lemma shift_spec (p : list Z) :
  ∀ (d : Z) (q : list Z) (key : Z) (fuel : nat),
    (length p < fuel)%nat →
    Z.of_nat (length (p ++ d :: q)) < 2147483648 →
    ∃ p1 p2 d',
      p = p1 ++ p2 ∧ Forall (λ x, key < x) p2
      ∧ (∀ p0 x, p1 = p0 ++ [x] → x <= key)
      ∧ shift fuel (p ++ d :: q) (Z.of_nat (length p) - 1) key
        = Returned (p1 ++ d' :: p2 ++ q, Z.of_nat (length p1) - 1).
Proof.
  induction p as [|x p IH] using rev_ind; intros d q key fuel Hf Hlen.
  - exists [], [], d. destruct fuel; [lia|]. repeat split; try done.
    intros p0 x H. by destruct p0.
  - destruct fuel as [|fuel]; [lia|].
    rewrite length_app in Hf. simpl in Hf.
    rewrite !length_app in Hlen. simpl in Hlen.
    rewrite length_app. simpl.
    replace (Z.of_nat (length p + 1) - 1) with (Z.of_nat (length p)) by lia.
    simpl. destruct (Z.leb_spec 0 (Z.of_nat (length p))); [|lia].
    rewrite <- app_assoc. simpl. rewrite load_middle.
    destruct (Z.gtb_spec x key) as [Hgt|Hle].
    + rewrite int_small by lia.
      replace (p ++ x :: d :: q) with ((p ++ [x]) ++ d :: q)
        by (by rewrite <- app_assoc).
      replace (Z.of_nat (length p) + 1) with (Z.of_nat (length (p ++ [x])))
        by (rewrite length_app; simpl; lia).
      rewrite store_middle. rewrite <- app_assoc. simpl.
      rewrite int_small by lia.
      destruct (IH x (x :: q) key fuel) as (p1 & p2 & d' & -> & Hp2 & Hp1 & Hs).
      { lia. }
      { rewrite length_app. simpl. lia. }
      exists p1, (p2 ++ [x]), d'. split; [by rewrite app_assoc|].
      split; [apply Forall_app; split; [done|]; constructor; [lia | done]|].
      split; [done|]. rewrite Hs. by rewrite <- !app_assoc.
    + exists (p ++ [x]), [], d. split; [by rewrite app_nil_r|].
      split; [done|]. split.
      * intros p0 y Hy. apply app_inj_tail in Hy as [_ <-]. lia.
      * rewrite length_app. simpl. rewrite <- app_assoc. simpl.
        do 2 f_equal. lia.
Qed.

Lemma sort_from_spec (rest : list Z) :
  ∀ (P : list Z) (fuel : nat),
    Sorted.StronglySorted Z.le P → (length rest < fuel)%nat →
    Z.of_nat (length (P ++ rest)) < 2147483648 →
    ∃ sorted,
      sort_from fuel (P ++ rest) (Z.of_nat (length P)) = Returned sorted
      ∧ Sorted.StronglySorted Z.le sorted ∧ P ++ rest ≡ₚ sorted.
Proof.
  induction rest as [|key rest IH]; intros P fuel HP Hf Hlen.
  - exists P. destruct fuel; [simpl in Hf; lia|]. rewrite app_nil_r. simpl.
    destruct (Z.ltb_spec (Z.of_nat (length P)) (Z.of_nat (length P))); [lia|].
    done.
  - destruct fuel as [|fuel]; [simpl in Hf; lia|]. simpl in Hf.
    pose proof Hlen as Hlen'. rewrite length_app in Hlen'. simpl in Hlen'.
    cbn [sort_from].
    destruct (Z.ltb_spec (Z.of_nat (length P))
                (Z.of_nat (length (P ++ key :: rest))));
      [|rewrite length_app in *; simpl in *; lia].
    rewrite load_middle. rewrite int_small by lia.
    destruct (shift_spec P key rest key (S (length (P ++ key :: rest))))
      as (p1 & p2 & d' & -> & Hp2 & Hp1 & Hs).
    { rewrite length_app. simpl. lia. }
    { done. }
    rewrite Hs. rewrite int_small by (rewrite length_app in Hlen'; lia).
    replace (Z.of_nat (length p1) - 1 + 1) with (Z.of_nat (length p1)) by lia.
    rewrite store_middle. rewrite int_small by lia.
    replace (p1 ++ key :: p2 ++ rest) with ((p1 ++ key :: p2) ++ rest)
      by (by rewrite <- app_assoc).
    replace (Z.of_nat (length (p1 ++ p2)) + 1)
      with (Z.of_nat (length (p1 ++ key :: p2)))
      by (rewrite !length_app; simpl; lia).
    destruct (IH (p1 ++ key :: p2) fuel) as (sorted & Hsort & Hss & Hperm).
    { apply sorting.StronglySorted_app in HP as (H12 & H1 & H2).
      apply sorting.StronglySorted_app_2; [|done|].
      - intros x1 x2 Hx1 [-> | Hx2]%elem_of_cons; [|by apply H12].
        apply list_elem_of_split in Hx1 as (a & b & ->).
        destruct b as [|y b _] using rev_ind.
        + by apply (Hp1 a x1).
        + transitivity y.
          * apply sorting.StronglySorted_app_1_r in H1.
            apply sorting.StronglySorted_cons in H1 as [Hx1 _].
            apply Forall_app in Hx1 as [_ Hx1].
            by inversion Hx1.
          * apply (Hp1 (a ++ x1 :: b) y). by rewrite <- app_assoc.
      - apply sorting.StronglySorted_cons. split; [|done].
        eapply Forall_impl; [exact Hp2|]. simpl. lia. }
    { lia. }
    { rewrite !length_app in *. simpl in *. lia. }
    exists sorted. split; [exact Hsort|]. split; [done|].
    rewrite <- Hperm. rewrite <- !app_assoc. simpl.
    apply Permutation_app_head. by rewrite Permutation_middle.
Qed.

(** X26. [insertionSort] goes through without leaving the array, and the
    array it leaves holds the same elements in ascending order. *)
Theorem insertionSort_sorts (arr : list Z) :
  Z.of_nat (length arr) < 2147483648 →
  ∃ sorted, insertionSort arr = Returned sorted
            ∧ Sorted.StronglySorted Z.le sorted ∧ arr ≡ₚ sorted.
Proof.
  intros Hlen. unfold insertionSort. destruct arr as [|a rest].
  - exists []. repeat split; constructor.
  - apply (sort_from_spec rest [a] (S (length (a :: rest)))).
    + repeat constructor.
    + simpl. lia.
    + done.
Qed.

End InsertionSortFacts.

Section BinarySearchFacts.
Import Java BinarySearch.

Lemma sorted_lookup_le (l : list Z) (i j : nat) (a b : Z) :
  Sorted.StronglySorted Z.le l → (i <= j)%nat →
  l !! i = Some a → l !! j = Some b → a <= b.
Proof.
  intros Hs. revert i j. induction Hs as [|x l Hs IH Hx]; intros i j Hij Ha Hb.
  - done.
  - destruct i as [|i], j as [|j]; simpl in *; try lia.
    + simplify_eq. lia.
    + simplify_eq. rewrite Forall_forall in Hx. apply Hx.
      by eapply list_elem_of_lookup_2.
    + apply (IH i j); [lia | done | done].
Qed.

Lemma search_spec (arr : list Z) (key : Z) (fuel : nat) :
  ∀ low high,
    Sorted.StronglySorted Z.le arr →
    Z.of_nat (length arr) <= 1073741824 →
    0 <= low → high < Z.of_nat (length arr) →
    low <= high + 1 → high - low + 1 < Z.of_nat fuel →
    (∀ i, arr !! i = Some key → low <= Z.of_nat i <= high) →
    ∃ r, search fuel arr key low high = Returned r
         ∧ (r = -1 ∧ key ∉ arr
            ∨ 0 <= r ∧ arr !! Z.to_nat r = Some key).
Proof.
  induction fuel as [|fuel IH]; intros low high Hs Hlen Hlow Hhigh Hlh Hf Hin.
  - lia.
  - cbn [search]. destruct (Z.leb_spec low high) as [Hle|Hgt].
    2: { exists (-1). split; [done | left]. split; [done|].
         intros (i & Hi)%list_elem_of_lookup_1. specialize (Hin i Hi). lia. }
    rewrite int_small by lia.
    assert (Hmid : low <= (low + high) ÷ 2 <= high).
    { rewrite Z.quot_div_nonneg by lia. Z.div_mod_to_equations. lia. }
    set (mid := (low + high) ÷ 2) in *.
    unfold load. destruct (Z.ltb_spec mid 0); [lia|].
    destruct (arr !! Z.to_nat mid) as [x|] eqn:Hx.
    2: { apply lookup_ge_None in Hx. lia. }
    destruct (Z.eqb_spec x key) as [->|Hne].
    + exists mid. split; [done | right]. split; [lia | done].
    + destruct (Z.ltb_spec x key) as [Hlt|Hge].
      * rewrite int_small by lia. apply IH; try done; try lia.
        intros i Hi. specialize (Hin i Hi). split; [|lia].
        destruct (Z.le_gt_cases (Z.of_nat i) mid) as [Him|]; [|lia].
        pose proof (sorted_lookup_le arr i (Z.to_nat mid) key x Hs
                      ltac:(lia) Hi Hx). lia.
      * rewrite int_small by lia. apply IH; try done; try lia.
        intros i Hi. specialize (Hin i Hi). split; [lia|].
        destruct (Z.le_gt_cases mid (Z.of_nat i)) as [Him|]; [|lia].
        pose proof (sorted_lookup_le arr (Z.to_nat mid) i x key Hs
                      ltac:(lia) Hx Hi). lia.
Qed.

(** X27. On an array in ascending order of at most 2^30 elements,
    [binarySearch] goes through without leaving the array: it returns
    an index that holds the key, or -1 when the key is not in the
    array. *)
Theorem binarySearch_finds (arr : list Z) (key : Z) :
  Sorted.StronglySorted Z.le arr →
  Z.of_nat (length arr) <= 1073741824 →
  ∃ r, binarySearch arr key = Returned r
       ∧ (r = -1 ∧ key ∉ arr
          ∨ 0 <= r ∧ arr !! Z.to_nat r = Some key).
Proof.
  intros Hs Hlen. unfold binarySearch. rewrite int_small by lia.
  apply search_spec; try done; try lia.
  intros i Hi. apply lookup_lt_Some in Hi. lia.
Qed.

End BinarySearchFacts.

(* ===================================================================== *)
(** * Concrete runs                                                       *)
(* ===================================================================== *)

Section ConcreteRuns.
Import Tickets Example.

Lemma opened_c1 :
  activeTickets (loaded no_format no_data opened) !! "c1" = Some opened_record.
Proof. vm_compute. reflexivity. Qed.

(** C2, counterexample: confirm and reopen with the clock reading the
    same millisecond; all three transitions are carried out and
    [reopenedAt] is not later than [closedAt]. *)
Lemma reopen_in_the_same_millisecond :
  let s3 := exec [close_c1 2000 staff; confirm_c1 3000 staff;
                  reopen_c1 3000 staff] opened in
  ∃ r3, activeTickets s3 !! "c1" = Some r3
        ∧ field r3 "closed" = VBool false
        ∧ field r3 "closedAt" = VDate (Some 3000)
        ∧ field r3 "reopenedAt" = VDate (Some 3000)
        ∧ date_lt (field r3 "closedAt") (field r3 "reopenedAt") = false.
Proof. eexists. split; [vm_compute; reflexivity|]. by vm_compute. Qed.

Lemma close_confirm_reopen_witness :
  ∃ r3, activeTickets
          (exec [close_c1 2000 staff; confirm_c1 3000 requester;
                 reopen_c1 4000 staff] opened) !! "c1" = Some r3
        ∧ field r3 "closed" = VBool false
        ∧ field r3 "closedAt" = VDate (Some 3000)
        ∧ field r3 "closedBy" = VStr "alice"
        ∧ field r3 "reopenedAt" = VDate (Some 4000)
        ∧ field r3 "reopenedBy" = VStr "bob"
        ∧ date_lt (field r3 "closedAt") (field r3 "reopenedAt")
          = (3000 <? 4000).
Proof.
  apply (close_confirm_reopen no_format no_data cfg
           (env 2000 None) (env 3000 None) (env 4000 None)
           opened "c1" "alice" "support" staff requester staff opened_record);
    vm_compute; reflexivity.
Defined.

(** C3, the failing input: a staff member asks to close the ticket, so
    the prompt is posted in the channel; the requester, who is neither
    administrator nor staff, presses its confirm button. The ticket is
    closed in the requester's name and the requester's send permission
    is taken away. *)
Lemma confirm_by_requester_closes :
  let '(s1, out1) := step (env 2000 None)
                       (Button "ticket_close" "c1" staff) opened in
  let '(s2, out2) := step (env 3000 None)
                       (Button "ticket_close_confirm" "c1" requester) s1 in
  isAdministrator requester = false
  ∧ isStaff cfg requester (VStr "support") = false
  ∧ out1 = [ClosePrompt]
  ∧ out2 = [Post "c1" "Ticket Closed"; Reply "Ticket has been closed."]
  ∧ (∃ r, activeTickets s2 !! "c1" = Some r
          ∧ field r "closed" = VBool true
          ∧ field r "closedBy" = VStr "alice")
  ∧ (∃ ow, permissionOverwrites s2 !! ("c1", "alice") = Some ow
           ∧ ow !! "SendMessages" = Some false).
Proof.
  vm_compute. do 4 (split; [reflexivity|]). split.
  - eexists. split; [reflexivity|]. by vm_compute.
  - eexists. split; [reflexivity|]. by vm_compute.
Qed.

(** C5, counterexample: a close prompt is in the channel when the
    ticket is deleted; a cancel pressed on it afterwards is answered as
    a cancel, not as "not a ticket". *)
Lemma cancel_after_delete_not_refused :
  let s' := exec [close_c1 2000 staff; delete_c1 2001 staff] opened in
  activeTickets s' !! "c1" = None
  ∧ (step (env 3000 None) (Button "ticket_close_cancel" "c1" staff) s').2
    = [Reply "Ticket closure cancelled."]
  ∧ [Reply "Ticket closure cancelled."] ≠ [Reply msg_not_a_ticket].
Proof. vm_compute. by repeat split. Qed.

Lemma delete_removes_record_witness :
  let s' := (step (env 2000 None) (Button "ticket_delete" "c1" staff) opened).1 in
  let s'' := exec [close_c1 3000 staff; (env 3001 None, Restart)] s' in
  activeTickets s' !! "c1" = None ∧ persisted (file s') "c1" = None
  ∧ activeTickets s'' !! "c1" = None ∧ persisted (file s'') "c1" = None
  ∧ ∀ env' customId m', management customId →
      step env' (Button customId "c1" m') s''
      = (loaded no_format no_data s'', [Reply msg_not_a_ticket]).
Proof.
  apply (delete_removes_record no_format no_data cfg (env 2000 None)
           opened "c1" "support" staff opened_record
           [close_c1 3000 staff; (env 3001 None, Restart)]).
  - intros customId _. reflexivity.
  - vm_compute. reflexivity.
  - vm_compute. reflexivity.
  - vm_compute. reflexivity.
  - reflexivity.
  - repeat constructor; simpl; discriminate.
Defined.

(** C6, counterexample: the channel has no record any more (its
    ticket was deleted while a close prompt was up). The cancel button
    answers as a cancel and the confirm button answers nothing (two
    console messages); neither reports "not a ticket", which the
    close-request button does. *)
Lemma stale_prompt_not_refused :
  let s := exec [close_c1 2000 staff; delete_c1 2001 staff] opened in
  activeTickets (loaded no_format no_data s) !! "c1" = None
  ∧ (step (env 3000 None) (Button "ticket_close_cancel" "c1" staff) s).2
    = [Reply "Ticket closure cancelled."]
  ∧ (step (env 3000 None) (Button "ticket_close_confirm" "c1" staff) s).2
    = [ConsoleError "Error closing ticket";
       ConsoleError "Failed to send error message to channel"]
  ∧ (step (env 3000 None) (Button "ticket_close" "c1" staff) s).2
    = [Reply msg_not_a_ticket]
  ∧ [Reply "Ticket closure cancelled."] ≠ [Reply msg_not_a_ticket].
Proof. vm_compute. by repeat split. Qed.

Lemma no_record_no_effect_witness :
  let s := exec [close_c1 2000 staff; delete_c1 2001 staff] opened in
  (∀ customId, management customId →
     step (env 3000 None) (Button customId "c1" staff) s
     = (loaded no_format no_data s, [Reply msg_not_a_ticket]))
  ∧ step (env 3000 None) (Button "ticket_close_cancel" "c1" staff) s
    = (s, [Reply "Ticket closure cancelled."])
  ∧ (step (env 3000 None) (Button "ticket_close_confirm" "c1" staff) s).1
    = loaded no_format no_data s.
Proof.
  apply (no_record_no_effect no_format no_data cfg (env 3000 None)
           (exec [close_c1 2000 staff; delete_c1 2001 staff] opened)
           "c1" staff).
  - intros customId _. reflexivity.
  - reflexivity.
  - reflexivity.
  - vm_compute. reflexivity.
Defined.

Lemma close_request_then_cancel_witness :
  let s1 := (step (env 2000 None) (Button "ticket_close" "c1" staff) opened).1 in
  let s2 := (step (env 2001 None)
               (Button "ticket_close_cancel" "c1" requester) s1).1 in
  s1 = loaded no_format no_data opened ∧ s2 = loaded no_format no_data opened
  ∧ ∃ r', activeTickets s2 !! "c1" = Some r' ∧ r' = opened_record
          ∧ truthy (field r' "closed") = false
          ∧ field r' "closedAt" = field opened_record "closedAt".
Proof.
  apply (close_request_then_cancel no_format no_data cfg
           (env 2000 None) (env 2001 None) opened "c1" staff requester
           opened_record).
  - reflexivity.
  - reflexivity.
  - vm_compute. reflexivity.
  - vm_compute. reflexivity.
Defined.

(** C9, counterexample: an identifier that is not a snowflake is
    returned as it is (once, and without the empty entry). *)
Lemma getTicketRoles_keeps_malformed :
  getTicketRoles misconfigured (VStr "support") = [PStr "abc"]
  ∧ isValidSnowflake (PStr "abc") = false.
Proof. by vm_compute. Qed.

Lemma quota_guard_witness :
  let tickets := activeTickets (loaded no_format no_data three_open) in
  checkQuota cfg tickets "alice" "support"
  = Deny (msg_type_limit cfg "support")
  ∧ checkQuota cfg tickets "alice" "hr" = Allow
  ∧ is_Some (activeTickets
               (run (createTicket no_format no_data cfg
                       (env 2000 (Some "c4")) requester "hr") three_open).1
             !! "c4").
Proof.
  destruct (quota_guard no_format no_data cfg (env 2000 (Some "c4"))
              three_open requester "support" VUndef eq_refl)
    as (_ & _ & _ & _ & _ & _ & H & _).
  apply (H "support" "hr" "c4"); vm_compute; reflexivity.
Defined.

Lemma save_load_timestamps_witness :
  ∃ value',
    loadActiveTickets no_format no_data (Doc (serialize dated)) !! "c1"
    = Some value'
    ∧ instant (field value' "createdAt")
      = instant (field dated_record "createdAt")
    ∧ (λ t, t / 1000) <$> instant (field value' "createdAt")
      = (λ t, t / 1000) <$> instant (field dated_record "createdAt").
Proof.
  apply (save_load_timestamps no_format no_data dated "c1" dated_record
           "createdAt").
  - discriminate.
  - vm_compute. reflexivity.
  - by left.
  - vm_compute. discriminate.
Defined.

(** C8, counterexample: a record under the key [__proto__], with a
    valid [createdAt], is not written, so the map loaded back has no
    record under that key. *)
Lemma proto_record_not_saved :
  proto_keyed !! "__proto__" = Some proto_record
  ∧ timestamp (field proto_record "createdAt")
  ∧ instant (field proto_record "createdAt") = Some a_summer_evening
  ∧ serialize proto_keyed = ∅
  ∧ loadActiveTickets no_format no_data (Doc (serialize proto_keyed))
      !! "__proto__" = None.
Proof.
  split; [by vm_compute|]. split; [by vm_compute|]. split; [done|].
  split; [by vm_compute|]. by vm_compute.
Qed.

Lemma legacy_file_keyed : file_keyed legacy_file.
Proof.
  intros key value H. simpl in H.
  apply lookup_singleton_Some in H as [<- <-]. right. by vm_compute.
Qed.

Lemma registry_channel_keyed_witness :
  ∃ value,
    activeTickets
      (Tickets.exec no_format no_data cfg
         [(env 1000 (Some "c1"),
           Button "ticket_create_support" "lobby" requester);
          (env 2000 None, Restart)]
         (start no_format no_data legacy_file ∅ ∅)) !! "c9" = Some value
    ∧ field value "channelId" = VStr "c9".
Proof.
  eexists. split; [vm_compute; reflexivity|].
  eapply (registry_channel_keyed no_format no_data cfg legacy_file ∅ ∅
            [(env 1000 (Some "c1"),
              Button "ticket_create_support" "lobby" requester);
             (env 2000 None, Restart)] "c9").
  - exact legacy_file_keyed.
  - vm_compute. reflexivity.
Defined.

(** C1, counterexample: two saves back to back, the first write
    succeeds and the second fails. Both promises are settled, nothing
    is queued or being written, and the file holds the snapshot of the
    first save, not that of the save enqueued last. *)
Lemma rejected_save_keeps_old_file :
  SaveQueue.reachable Some None after_failed_save
  ∧ SaveQueue.enqueued (SaveQueue.history after_failed_save)
    = [ {| SaveQueue.promise := 0; SaveQueue.tickets := "first" |};
        {| SaveQueue.promise := 1; SaveQueue.tickets := "second" |} ]
  ∧ SaveQueue.settled (SaveQueue.history after_failed_save) = [0; 1]%nat
  ∧ SaveQueue.saveQueue after_failed_save = []
  ∧ SaveQueue.writing after_failed_save = []
  ∧ SaveQueue.isSaving after_failed_save = false
  ∧ SaveQueue.file after_failed_save = Some "first"
  ∧ SaveQueue.file after_failed_save ≠ Some "second".
Proof.
  split; [exists second_write_fails; by vm_compute|].
  by vm_compute.
Qed.

Lemma save_queue_serializes_writes_witness :
  SaveQueue.reachable Some None after_two_saves
  ∧ SaveQueue.file after_two_saves = Some "second"
  ∧ SaveQueue.saveQueue after_two_saves = []
  ∧ SaveQueue.writing after_two_saves = []
  ∧ SaveQueue.serial (SaveQueue.history after_two_saves) = true.
Proof.
  assert (Hr : SaveQueue.reachable Some None after_two_saves).
  { exists two_saves. vm_compute. reflexivity. }
  split; [exact Hr|].
  destruct (save_queue_serializes_writes Some None after_two_saves Hr)
    as ((_ & Hser) & _ & _ & Hlast).
  destruct (Hlast {| SaveQueue.promise := 1; SaveQueue.tickets := "second" |})
    as (Hq & Hw & _ & _ & Hf).
  - vm_compute. reflexivity.
  - vm_compute. right. left.
  - by repeat split.
Defined.

End ConcreteRuns.

(* ===================================================================== *)
(** * Concrete runs, continued                                            *)
(* ===================================================================== *)

Section MoreConcreteRuns.
Import Tickets Example Scenario Conduct.

Lemma two_pending_reachable : SaveQueue.reachable Some None two_pending.
Proof.
  exists [SaveQueue.Save "first"; SaveQueue.Save "second"].
  vm_compute. reflexivity.
Qed.

Lemma after_two_saves_reachable :
  SaveQueue.reachable Some None after_two_saves.
Proof. exists two_saves. vm_compute. reflexivity. Qed.

Lemma year_only_clipped : clipped year_only.
Proof.
  intros s t. unfold year_only. destruct (String.eqb s "1970"); [|done].
  intros [= <-]. by vm_compute.
Qed.

Lemma one_item_clipped : clipped one_item.
Proof.
  intros j t. unfold one_item.
  destruct j as [| | | |[|[| | |s| |] [|]]|]; try done.
  apply year_only_clipped.
Qed.

Lemma save_queue_drains_witness :
  SaveQueue.isSaving two_pending = true
  ∧ ∃ trace s', SaveRuns.completions all_fine trace
      ∧ SaveQueue.exec Some trace two_pending = Some s'
      ∧ SaveQueue.isSaving s' = false ∧ SaveQueue.saveQueue s' = []
      ∧ SaveQueue.settled (SaveQueue.history s') = [0; 1]%nat.
Proof.
  split; [reflexivity|].
  destruct (save_queue_drains Some None two_pending all_fine
              two_pending_reachable)
    as (trace & s' & Hc & He & Hs & Hq & _ & _ & _ & Hd).
  exists trace, s'. by repeat split.
Defined.

Lemma promises_settled_once_witness :
  SaveQueue.settled (SaveQueue.history after_two_saves) = [0; 1]%nat
  ∧ NoDup (SaveQueue.settled (SaveQueue.history after_two_saves)).
Proof.
  split; [by vm_compute|].
  exact (proj1 (promises_settled_once Some None after_two_saves
                  after_two_saves_reachable)).
Defined.

Lemma file_is_one_snapshot_witness :
  SaveQueue.file after_two_saves = None
  ∨ ∃ r, r ∈ SaveQueue.enqueued (SaveQueue.history after_two_saves)
         ∧ SaveQueue.promise r
           ∈ SaveQueue.resolved (SaveQueue.history after_two_saves)
         ∧ Some (SaveQueue.tickets r) = SaveQueue.file after_two_saves.
Proof.
  destruct (file_is_one_snapshot Some None after_two_saves
              after_two_saves_reachable) as [H | H]; [by left | exact H].
Defined.

Lemma reload_is_stable_witness :
  clipped year_only ∧ clipped one_item
  ∧ (loadActiveTickets year_only one_item hand_written !! "c1"
       ≫= (.!! "createdAt")) = Some (VDate (Some 0))
  ∧ let tickets := loadActiveTickets year_only one_item hand_written in
    serialize (loadActiveTickets year_only one_item (Doc (serialize tickets)))
    = serialize tickets.
Proof.
  split; [exact year_only_clipped|]. split; [exact one_item_clipped|].
  split; [by vm_compute|].
  exact (reload_is_stable year_only one_item
           year_only_clipped one_item_clipped hand_written).
Defined.

Lemma every_saved_timestamp_comes_back_witness :
  let s := Tickets.exec year_only one_item cfg open_and_close
             (start year_only one_item hand_written ∅ ∅) in
  activeTickets s !! "c2" = Some closed_record
  ∧ timestamp (field closed_record "closedAt")
  ∧ ∃ value',
      loadActiveTickets year_only one_item
        (Doc (serialize (activeTickets s))) !! "c2" = Some value'
      ∧ instant (field value' "closedAt") = Some 3000.
Proof.
  assert (H : activeTickets
                (Tickets.exec year_only one_item cfg open_and_close
                   (start year_only one_item hand_written ∅ ∅)) !! "c2"
              = Some closed_record) by (vm_compute; reflexivity).
  split; [exact H|].
  destruct (every_saved_timestamp_comes_back year_only one_item cfg
              year_only_clipped one_item_clipped hand_written ∅ ∅
              open_and_close "c2" "closedAt" closed_record)
    as [Ht Hback].
  - repeat constructor; by vm_compute.
  - exact H.
  - right. by left.
  - split; [exact Ht|]. by apply Hback.
Defined.

Lemma reading_events_change_nothing_witness :
  let ev := Button "ticket_transcript" "c1" requester in
  reads_only ev
  ∧ ((step (env 2000 None) ev opened).1 = opened
     ∨ (step (env 2000 None) ev opened).1 = loaded no_format no_data opened).
Proof.
  assert (H : reads_only (Button "ticket_transcript" "c1" requester)).
  { intros [H | [H | [H | H]]]; discriminate H. }
  split; [exact H|].
  exact (reading_events_change_nothing no_format no_data cfg (env 2000 None)
           (Button "ticket_transcript" "c1" requester) opened H).
Defined.

Lemma transcript_for_anyone_witness :
  isStaff cfg requester (VStr "support") = false
  ∧ ∃ log, step (env 2000 None) (Button "ticket_transcript" "c1" requester)
             opened
           = (loaded no_format no_data opened,
              [Post "c1" "Transcript saved"] ++ log ++
              [Reply "Transcript has been created and saved!"])
           ∧ (log = [] ∨ log = [LogAction "transcript" "c1"]).
Proof.
  split; [reflexivity|].
  apply (transcript_for_anyone no_format no_data cfg (env 2000 None) opened
           "c1" "support" requester opened_record);
    vm_compute; reflexivity.
Defined.

Lemma register_ticket_stores_witness :
  let s' := (step (env 5000 None)
               (RegisterTicket admin "c7" None (Some "carol") (Some "hr"))
               opened).1 in
  (∃ value, activeTickets s' !! "c7" = Some value
            ∧ field value "userId" = VStr "carol"
            ∧ field value "manuallyRegistered" = VBool true)
  ∧ file s' = Doc (serialize (activeTickets s')).
Proof.
  destruct (register_ticket_stores no_format no_data cfg (env 5000 None)
              opened admin "c7" None "carol" "hr")
    as (Ha & Hf & _); try (vm_compute; reflexivity).
  intros s'. subst s'. unfold Example.step. split; [|exact Hf].
  eexists. split; [rewrite Ha; apply lookup_insert_eq|]. by vm_compute.
Defined.

Lemma create_button_type_witness :
  step (env 1000 (Some "c1")) (Button "ticket_create_support_now" "lobby"
                                 requester) fresh
  = run (safeInteractionHandler
           (createTicket no_format no_data cfg (env 1000 (Some "c1"))
              requester "support")) fresh.
Proof.
  exact (create_button_type no_format no_data cfg (env 1000 (Some "c1"))
           fresh "support_now" "lobby" requester eq_refl).
Defined.

Lemma new_channel_access_witness :
  let s' := (run (createTicket no_format no_data cfg (env 1000 (Some "c1"))
                    requester "support") fresh).1 in
  permissionOverwrites s' !! ("c1", support_role) = Some staff_allow
  ∧ permissionOverwrites s' !! ("c1", "alice") = Some (requester_allow false)
  ∧ permissionOverwrites s' !! ("c1", "guild")
    = Some {["ViewChannel" := false]}
  ∧ permissionOverwrites s' !! ("c1", "bob") = None.
Proof.
  assert (Hlet : ∀ x, let_in cfg (env 1000 (Some "c1")) "support" x →
                      x = support_role).
  { intros x (H & _). vm_compute in H.
    apply list_elem_of_In in H. destruct H as [[= <-] | []]. done. }
  destruct (new_channel_access no_format no_data cfg (env 1000 (Some "c1"))
              fresh requester "support" "c1" (VPrim PUndef)
              ltac:(vm_compute; reflexivity) eq_refl
              false (λ _, eq_refl))
    as (H1 & H2 & H3 & H4 & _).
  split; [|split; [|split]].
  - apply H1. split; [|split]; [| reflexivity |]; vm_compute.
    + apply list_elem_of_In. by left.
    + apply list_elem_of_In. by left.
  - apply H2. by intros [= ]%Hlet.
  - apply H3; [by intros [= ]%Hlet | done].
  - rewrite H4; [done | by intros [= ]%Hlet | done | done].
Defined.

Lemma creation_checks_before_the_wait_witness :
  let s1 := step (env 3000 None) (CreateSuspended requester "support" false)
              two_open in
  let s2 := step (env 3001 None) (CreateSuspended requester "support" false)
              s1.1 in
  let s3 := step (env 3002 (Some "c3")) (CreateResumed requester "support" None)
              s2.1 in
  let s4 := step (env 3003 (Some "c4")) (CreateResumed requester "support" None)
              s3.1 in
  Z.of_nat (length (userTicketsOfType
                      (activeTickets (loaded no_format no_data two_open))
                      "alice" "support")) + 1 = maxPerType cfg
  ∧ s1.2 = [] ∧ s2.2 = []
  ∧ maxPerType cfg
    < Z.of_nat (length (userTicketsOfType (activeTickets s4.1)
                          "alice" "support")).
Proof.
  assert (Hq : checkQuota cfg
                 (activeTickets (loaded no_format no_data two_open))
                 (userId requester) "support" = Allow)
    by (vm_compute; reflexivity).
  destruct (creation_checks_before_the_wait no_format no_data cfg
              two_open requester "support" Hq) as [_ Htwo].
  destruct (Htwo (env 3000 None) (env 3001 None) (env 3002 (Some "c3"))
              (env 3003 (Some "c4")) "c3" "c4" None None)
    as (H1 & H2 & _ & _ & _ & H6); try (vm_compute; reflexivity).
  { discriminate. }
  assert (Hn : Z.of_nat (length (userTicketsOfType
                 (activeTickets (loaded no_format no_data two_open))
                 "alice" "support")) + 1 = maxPerType cfg)
    by (vm_compute; reflexivity).
  split; [exact Hn|]. split; [exact H1|]. split; [exact H2|].
  exact (H6 Hn).
Defined.

Lemma quota_follows_lifecycle_witness :
  let total st := length (userTickets (activeTickets st) "alice") in
  let closed := (step (env 3000 None)
                   (Button "ticket_close_confirm" "c1" requester) opened).1 in
  let reopened := (step (env 4000 None)
                     (Button "ticket_reopen" "c1" staff) closed).1 in
  let deleted := (step (env 5000 None)
                    (Button "ticket_delete" "c1" staff) opened).1 in
  total (loaded no_format no_data opened) = 1%nat
  ∧ (total closed + 1 = total (loaded no_format no_data opened))%nat
  ∧ (total deleted + 1 = total (loaded no_format no_data opened))%nat
  ∧ total reopened = total (loaded no_format no_data opened).
Proof.
  destruct (quota_follows_lifecycle no_format no_data cfg
              (env 3000 None) (env 4000 None) (env 5000 None) opened
              "c1" "alice" "support" requester staff staff opened_record)
    as ((H1 & _) & (H2 & _) & (H3 & _)); try (vm_compute; reflexivity).
  split; [by vm_compute|]. split; [exact H1|]. split; [exact H2 | exact H3].
Defined.

Lemma confirm_stops_half_way_witness :
  let s' := (step (env_no_post 3000)
               (Button "ticket_close_confirm" "c1" staff) opened).1 in
  activeTickets s' = activeTickets (loaded no_format no_data opened)
  ∧ file s' = file opened
  ∧ (permissionOverwrites s' !! ("c1", "alice")
       ≫= (.!! "SendMessages")) = Some false.
Proof.
  destruct (confirm_stops_half_way no_format no_data cfg (env_no_post 3000)
              opened "c1" "alice" "support" staff opened_record)
    as (_ & H & _); try (vm_compute; reflexivity).
  destruct (H eq_refl eq_refl) as (Ha & Hf & Hp).
  intros s'. subst s'. unfold Example.step.
  split; [exact Ha|]. split; [exact Hf|].
  rewrite Hp. vm_compute. reflexivity.
Defined.

Lemma confirm_again_witness :
  activeTickets
    (exec [confirm_c1 3000 staff; confirm_c1 4000 requester] opened) !! "c1"
  = Some (closed_by opened_record "alice" 4000).
Proof.
  apply (confirm_again no_format no_data cfg (env 3000 None) (env 4000 None)
           opened "c1" "alice" "support" staff requester opened_record);
    vm_compute; reflexivity.
Defined.

Lemma close_reopen_restores_permissions_witness :
  let s1 := (step (env 3000 None)
               (Button "ticket_close_confirm" "c1" requester) opened).1 in
  let s2 := (step (env 4000 None) (Button "ticket_reopen" "c1" staff) s1).1 in
  permissionOverwrites s1 !! ("c1", "alice")
  = Some (<["SendMessages" := false]> (requester_allow false))
  ∧ permissionOverwrites s2 = permissionOverwrites opened.
Proof.
  apply (close_reopen_restores_permissions no_format no_data cfg
           (env 3000 None) (env 4000 None) opened "c1" "alice" "support"
           requester staff opened_record (requester_allow false));
    vm_compute; reflexivity.
Defined.

Lemma delete_and_the_channel_witness :
  let s' := (step (env 2000 None) (Button "ticket_delete" "c1" staff)
               opened).1 in
  let gone := (step (env 7000 None) (DeleteTimer "c1") s').1 in
  let kept := (step (env_no_delete 7000) (DeleteTimer "c1") s').1 in
  pendingDelete s' = ["c1"]
  ∧ channels gone = channels opened ∖ {["c1"]}
  ∧ channels kept = channels opened
  ∧ activeTickets kept !! "c1" = None ∧ "c1" ∉ pendingDelete kept.
Proof.
  destruct (delete_and_the_channel no_format no_data cfg
              (env 2000 None) (env 7000 None) opened "c1" "support" staff
              opened_record) as (Hgone & _); try (vm_compute; reflexivity).
  destruct (delete_and_the_channel no_format no_data cfg
              (env 2000 None) (env_no_delete 7000) opened "c1" "support"
              staff opened_record) as (Hkept & _);
    try (vm_compute; reflexivity).
  destruct (Hgone eq_refl) as (H1 & _ & _ & _ & H5 & _).
  destruct (Hkept eq_refl) as (_ & _ & K3 & K4 & _ & K6).
  split; [exact H1|]. split; [exact (H5 eq_refl)|].
  split; [exact (proj1 (K6 eq_refl))|]. split; [exact K4 | exact K3].
Defined.

Lemma ready_drops_orphans_witness :
  let s1 := (step (env 9000 None) Ready orphaned).1 in
  activeTickets orphaned !! "c1" = Some opened_record
  ∧ activeTickets s1 !! "c1" = None
  ∧ file s1 = Doc (serialize (activeTickets s1)).
Proof.
  destruct (ready_drops_orphans no_format no_data cfg
              (env 9000 None) (env 9000 None) orphaned) as (H1 & H2 & _).
  split; [by vm_compute|]. split.
  - exact (H1 "c1").
  - exact (proj1 (H2 eq_refl)).
Defined.

Lemma register_ticket_refusals_witness :
  step (env 5000 None)
    (RegisterTicket staff "c7" None (Some "carol") (Some "hr")) opened
  = (opened,
     [Reply "You need administrator permissions to register tickets."])
  ∧ step (env 5000 None)
      (RegisterTicket admin "c7" None (Some "carol") (Some "billing")) opened
    = (loaded no_format no_data opened, [Reply msg_invalid_type]).
Proof.
  split.
  - exact (proj1 (register_ticket_refusals no_format no_data cfg
                    (env 5000 None) opened staff "c7" None (Some "carol")
                    (Some "hr")) eq_refl).
  - apply (register_ticket_refusals no_format no_data cfg
             (env 5000 None) opened admin "c7" None (Some "carol")
             (Some "billing")); [reflexivity | reflexivity |].
    by intros ty [= <-].
Defined.

Lemma formatDateUTC_iso_witness :
  Display.formatDateUTC (Some a_summer_evening) = "2025-07-06 18:09:29"
  ∧ "2025-07-06 18:09:29"
    = String.substring 0 10 (JSDate.toISOString a_summer_evening) +:+ " " +:+
      String.substring 11 8 (JSDate.toISOString a_summer_evening).
Proof.
  split; [by vm_compute|].
  etrans; [|apply (formatDateUTC_iso a_summer_evening); by vm_compute].
  by vm_compute.
Defined.

Lemma formatDateUTC_seconds_witness :
  (Display.formatDateUTC (Some a_summer_evening)
   = Display.formatDateUTC (Some (a_summer_evening + 800))
   ↔ a_summer_evening / 1000 = (a_summer_evening + 800) / 1000)
  ∧ Display.formatDateUTC (Some a_summer_evening)
    ≠ Display.formatDateUTC (Some (a_summer_evening + 900)).
Proof.
  split.
  - apply formatDateUTC_seconds; by vm_compute.
  - intros H.
    apply (formatDateUTC_seconds a_summer_evening (a_summer_evening + 900))
      in H; by vm_compute.
Defined.

Lemma circular_queue_main_witness :
  ∃ q, CircularQueue.calls_from 5 CircularQueue.main CircularQueue.new
       = Some (CircularQueue.Returned q
                 ["Inserted: 10"; "Inserted: 20"; "Inserted: 30";
                  "Inserted: 40"; "Inserted: 50";
                  "Queue Elements: 10 20 30 40 50 "; "Deleted: 10";
                  "Deleted: 20"; "Queue Elements: 30 40 50 "; "Inserted: 60";
                  "Inserted: 70"; "Queue Elements: 30 40 50 60 70 "])
       ∧ CircularQueue.contents q = [30; 40; 50; 60; 70].
Proof.
  destruct (circular_queue_first_in_first_out 0 CircularQueue.main)
    as (q & H1 & H2 & _).
  exists q. split; [exact H1 | exact H2].
Defined.

Lemma insertionSort_sorts_witness :
  InsertionSort.insertionSort [5; 2; 9; 1; 5; 6]
  = Java.Returned [1; 2; 5; 5; 6; 9]
  ∧ ∃ sorted, InsertionSort.insertionSort [5; 2; 9; 1; 5; 6]
              = Java.Returned sorted
              ∧ Sorted.StronglySorted Z.le sorted
              ∧ [5; 2; 9; 1; 5; 6] ≡ₚ sorted.
Proof.
  split; [by vm_compute|].
  apply (insertionSort_sorts [5; 2; 9; 1; 5; 6]). by vm_compute.
Defined.

Lemma binarySearch_finds_witness :
  ∃ r, BinarySearch.binarySearch [10; 25; 30; 45; 50] 30 = Java.Returned r
       ∧ (r = -1 ∧ 30 ∉ [10; 25; 30; 45; 50]
          ∨ 0 <= r ∧ [10; 25; 30; 45; 50] !! Z.to_nat r = Some 30).
Proof.
  apply (binarySearch_finds [10; 25; 30; 45; 50] 30).
  - repeat constructor; lia.
  - by vm_compute.
Defined.

End MoreConcreteRuns.
